(** * Route planning and weekly driver pay of the transport dashboard

    A shallow embedding of the two workflows of the dashboard that carry
    business rules:

    - route planning: [components/RouteModal.tsx] (postcode
      normalisation, the [confirm] pipeline, the datetime-local/ISO
      conversions, the handlers of the stop list and the prefill of a
      reopened route) and the endpoints [app/api/route-miles/route.ts]
      and [app/api/geocode/route.ts];
    - weekly driver pay: [app/(app)/manage/driver-pay/page.tsx]
      ([computeDriverWeek], [syncFromCompletedJobs], the calendar of the
      pay week, and the actions that mark, edit and clear a day).

    Conventions of the embedding.

    - A JavaScript string is a [string]; the model covers ASCII text: the
      regular expression class [\s] and [trim] recognise the ASCII white
      space characters (code units 9 to 13 and 32), [toUpperCase] and
      [toLowerCase] act on the letters a-z / A-Z, every other code unit is
      carried through unchanged.
    - A number of a JSON document is the rational that its literal
      denotes; read by the program it is a double, an infinity when the
      literal lies beyond the doubles ([Json.clamp]). Where the program
      rounds a quotient for display, the conversion of metres to miles,
      its arithmetic is that of binary64 doubles ([Double.fl] rounds to
      the nearest double, halves to even). Elsewhere (hours, shifts,
      pay) a number that takes part in arithmetic is an exact rational
      ([Q]). [Math.round x] is [Qfloor (x + 1/2)].
    - A JavaScript object used as a dictionary is a [gmap string _].
    - The two network calls of [confirm] are answers of an environment,
      and every call is recorded in a log.
    - Local time is UTC shifted by one fixed offset ([LocalTZA]), so a
      change of that offset between two conversions (daylight saving) is
      outside the model; a [Date] is its time value in milliseconds, or
      invalid. [new Date] reads the date-time string format as the
      standard defines it; what it makes of any other string is the
      engine's, a parameter.
    - The table of day entries is a finite map keyed by the conflict
      target of its upserts, [(owner_id, driver_id, entry_date)]; the
      store accepts every read and write.

    The first part holds the definitions, each next to the source it
    embeds; the second part holds the properties. *)

From Stdlib Require Import ZArith QArith Qround Qabs Qpower Lia Lqa.
From Stdlib Require Import List Ascii String Bool Sorted.
From Stdlib Require SpecFloat.
From stdpp Require Import base option list gmap strings pretty.

Local Open Scope string_scope.
Local Open Scope Z_scope.

(** ** JavaScript strings *)

Module Js.

Definition chars (s : string) : list ascii := list_ascii_of_string s.
Definition str (l : list ascii) : string := string_of_list_ascii l.

(** [\s] of a regular expression and the white space of [trim]. *)
Definition is_white_space (c : ascii) : bool :=
  let n := N_of_ascii c in
  ((9 <=? n)%N && (n <=? 13)%N) || (n =? 32)%N.

Definition upper_char (c : ascii) : ascii :=
  let n := N_of_ascii c in
  if ((97 <=? n)%N && (n <=? 122)%N)%bool then ascii_of_N (n - 32) else c.

Definition lower_char (c : ascii) : ascii :=
  let n := N_of_ascii c in
  if ((65 <=? n)%N && (n <=? 90)%N)%bool then ascii_of_N (n + 32) else c.

Definition toUpperCase (s : string) : string := str (map upper_char (chars s)).
Definition toLowerCase (s : string) : string := str (map lower_char (chars s)).

(** [s.replace(/\s+/g, "")]: every maximal run of white space is removed,
    that is, every white space character. *)
Definition remove_white_space (s : string) : string :=
  str (filter (fun c => is_white_space c = false) (chars s)).

Fixpoint drop_while {A} (p : A -> bool) (l : list A) : list A :=
  match l with
  | [] => []
  | x :: l' => if p x then drop_while p l' else l
  end.

Definition trim_chars (l : list ascii) : list ascii :=
  rev (drop_while is_white_space (rev (drop_while is_white_space l))).

Definition trim (s : string) : string := str (trim_chars (chars s)).

(** Truthiness of a string: the empty string is falsy. *)
Definition truthy (s : string) : bool :=
  match s with EmptyString => false | _ => true end.

(** [s.slice(start)] and [s.slice(start, end)] with JavaScript's relative
    (negative) indices, clamped to the string. *)
Definition rel_index (len k : Z) : Z :=
  if k <? 0 then Z.max (len + k) 0 else Z.min k len.

Definition slice_chars (l : list ascii) (start : Z) (stop : option Z) : list ascii :=
  let len := Z.of_nat (length l) in
  let from := rel_index len start in
  let to := match stop with Some e => rel_index len e | None => len end in
  take (Z.to_nat (to - from)) (drop (Z.to_nat from) l).

Definition slice (s : string) (start : Z) (stop : option Z) : string :=
  str (slice_chars (chars s) start stop).

Definition startsWith (s p : string) : bool := String.prefix p s.

(** [parts.join(sep)] *)
Fixpoint join (sep : string) (parts : list string) : string :=
  match parts with
  | [] => ""
  | [p] => p
  | p :: rest => p ++ sep ++ join sep rest
  end.

End Js.

(** ** Postcode normaliser ([RouteModal.tsx]) *)

Module Postcode.

(** [const normKey = (pc) => pc.replace(/\s+/g, "").toUpperCase()] *)
Definition normKey (pc : string) : string :=
  Js.toUpperCase (Js.remove_white_space pc).

(** [formatUKPostcode]: the key, with one space before its last three
    characters when it has more than three. *)
Definition formatUKPostcode (pc : string) : string :=
  let key := normKey pc in
  if negb (Js.truthy key) then ""
  else if (String.length key <=? 3)%nat then key
  else Js.slice key 0 (Some (-3)) ++ " " ++ Js.slice key (-3) None.

(** The display form in the words of the specification: upper-case, strip
    the white space, then put a single space before the final three
    characters when more than three remain. *)
Definition spec_stripped (pc : string) : list ascii :=
  filter (fun c => Js.is_white_space c = false) (map Js.upper_char (Js.chars pc)).

Definition spec_display (pc : string) : string :=
  let k := spec_stripped pc in
  let n := length k in
  if (3 <? n)%nat then Js.str (take (n - 3) k ++ " "%char :: drop (n - 3) k)
  else Js.str k.

End Postcode.

(** ** JSON values and the coercion [Number(...)] *)

#[local] Set Warnings "-register-all".

Module Json.

(** A JSON document. A number is the rational that its literal denotes;
    [clamp] below gives the number that the program reads from it. *)
Inductive value : Type :=
  | JNull
  | JBool (b : bool)
  | JNum (q : Q)
  | JStr (s : string)
  | JArr (items : list value)
  | JObj (fields : list (string * value)).

(** The result of a numeric coercion: a finite number, [NaN] or an
    infinity. *)
Inductive number : Type :=
  | Fin (q : Q)
  | NaN
  | PosInf
  | NegInf.

(** [Number.isFinite] *)
Definition isFinite (x : number) : bool :=
  match x with Fin _ => true | _ => false end.

(** [typeof v === "number"] for an optional (possibly [undefined]) value. *)
Definition is_number (v : option value) : bool :=
  match v with Some (JNum _) => true | _ => false end.

(** Own property of a parsed object, [JSON.parse] keeping the last of two
    equal keys. Arrays, strings, numbers and booleans have none of the
    property names read by the endpoints ([coords], [lat], [lng],
    [routes], [distance]). *)
Fixpoint assoc_last (k : string) (fields : list (string * value)) : option value :=
  match fields with
  | [] => None
  | (k', v) :: rest =>
      match assoc_last k rest with
      | Some w => Some w
      | None => if String.eqb k k' then Some v else None
      end
  end.

(** [v?.k]: [undefined] ([None]) when [v] is [null] or [undefined]. *)
Definition get (v : option value) (k : string) : option value :=
  match v with
  | Some (JObj fields) => assoc_last k fields
  | _ => None
  end.

(** [v?.[0]]: the first element of an array, the first character of a
    string, the property ["0"] of an object. *)
Definition get0 (v : option value) : option value :=
  match v with
  | Some (JArr (x :: _)) => Some x
  | Some (JStr (String c _)) => Some (JStr (String c EmptyString))
  | Some (JObj fields) => assoc_last "0" fields
  | _ => None
  end.

(** *** [StringToNumber] *)

Definition digit_of (radix : Z) (c : ascii) : option Z :=
  let n := Z.of_N (N_of_ascii c) in
  let d :=
    if (48 <=? n) && (n <=? 57) then Some (n - 48)
    else if (97 <=? n) && (n <=? 102) then Some (n - 87)
    else if (65 <=? n) && (n <=? 70) then Some (n - 55)
    else None in
  match d with
  | Some k => if k <? radix then Some k else None
  | None => None
  end.

(** Reads the longest run of digits: its value, its length, the rest. *)
Fixpoint read_digits (radix : Z) (l : list ascii) (acc : Z) (n : Z)
  : Z * Z * list ascii :=
  match l with
  | c :: l' =>
      match digit_of radix c with
      | Some d => read_digits radix l' (radix * acc + d) (n + 1)
      | None => (acc, n, l)
      end
  | [] => (acc, n, l)
  end.

(** The largest magnitude that still rounds to a finite double:
    everything from [2^1024 - 2^970] on becomes an infinity. *)
Definition overflow_bound : Q := inject_Z (2 ^ 1024 - 2 ^ 970).

Definition clamp (q : Q) : number :=
  if Qle_bool overflow_bound (Qabs q) then
    (if Qle_bool 0 q then PosInf else NegInf)
  else Fin q.

Definition read_sign (l : list ascii) : bool * list ascii :=
  match l with
  | "+"%char :: l' => (false, l')
  | "-"%char :: l' => (true, l')
  | _ => (false, l)
  end.

(** [ExponentPart], when present; [None] when the text is not a numeric
    literal. *)
Definition read_exponent (l : list ascii) : option Z :=
  match l with
  | [] => Some 0
  | c :: l' =>
      if (Ascii.eqb c "e" || Ascii.eqb c "E")%bool then
        let '(neg, l'') := read_sign l' in
        match read_digits 10 l'' 0 0 with
        | (e, n, []) => if 0 <? n then Some (if neg then - e else e) else None
        | _ => None
        end
      else None
  end.

Definition read_decimal (l : list ascii) : number :=
  let '(neg, l1) := read_sign l in
  if decide (Js.str l1 = "Infinity") then (if neg then NegInf else PosInf)
  else
    let '(ip, ni, l2) := read_digits 10 l1 0 0 in
    let '(fp, nf, l3) :=
      match l2 with
      | "."%char :: l2' => read_digits 10 l2' 0 0
      | _ => (0, 0, l2)
      end in
    if (ni + nf =? 0) then NaN
    else
      match read_exponent l3 with
      | Some e =>
          let m := (inject_Z ip + inject_Z fp / inject_Z (10 ^ nf))%Q in
          let v := (m * Qpower 10 e)%Q in
          clamp (if neg then Qopp v else v)
      | None => NaN
      end.

Definition read_radix_literal (radix : Z) (l : list ascii) : number :=
  match read_digits radix l 0 0 with
  | (v, n, []) => if 0 <? n then clamp (inject_Z v) else NaN
  | _ => NaN
  end.

Definition StringToNumber (s : string) : number :=
  match Js.trim_chars (Js.chars s) with
  | [] => Fin 0
  | "0"%char :: c :: l =>
      if (Ascii.eqb c "x" || Ascii.eqb c "X")%bool then read_radix_literal 16 l
      else if (Ascii.eqb c "o" || Ascii.eqb c "O")%bool then read_radix_literal 8 l
      else if (Ascii.eqb c "b" || Ascii.eqb c "B")%bool then read_radix_literal 2 l
      else read_decimal ("0"%char :: c :: l)
  | l => read_decimal l
  end.

(** [Number(v)] of an optional value. A number is the one read from its
    literal, an infinity beyond the doubles. An array is first converted
    to the string of its elements joined by commas: the empty array is
    the empty string, an array of two or more elements holds a comma and
    is not a numeric literal, an array of one element is the string of
    that element. *)
Fixpoint Number (v : value) : number :=
  match v with
  | JNull => Fin 0
  | JBool b => if b then Fin 1 else Fin 0
  | JNum q => clamp q
  | JStr s => StringToNumber s
  | JArr [] => Fin 0
  | JArr [x] =>
      match x with
      | JNull => Fin 0
      | JNum q => clamp q
      | JStr s => StringToNumber s
      | JArr _ => Number x
      | JBool _ | JObj _ => NaN
      end
  | JArr _ => NaN
  | JObj _ => NaN
  end.

Definition NumberOpt (v : option value) : number :=
  match v with Some w => Number w | None => NaN end.

(** [JSON.stringify] of a number that was read from the literal [q]: a
    literal of the same number, and [null] for an infinity. *)
Definition stringify_number (q : Q) : value :=
  if isFinite (clamp q) then JNum q else JNull.

(** [JSON.stringify] of a value that was read from a document. *)
Fixpoint stringify (v : value) : value :=
  match v with
  | JNum q => stringify_number q
  | JArr items => JArr (map stringify items)
  | JObj fields => JObj (map (fun kv => (kv.1, stringify kv.2)) fields)
  | JNull | JBool _ | JStr _ => v
  end.

End Json.

(** ** The arithmetic of doubles

    A finite double is the rational it denotes. [fl x] is the double
    nearest to [x], halves to the even significand (IEEE 754 binary64,
    round to nearest even): the multiple of [2^e] nearest to [x], where
    [2^e] is the spacing of the doubles at [x], a unit in the last of 53
    binary digits and [2^-1074] for the subnormal numbers. The
    operations on doubles are the exact operations followed by [fl].
    Overflow is decided where a literal is read ([Json.clamp]); the
    quotients and products of the conversion to miles are smaller in
    magnitude than the distance read. *)

Module Double.

Definition pow2 (e : Z) : Q := (2 ^ e)%Q.

(** The exponent of the leading binary digit: [floor (log2 |x|)] of a
    rational other than zero. *)
Definition ilog2 (x : Q) : Z :=
  let k := Z.log2 (Z.abs (Qnum x)) - Z.log2 (Z.pos (Qden x)) in
  if Qle_bool (pow2 k) (Qabs x) then k else k - 1.

(** The nearest integer, a half going to the even neighbour. *)
Definition round_half_even (s : Q) : Z :=
  let f := Qfloor s in
  match (s - inject_Z f ?= 1 # 2)%Q with
  | Lt => f
  | Gt => f + 1
  | Eq => if Z.even f then f else f + 1
  end.

(** The exponent of the unit in the last place at [x]. *)
Definition exponent (x : Q) : Z := Z.max (ilog2 x - 52) (-1074).

(** The nearest multiple of [2^e]. *)
Definition on_grid (e : Z) (x : Q) : Q :=
  (inject_Z (round_half_even (x / pow2 e)) * pow2 e)%Q.

Definition fl (x : Q) : Q :=
  if Qeq_bool x 0 then 0%Q else Qred (on_grid (exponent x) x).

(** [a / b] and [a * b] on doubles. *)
Definition div (a b : Q) : Q := fl (a / b).
Definition mul (a b : Q) : Q := fl (a * b).

(** The same operations as the standard library specifies them for
    binary64 ([SpecFloat], precision 53, exponents up to 1024), on the
    datum of a double; they serve as a check of [fl] on examples. *)
Definition to_spec (q : Q) : SpecFloat.spec_float :=
  SpecFloat.binary_normalize 53 1024 (Qnum q) (- Z.log2 (Z.pos (Qden q))) false.

Definition of_spec (f : SpecFloat.spec_float) : option Q :=
  match f with
  | SpecFloat.S754_zero _ => Some 0%Q
  | SpecFloat.S754_finite s m e =>
      Some (Qred ((if s then -1 else 1) * inject_Z (Z.pos m) * pow2 e))
  | _ => None
  end.

Definition spec_div (a b : Q) : option Q :=
  of_spec (SpecFloat.SFdiv 53 1024 (to_spec a) (to_spec b)).

Definition spec_mul (a b : Q) : option Q :=
  of_spec (SpecFloat.SFmul 53 1024 (to_spec a) (to_spec b)).

(** Whether the steps of the conversion of a distance to tenths of a
    mile are the same in both: the doubles read from the distance and
    from 1609.344, their quotient, its product with 10, and the quotient
    of the rounded product by 10. *)
Definition agrees_with_binary64 (meters : Q) : bool :=
  let same (x : option Q) (y : Q) :=
    match x with Some r => Qeq_bool r y | None => false end in
  let d := fl meters in
  let c := fl (1609344 # 1000) in
  let miles := div d c in
  let tenths := mul miles 10 in
  let k := inject_Z (Qfloor (tenths + (1 # 2))) in
  same (of_spec (to_spec d)) d && same (of_spec (to_spec c)) c &&
  same (spec_div d c) miles && same (spec_mul miles 10) tenths &&
  same (spec_div k 10) (div k 10).

Definition sample_distances : list Q :=
  (map (fun n => (inject_Z (Z.of_nat n) * (804672 # 10000))%Q) (seq 0 500)
   ++ [170992.8%Q; 563.2704%Q; 321868.8%Q; 0.1%Q; 1%Q; 3%Q; 1e-7%Q; 12345.678%Q;
       1e15%Q; 987654321.123%Q; 1e300%Q; 1e-300%Q; 1e-320%Q])%list.

End Double.

(** ** Dates: time values, the date-time string format, [toISOString] *)

Module JsDate.

Definition msPerDay : Z := 86400000.
Definition msPerHour : Z := 3600000.
Definition msPerMinute : Z := 60000.
Definition msPerSecond : Z := 1000.

Definition Day (t : Z) : Z := t / msPerDay.
Definition TimeWithinDay (t : Z) : Z := t mod msPerDay.

Definition is_leap (y : Z) : bool :=
  (y mod 4 =? 0) && (negb (y mod 100 =? 0) || (y mod 400 =? 0)).

Definition DaysInYear (y : Z) : Z := if is_leap y then 366 else 365.

Definition DayFromYear (y : Z) : Z :=
  365 * (y - 1970) + (y - 1969) / 4 - (y - 1901) / 100 + (y - 1601) / 400.

Definition TimeFromYear (y : Z) : Z := msPerDay * DayFromYear y.

(** The year that holds day number [d]: the largest [y] with
    [DayFromYear y <= d], found from the mean length of a year and one
    correction step. *)
Definition year_of_day (d : Z) : Z :=
  let y := 1970 + (400 * d) / 146097 in
  if d <? DayFromYear y then y - 1
  else if DayFromYear (y + 1) <=? d then y + 1
  else y.

Definition YearFromTime (t : Z) : Z := year_of_day (Day t).
Definition InLeapYear (t : Z) : bool := is_leap (YearFromTime t).
Definition DayWithinYear (t : Z) : Z := Day t - DayFromYear (YearFromTime t).

(** Days of the year before month [m] (0 = January). *)
Definition days_before_month (leap : bool) (m : Z) : Z :=
  let l := if leap then 1 else 0 in
  if m <=? 0 then 0
  else if m =? 1 then 31
  else if m =? 2 then 59 + l
  else if m =? 3 then 90 + l
  else if m =? 4 then 120 + l
  else if m =? 5 then 151 + l
  else if m =? 6 then 181 + l
  else if m =? 7 then 212 + l
  else if m =? 8 then 243 + l
  else if m =? 9 then 273 + l
  else if m =? 10 then 304 + l
  else if m =? 11 then 334 + l
  else 365 + l.

Definition month_of_day_in_year (leap : bool) (d : Z) : Z :=
  if d <? days_before_month leap 1 then 0
  else if d <? days_before_month leap 2 then 1
  else if d <? days_before_month leap 3 then 2
  else if d <? days_before_month leap 4 then 3
  else if d <? days_before_month leap 5 then 4
  else if d <? days_before_month leap 6 then 5
  else if d <? days_before_month leap 7 then 6
  else if d <? days_before_month leap 8 then 7
  else if d <? days_before_month leap 9 then 8
  else if d <? days_before_month leap 10 then 9
  else if d <? days_before_month leap 11 then 10
  else 11.

Definition MonthFromTime (t : Z) : Z :=
  month_of_day_in_year (InLeapYear t) (DayWithinYear t).

Definition DateFromTime (t : Z) : Z :=
  DayWithinYear t - days_before_month (InLeapYear t) (MonthFromTime t) + 1.

Definition HourFromTime (t : Z) : Z := (t / msPerHour) mod 24.
Definition MinFromTime (t : Z) : Z := (t / msPerMinute) mod 60.
Definition SecFromTime (t : Z) : Z := (t / msPerSecond) mod 60.
Definition msFromTime (t : Z) : Z := t mod msPerSecond.

Definition MakeTime (hour min sec ms : Z) : Z :=
  hour * msPerHour + min * msPerMinute + sec * msPerSecond + ms.

Definition MakeDay (year month date : Z) : Z :=
  let ym := year + month / 12 in
  let mn := month mod 12 in
  DayFromYear ym + days_before_month (is_leap ym) mn + date - 1.

Definition MakeDate (day time : Z) : Z := day * msPerDay + time.

(** A [Date] object holds a time value or is an invalid date ([None]). *)
Definition TimeClip (t : Z) : option Z :=
  if Z.abs t <=? 8640000000000000 then Some t else None.

Definition days_in_month (y m : Z) : Z :=
  days_before_month (is_leap y) m - days_before_month (is_leap y) (m - 1).

(** *** Decimal fields *)

Definition digit_char (d : Z) : ascii := ascii_of_N (Z.to_N (48 + d mod 10)).

(** The [k] low-order decimal digits of [n], most significant first. *)
Fixpoint digits (k : nat) (n : Z) : list ascii :=
  match k with
  | O => []
  | S k' => digit_char (n / 10 ^ Z.of_nat k') :: digits k' n
  end.

Definition digit_value (c : ascii) : option Z :=
  let n := Z.of_N (N_of_ascii c) in
  if (48 <=? n) && (n <=? 57) then Some (n - 48) else None.

(** Reads exactly [k] decimal digits. *)
Fixpoint take_digits (k : nat) (acc : Z) (l : list ascii) : option (Z * list ascii) :=
  match k with
  | O => Some (acc, l)
  | S k' =>
      match l with
      | c :: l' =>
          match digit_value c with
          | Some d => take_digits k' (10 * acc + d) l'
          | None => None
          end
      | [] => None
      end
  end.

Definition expect (c : ascii) (l : list ascii) : option (list ascii) :=
  match l with
  | c' :: l' => if Ascii.eqb c c' then Some l' else None
  | [] => None
  end.

(** *** The date-time string format

    [YYYY-MM-DDTHH:mm], optionally followed by [:ss], [.sss] and [Z]; the
    year is four digits, or a sign and six digits. Without [Z] the fields
    are local time. What [new Date] makes of any other string (the
    date-only forms, numeric offsets, fields out of range, and the
    formats an engine accepts beyond the standard) is left to the
    engine, a parameter of [new_Date] below. *)

Record fields : Type := Fields {
  f_year : Z; f_month : Z; f_day : Z;
  f_hour : Z; f_min : Z; f_sec : Z; f_ms : Z
}.

Definition parse_year (l : list ascii) : option (Z * list ascii) :=
  match l with
  | "+"%char :: l' => take_digits 6 0 l'
  | "-"%char :: l' =>
      '(y, r) ← take_digits 6 0 l';
      if y =? 0 then None else Some (- y, r)
  | _ => take_digits 4 0 l
  end.

Definition parse_seconds (l : list ascii) : option (Z * Z * list ascii) :=
  match l with
  | ":"%char :: l1 =>
      '(s, l2) ← take_digits 2 0 l1;
      match l2 with
      | "."%char :: l3 => '(ms, l4) ← take_digits 3 0 l3; Some (s, ms, l4)
      | _ => Some (s, 0, l2)
      end
  | _ => Some (0, 0, l)
  end.

(** The fields of a date-time string and whether it ends in [Z]. *)
Definition parse_fields (s : string) : option (fields * bool) :=
  '(y, l) ← parse_year (Js.chars s);
  l ← expect "-" l;
  '(mo, l) ← take_digits 2 0 l;
  l ← expect "-" l;
  '(d, l) ← take_digits 2 0 l;
  l ← expect "T" l;
  '(h, l) ← take_digits 2 0 l;
  l ← expect ":" l;
  '(mi, l) ← take_digits 2 0 l;
  '(sec, ms, l) ← parse_seconds l;
  match l with
  | [] => Some (Fields y mo d h mi sec ms, false)
  | ["Z"%char] => Some (Fields y mo d h mi sec ms, true)
  | _ => None
  end.

Definition fields_in_range (f : fields) : bool :=
  (1 <=? f_month f) && (f_month f <=? 12) &&
  (1 <=? f_day f) && (f_day f <=? days_in_month (f_year f) (f_month f)) &&
  (f_hour f <=? 23) && (f_min f <=? 59) && (f_sec f <=? 59).

Definition time_of_fields (f : fields) : Z :=
  MakeDate (MakeDay (f_year f) (f_month f - 1) (f_day f))
           (MakeTime (f_hour f) (f_min f) (f_sec f) (f_ms f)).

(** The calendar fields of a time value, the month counted from 1. *)
Definition utc_fields (t : Z) : fields :=
  Fields (YearFromTime t) (MonthFromTime t + 1) (DateFromTime t)
         (HourFromTime t) (MinFromTime t) (SecFromTime t) (msFromTime t).

(** The text of [toISOString] for a time value: the year in four digits,
    or with a sign and six digits outside 0..9999. *)
Definition iso_string (t : Z) : string :=
  let y := YearFromTime t in
  let year :=
    if (0 <=? y) && (y <=? 9999) then digits 4 y
    else ((if 0 <=? y then "+"%char else "-"%char) :: digits 6 (Z.abs y)) in
  Js.str (year ++ "-"%char :: digits 2 (MonthFromTime t + 1)
          ++ "-"%char :: digits 2 (DateFromTime t)
          ++ "T"%char :: digits 2 (HourFromTime t)
          ++ ":"%char :: digits 2 (MinFromTime t)
          ++ ":"%char :: digits 2 (SecFromTime t)
          ++ "."%char :: digits 3 (msFromTime t) ++ ["Z"%char])%list.

(** The value of a [datetime-local] input for a wall-clock time to the
    minute: [YYYY-MM-DDTHH:mm]. *)
Definition datetime_local (y mo d h mi : Z) : string :=
  Js.str (digits 4 y ++ "-"%char :: digits 2 mo ++ "-"%char :: digits 2 d
          ++ "T"%char :: digits 2 h ++ ":"%char :: digits 2 mi)%list.

(** A wall-clock time of the calendar, with a year of four digits. *)
Definition wall_clock (y mo d h mi : Z) : Prop :=
  0 <= y <= 9999 /\ 1 <= mo <= 12 /\ 1 <= d <= days_in_month y mo /\
  0 <= h <= 23 /\ 0 <= mi <= 59.

Section LocalTime.

(** The offset of local time from UTC in milliseconds, the same at every
    instant: [LocalTime t = t + LocalTZA]. *)
Variable LocalTZA : Z.

(** The time value that the engine gives to a string that is not a
    date-time string with fields in range, [None] for an invalid
    date. *)
Variable engine_parse : string -> option Z.

Definition LocalTime (t : Z) : Z := t + LocalTZA.
Definition UTC (t : Z) : Z := t - LocalTZA.

(** [new Date(s)] *)
Definition new_Date (s : string) : option Z :=
  match parse_fields s with
  | Some (f, utc) =>
      if fields_in_range f then
        TimeClip (if utc : bool then time_of_fields f else UTC (time_of_fields f))
      else engine_parse s
  | None => engine_parse s
  end.

(** [d.toISOString()]; [None] is the [RangeError] of an invalid date. *)
Definition toISOString (d : option Z) : option string := iso_string <$> d.

(** [String(n)] of an optional integer, [NaN] for an invalid date. *)
Definition number_string (n : option Z) : string :=
  match n with Some k => pretty k | None => "NaN" end.

(** [s.padStart(n, "0")] *)
Definition padStart0 (n : nat) (s : string) : string :=
  Js.str (replicate (n - String.length s) "0"%char) ++ s.

Definition getFullYear (d : option Z) : option Z := YearFromTime ∘ LocalTime <$> d.
Definition getMonth (d : option Z) : option Z := MonthFromTime ∘ LocalTime <$> d.
Definition getDate (d : option Z) : option Z := DateFromTime ∘ LocalTime <$> d.
Definition getHours (d : option Z) : option Z := HourFromTime ∘ LocalTime <$> d.
Definition getMinutes (d : option Z) : option Z := MinFromTime ∘ LocalTime <$> d.

(** [isoToLocalDatetime] of [RouteModal.tsx] *)
Definition isoToLocalDatetime (iso : string) : string :=
  let d := new_Date iso in
  let pad (n : option Z) := padStart0 2 (number_string n) in
  let yyyy := getFullYear d in
  let mm := pad ((fun m => m + 1) <$> getMonth d) in
  let dd := pad (getDate d) in
  let hh := pad (getHours d) in
  let mi := pad (getMinutes d) in
  number_string yyyy ++ "-" ++ mm ++ "-" ++ dd ++ "T" ++ hh ++ ":" ++ mi.

(** [localDatetimeToIso] of [RouteModal.tsx]; [None] when [toISOString]
    throws. *)
Definition localDatetimeToIso (local : string) : option string :=
  toISOString (new_Date local).

End LocalTime.

End JsDate.

(** ** What [fetch] gives back *)

Module Http.

(** A rejected promise carries the thrown value's [message], if any. *)
Inductive fetched (R : Type) : Type :=
  | Rejected (message : option string)
  | Responded (r : R).
Arguments Rejected {R} message.
Arguments Responded {R} r.

(** [e?.message ?? fallback] *)
Definition message_or (fallback : string) (m : option string) : string :=
  default fallback m.

End Http.

(** ** The route-miles endpoint ([app/api/route-miles/route.ts]) *)

Module RouteMiles.

Import Json Http.

(** The answer of the routing service: [resp.ok], [resp.status], the
    outcome of [resp.text()] ([None] when it rejects) and of
    [resp.json()] (the thrown message when it rejects). *)
Record osrm_response : Type := OsrmResponse {
  osrm_ok : bool;
  osrm_status : N;
  osrm_text : option string;
  osrm_json : option string + value
}.

(** [NextResponse.json(body, { status })] *)
Record reply : Type := Reply { reply_status : N; reply_body : value }.

Definition error_reply (status : N) (msg : string) : reply :=
  Reply status (JObj [("error", JStr msg)]).

(** [Math.round]: the nearest integer, halves upwards. The result is a
    double whenever the argument is one. *)
Definition Math_round (x : Q) : Q := inject_Z (Qfloor (x + (1 # 2))%Q).

Definition meters_per_mile : Q := 1609344 # 1000.

(** [const miles = meters / 1609.344;
     const rounded = Math.round(miles * 10) / 10;]
    on the double read from the literal [meters], with the double that
    the literal [1609.344] denotes. *)
Definition to_miles (meters : Q) : Q :=
  let miles := Double.div (Double.fl meters) (Double.fl meters_per_mile) in
  Double.div (Math_round (Double.mul miles 10)) 10.

(** [{ lat: Number(c?.lat), lng: Number(c?.lng) }] *)
Definition coerce (c : value) : number * number :=
  (NumberOpt (get (Some c) "lat"), NumberOpt (get (Some c) "lng")).

Definition finite_pair (c : number * number) : bool :=
  isFinite (fst c) && isFinite (snd c).


(** The validation of the request by [POST]: the reply that rejects it,
    or the coordinates that go to the routing service. The request body
    is [None] when [req.json()] rejects, which the handler replaces by the
    empty object. *)
Definition validate (request : option value) : reply + list (number * number) :=
  let body := default (JObj []) request in
  match get (Some body) "coords" with
  | Some (JArr coordsRaw) =>
      if (length coordsRaw <? 2)%nat then
        inl (error_reply 400 "coords[] (length >= 2) is required")
      else
        let coords := filter (fun c => finite_pair c = true) (map coerce coordsRaw) in
        if (length coords <? 2)%nat then
          inl (error_reply 400 "coords[] must contain valid lat/lng values")
        else inr coords
  | _ => inl (error_reply 400 "coords[] (length >= 2) is required")
  end.

(** The distance read from the body of the routing service:
    [json?.routes?.[0]?.distance]. *)
Definition distance_of (json : value) : option value :=
  get (get0 (get (Some json) "routes")) "distance".


Section Endpoint.

(** [`${x}`] of a number, and the routing service as a function of the
    requested URL. *)
Variable number_to_string : number -> string.
Variable osrm : string -> fetched osrm_response.

Definition path_of (coords : list (number * number)) : string :=
  Js.join ";" (map (fun c => number_to_string (snd c) ++ "," ++ number_to_string (fst c)) coords).

Definition url_of (coords : list (number * number)) : string :=
  "https://router.project-osrm.org/route/v1/driving/" ++ path_of coords ++ "?overview=false".

(** The part of [POST] after the validation of the request. A distance
    beyond the doubles is read as an infinity, which [typeof] counts as
    a number; its miles are infinite and [NextResponse.json] writes them
    as [null]. *)
Definition route (coords : list (number * number)) : reply :=
  match osrm (url_of coords) with
  | Rejected m => error_reply 500 (message_or "Server error" m)
  | Responded resp =>
      if negb (osrm_ok resp) then
        let text := default "" (osrm_text resp) in
        error_reply 502
          ("OSRM failed (" ++ pretty (osrm_status resp) ++ "): " ++ Js.slice text 0 (Some 200))
      else
        match osrm_json resp with
        | inl m => error_reply 500 (message_or "Server error" m)
        | inr json =>
            let meters := distance_of json in
            match meters with
            | Some (JNum m) =>
                if isFinite (clamp m) then Reply 200 (JObj [("miles", JNum (to_miles m))])
                else Reply 200 (JObj [("miles", JNull)])
            | _ => error_reply 502 "OSRM did not return a distance"
            end
        end
  end.

(** [POST] *)
Definition POST (request : option value) : reply :=
  match validate request with
  | inl rejection => rejection
  | inr coords => route coords
  end.

End Endpoint.

End RouteMiles.

(** ** The route assembler ([confirm] of [RouteModal.tsx]) *)

Module RouteModal.

Import Http Postcode.

Record DraftStop : Type := {
  postcode : string;
  name : option string;
  planned_time : option string
}.

Record RouteStopFinal : Type := {
  stop_order : Z;
  stop_postcode : string;
  stop_name : option string;
  stop_planned_time : option string;
  lat : option Q;
  lng : option Q
}.

(** A coordinate of the route-miles request. *)
Record LatLng : Type := { c_lat : Q; c_lng : Q }.

(** The result of the geocoder for one key, as far as [confirm] reads
    it: [hit.lat] and [hit.lng], each [None] when the property is absent
    or null. The geocode endpoint writes
    [{ lat: r.latitude, lng: r.longitude }] whatever the upstream result
    holds, so a result may lack either number. A number is given by its
    literal. *)
Record GeoHit : Type := { hit_lat : option Q; hit_lng : option Q }.

(** The body of the two answers, as far as [confirm] reads them. An
    absent or falsy field is [None]; [miles_value] is [None] unless
    [typeof milesJson.miles === "number"]. *)
Record GeoJson : Type := {
  geo_error : option string;
  geo_results : option (gmap string (option GeoHit))
}.

Record MilesJson : Type := {
  miles_error : option string;
  miles_value : option Q
}.

(** A response: [ok], [status] and the outcome of [json()], [None] when
    it rejects (the source then continues with the empty object). *)
Record response (A : Type) : Type := Response {
  ok : bool;
  status : N;
  json : option A
}.
Arguments Response {A} ok status json.
Arguments ok {A} r.
Arguments status {A} r.
Arguments json {A} r.

(** The network calls a submission makes, in the order it makes them. *)
Inductive call : Type :=
  | GeocodeCall (postcodes : list string)
  | RouteMilesCall (coords : list LatLng).

(** What the user sees at the end: the error string, or the payload
    handed to [onConfirm]. *)
Inductive outcome : Type :=
  | ErrorShown (message : string)
  | Confirmed (stops : list RouteStopFinal) (totalMiles : option Q).

(** Computations that may throw and that log their network calls. *)
Definition action (A : Type) : Type :=
  list call -> (option string + A) * list call.

Definition ret {A} (x : A) : action A := fun log => (inr x, log).
Definition throw {A} (msg : string) : action A := fun log => (inl (Some msg), log).
Definition bind {A B} (m : action A) (k : A -> action B) : action B :=
  fun log =>
    match m log with
    | (inl e, log') => (inl e, log')
    | (inr x, log') => k x log'
    end.

Notation "'let!' x ':=' m 'in' k" := (bind m (fun x => k))
  (at level 10, x name, m at level 100, k at level 200, only parsing).

(** [await fetch(...)]: the call is logged, a rejection is thrown. *)
Definition await {R} (c : call) (answer : fetched R) : action R :=
  fun log =>
    match answer with
    | Rejected m => (inl m, (log ++ [c])%list)
    | Responded r => (inr r, (log ++ [c])%list)
    end.

Definition lift {A} (r : option string + A) : action A := fun log => (r, log).

(** A truthy optional string: present and not empty. *)
Definition truthy_field (e : option string) : option string :=
  match e with
  | Some s => if Js.truthy s then Some s else None
  | None => None
  end.

(** [map[pc]], with [undefined] and [null] both read as [None]. *)
Definition lookup_coord (m : gmap string (option GeoHit)) (pc : string) : option GeoHit :=
  mjoin (m !! pc).

(** The coordinate that the results hold for a key: the two numbers of
    its result, when it has both. *)
Definition coordinate (m : gmap string (option GeoHit)) (pc : string) : option LatLng :=
  hit ← lookup_coord m pc;
  a ← hit_lat hit;
  b ← hit_lng hit;
  Some {| c_lat := a; c_lng := b |}.

(** [allDraft.map((x) => normKey(x.postcode)).filter(Boolean)] *)
Definition submitted_postcodes (allDraft : list DraftStop) : list string :=
  filter (fun pc => Js.truthy pc = true) (map (fun x => normKey (postcode x)) allDraft).


(** The planned time of a draft is blank, or a date-time that
    [new Date] reads. *)
Definition time_readable (LocalTZA : Z) (engine_parse : string -> option Z) (d : DraftStop)
  : Prop :=
  let localTime := Js.trim (default "" (planned_time d)) in
  localTime = "" \/ is_Some (JsDate.localDatetimeToIso LocalTZA engine_parse localTime).

(** A final stop with a latitude and a longitude. *)
Definition stop_has_coords (s : RouteStopFinal) : Prop :=
  is_Some (lat s) /\ is_Some (lng s).

(** [finalStops.map((s) => ({ lat: s.lat as number, lng: s.lng as number }))];
    it runs after the safety check, when every stop has both
    coordinates, so no stop is left out. *)
Definition coords_of (stops : list RouteStopFinal) : list LatLng :=
  omap (fun s => match lat s, lng s with
                 | Some a, Some b => Some {| c_lat := a; c_lng := b |}
                 | _, _ => None
                 end) stops.

(** The batches of the geocoding calls of a log. *)
Definition geocode_batches (log : list call) : list (list string) :=
  omap (fun c => match c with GeocodeCall b => Some b | _ => None end) log.

Section Confirm.

(** The offset of local time and the engine's reading of other date
    strings (see [JsDate.new_Date]); the message of the [RangeError]
    that [toISOString] throws for an invalid date, in V8
    [Invalid time value]. *)
Variable LocalTZA : Z.
Variable engine_parse : string -> option Z.
Variable range_error_message : string.
Variable geocode_service : list string -> fetched (response GeoJson).
Variable route_miles_service : list LatLng -> fetched (response MilesJson).

(** The callback of [allDraft.map] that builds one final stop; the
    conversion of the planned time may throw. *)
Definition final_stop (m : gmap string (option GeoHit)) (idx : Z) (s : DraftStop)
  : option string + RouteStopFinal :=
  let pcPretty := formatUKPostcode (postcode s) in
  let key := normKey pcPretty in
  let hit := lookup_coord m key in
  let localTime := Js.trim (default "" (planned_time s)) in
  let isoTime :=
    if Js.truthy localTime then
      match JsDate.localDatetimeToIso LocalTZA engine_parse localTime with
      | Some iso => inr (Some iso)
      | None => inl (Some range_error_message)
      end
    else inr None in
  match isoTime with
  | inl e => inl e
  | inr t =>
      inr {| stop_order := idx + 1;
             stop_postcode := pcPretty;
             stop_name := name s;
             stop_planned_time := t;
             lat := hit ≫= hit_lat;
             lng := hit ≫= hit_lng |}
  end.

Fixpoint final_stops (m : gmap string (option GeoHit)) (idx : Z) (l : list DraftStop)
  : option string + list RouteStopFinal :=
  match l with
  | [] => inr []
  | s :: rest =>
      match final_stop m idx s with
      | inl e => inl e
      | inr stop =>
          match final_stops m (idx + 1) rest with
          | inl e => inl e
          | inr stops => inr (stop :: stops)
          end
      end
  end.

(** [v == null] *)
Definition is_null {A} (v : option A) : bool :=
  match v with Some _ => false | None => true end.

Definition build_error (missing : list string) : string :=
  "Postcode(s) not found: " ++ Js.join ", " (map formatUKPostcode missing).

(** The body of the [try] block of [confirm]. *)
Definition confirm_try (allDraft : list DraftStop)
  : action (list RouteStopFinal * option Q) :=
  let postcodes := submitted_postcodes allDraft in
  if (length postcodes <? 2)%nat then
    throw "Please enter at least collection and delivery postcodes."
  else
    (* 1) Geocode *)
    let! geoResp := await (GeocodeCall postcodes) (geocode_service postcodes) in
    let geoJson := json geoResp in
    if negb (ok geoResp) then
      throw (match truthy_field (geoJson ≫= geo_error) with
             | Some e => "Geocoding failed: " ++ e
             | None => "Geocoding failed (HTTP " ++ pretty (status geoResp) ++ ")"
             end)
    else
      let m := default ∅ (geoJson ≫= geo_results) in
      let missing := filter (fun pc => is_null (lookup_coord m pc) = true) postcodes in
      if negb (length missing =? 0)%nat then throw (build_error missing)
      else
        (* 2) Build final stops *)
        let! finalStops := lift (final_stops m 0 allDraft) in
        (* Safety: no null coords *)
        match List.find (fun s => is_null (lat s) || is_null (lng s)) finalStops with
        | Some bad => throw ("Missing coordinates for: " ++ stop_postcode bad)
        | None =>
            (* 3) Road miles *)
            let coords := coords_of finalStops in
            let! milesResp := await (RouteMilesCall coords) (route_miles_service coords) in
            let milesJson := json milesResp in
            if negb (ok milesResp) then
              throw (match truthy_field (milesJson ≫= miles_error) with
                     | Some e => "Road distance failed: " ++ e
                     | None => "Road distance failed"
                     end)
            else
              let totalMiles := milesJson ≫= miles_value in
              ret (finalStops, totalMiles)
        end.

(** [confirm]: the [try] block run on an empty log, and its [catch]. *)
Definition confirm (allDraft : list DraftStop) : outcome * list call :=
  match confirm_try allDraft [] with
  | (inr (stops, totalMiles), log) => (Confirmed stops totalMiles, log)
  | (inl e, log) => (ErrorShown (message_or "Failed to confirm route." e), log)
  end.

End Confirm.

End RouteModal.

(** ** [confirm] served by the route-miles endpoint *)

Module Served.

Import Json Http.

(** The request body [JSON.stringify({ coords })], as the endpoint parses
    it: a coordinate that [confirm] read as an infinity is written as
    [null]. *)
Definition coords_body (coords : list RouteModal.LatLng) : value :=
  JObj [("coords",
         JArr (map (fun c => JObj [("lat", stringify_number (RouteModal.c_lat c));
                                   ("lng", stringify_number (RouteModal.c_lng c))]) coords))].


(** The reply of the endpoint, as [confirm] reads it; the endpoint
    writes [miles] as a finite number or as [null]. *)
Definition read_reply (r : RouteMiles.reply) : RouteModal.response RouteModal.MilesJson :=
  let st := RouteMiles.reply_status r in
  let body := Some (RouteMiles.reply_body r) in
  RouteModal.Response
    ((200 <=? st)%N && (st <=? 299)%N) st
    (Some {| RouteModal.miles_error :=
               match get body "error" with Some (JStr e) => Some e | _ => None end;
             RouteModal.miles_value :=
               match get body "miles" with Some (JNum q) => Some q | _ => None end |}).

Definition route_miles_service
    (number_to_string : number -> string)
    (osrm : string -> fetched RouteMiles.osrm_response)
    (coords : list RouteModal.LatLng)
  : fetched (RouteModal.response RouteModal.MilesJson) :=
  Responded (read_reply (RouteMiles.POST number_to_string osrm (Some (coords_body coords)))).

End Served.

(** ** Weekly driver pay ([manage/driver-pay/page.tsx]) *)

Module DriverPay.

Inductive PayType : Type := hourly | shift.
Inductive DayStatus : Type := work | leave | off | sick.

#[export] Instance PayType_eq_dec : EqDecision PayType.
Proof. solve_decision. Defined.
#[export] Instance DayStatus_eq_dec : EqDecision DayStatus.
Proof. solve_decision. Defined.

(** [pay_rate], [shifts] and [hours] may be null in the store; the code
    supplies a default with [??]. *)
Record DriverRow : Type := {
  id : string;
  full_name : string;
  pay_type : PayType;
  pay_rate : option Q
}.

Record DayEntry : Type := {
  entry_id : string;
  driver_id : string;
  entry_date : string;
  status : DayStatus;
  shifts : option Q;
  hours : option Q;
  notes : option string
}.

Record CompletedJobDay : Type := {
  job_driver_id : string;
  job_entry_date : string;
  job_owner_id : string
}.

(** [isProtectedStatus] *)
Definition isProtectedStatus (s : DayStatus) : bool :=
  bool_decide (s = leave) || bool_decide (s = off) || bool_decide (s = sick).

(** The key of [entriesByDriverDate]: [`${driver_id}__${entry_date}`] *)
Definition entry_key (driver date : string) : string := driver ++ "__" ++ date.

Definition key_of (e : DayEntry) : string := entry_key (driver_id e) (entry_date e).

(** [entriesByDriverDate]: a [Map] filled by [map.set] in the order of
    [entries]. *)
Definition entriesByDriverDate (entries : list DayEntry) : gmap string DayEntry :=
  foldl (fun m e => <[key_of e := e]> m) ∅ entries.

Definition getEntry (entries : list DayEntry) (driver date : string) : option DayEntry :=
  entriesByDriverDate entries !! entry_key driver date.

(** *** Pay calculator *)

Record WeekPay : Type := {
  workUnits : Q;
  leaveUnits : Q;
  unpaidUnits : Q;
  hoursWork : Q;
  hoursLeave : Q;
  hoursUnpaid : Q;
  amount : Q
}.

(** The six running totals of the loop of [computeDriverWeek]. *)
Record totals : Type := Totals {
  t_workUnits : Q;
  t_leaveUnits : Q;
  t_unpaidUnits : Q;
  t_hoursWork : Q;
  t_hoursLeave : Q;
  t_hoursUnpaid : Q
}.

(** One iteration of [for (const day of weekDates)]. *)
Definition week_step (entries : list DayEntry) (d : DriverRow) (acc : totals) (day : string)
  : totals :=
  match getEntry entries (id d) day with
  | None => acc
  | Some entry =>
      let 'Totals wu lu uu hw hl hu := acc in
      match status entry with
      | work =>
          if decide (pay_type d = shift)
          then Totals (wu + default 1 (shifts entry)) lu uu hw hl hu
          else Totals wu lu uu (hw + default 0 (hours entry)) hl hu
      | leave =>
          if decide (pay_type d = shift)
          then Totals wu (lu + default 1 (shifts entry)) uu hw hl hu
          else Totals wu lu uu hw (hl + default 0 (hours entry)) hu
      | _ =>
          if decide (pay_type d = shift)
          then Totals wu lu (uu + 1) hw hl hu
          else Totals wu lu uu hw hl (hu + default 0 (hours entry))
      end
  end%Q.

Definition computeDriverWeek (entries : list DayEntry) (weekDates : list string) (d : DriverRow)
  : WeekPay :=
  let 'Totals wu lu uu hw hl hu :=
    foldl (week_step entries d) (Totals 0 0 0 0 0 0) weekDates in
  let amount :=
    if decide (pay_type d = shift)
    then ((wu + lu) * default 0 (pay_rate d))%Q
    else ((hw + hl) * default 0 (pay_rate d))%Q in
  {| workUnits := wu; leaveUnits := lu; unpaidUnits := uu;
     hoursWork := hw; hoursLeave := hl; hoursUnpaid := hu; amount := amount |}.

(** The days of the week on which the driver has an entry whose status
    satisfies [p], counted. *)
Definition has_status (entries : list DayEntry) (d : DriverRow) (p : DayStatus -> bool)
    (day : string) : bool :=
  match getEntry entries (id d) day with
  | Some entry => p (status entry)
  | None => false
  end.

Definition days_with (entries : list DayEntry) (d : DriverRow) (p : DayStatus -> bool)
    (weekDates : list string) : Q :=
  inject_Z (Z.of_nat (length (List.filter (has_status entries d p) weekDates))).

(** The shifts of the days of the week on which the driver has an entry
    whose status satisfies [p], summed: the [shifts] value of each such
    entry, and one for an entry that records none ([entry.shifts ?? 1]). *)
Definition shifts_with (entries : list DayEntry) (d : DriverRow) (p : DayStatus -> bool)
    (weekDates : list string) : Q :=
  foldr (fun day acc =>
           match getEntry entries (id d) day with
           | Some entry => if p (status entry) then (default 1 (shifts entry) + acc)%Q else acc
           | None => acc
           end) 0%Q weekDates.

Definition is_work (s : DayStatus) : bool := bool_decide (s = work).
Definition is_leave (s : DayStatus) : bool := bool_decide (s = leave).
Definition is_unpaid (s : DayStatus) : bool := bool_decide (s = off) || bool_decide (s = sick).

(** A paid day (work or leave) of the driver records one shift, or
    none at all. *)
Definition one_shift_recorded (entries : list DayEntry) (d : DriverRow) (day : string) : Prop :=
  forall entry,
    getEntry entries (id d) day = Some entry ->
    status entry = work \/ status entry = leave ->
    (default 1 (shifts entry) == 1)%Q.

(** *** The day entry store

    The table [driver_day_entries], one row for each
    [(owner_id, driver_id, entry_date)], the conflict target of every
    upsert. *)

Record stored : Type := Stored {
  st_id : string;
  st_status : DayStatus;
  st_shifts : option Q;
  st_hours : option Q;
  st_notes : option string
}.

Record payload : Type := {
  p_owner_id : string;
  p_driver_id : string;
  p_entry_date : string;
  p_status : DayStatus;
  p_shifts : option Q;
  p_hours : option Q;
  p_notes : option string
}.

Definition row_key : Type := string * string * string.

Definition to_entry (row : row_key * stored) : DayEntry :=
  let '((_, driver, date), v) := row in
  {| entry_id := st_id v; driver_id := driver; entry_date := date;
     status := st_status v; shifts := st_shifts v; hours := st_hours v;
     notes := st_notes v |}.

(** The outcome of [supabase.auth.getUser()]. *)
Inductive auth : Type :=
  | AuthError (message : option string)
  | NoUser
  | User (user_id : string).

(** The page: the table, the [entries] state last loaded from it, and
    the error shown. The state is not tied to the table: between a change
    of [weekStart] and the end of the [load] it starts, [entries] still
    holds the rows of the week shown before, and after a failed [load] it
    is empty; [syncFromCompletedJobs] reads it as it is. *)
Record page : Type := Page {
  table : gmap row_key stored;
  entries : list DayEntry;
  error : option string
}.

(** [load] on its failing path: a query fails, the [catch] empties the
    lists of the page and shows the error. The table is as it was. *)
Definition load_failed (m : option string) (t : gmap row_key stored) : page :=
  Page t [] (Some (Http.message_or "Failed to load weekly pay." m)).

(** The payload of the upsert of [syncFromCompletedJobs]. *)
Definition auto_payload (user_id : string) (r : CompletedJobDay) : payload :=
  {| p_owner_id := user_id;
     p_driver_id := job_driver_id r;
     p_entry_date := job_entry_date r;
     p_status := work;
     p_shifts := Some 1%Q;
     p_hours := None;
     p_notes := Some "Auto: from completed job" |}.

Section Store.

(** Whether a date lies between [weekStart] and [weekEnd], as the two
    range filters [gte] and [lte] of the queries decide it; the id the
    store gives to a new row. *)
Variable in_week : string -> bool.
Variable new_id : gmap row_key stored -> string.

(** [upsert(payload, { onConflict: "owner_id,driver_id,entry_date" })]:
    the columns of the payload replace those of the row in conflict, a
    row without conflict is inserted. *)
Definition upsert (p : payload) (t : gmap row_key stored) : gmap row_key stored :=
  let k := (p_owner_id p, p_driver_id p, p_entry_date p) in
  let row_id := match t !! k with Some old => st_id old | None => new_id t end in
  <[k := Stored row_id (p_status p) (p_shifts p) (p_hours p) (p_notes p)]> t.

(** The day entries read by [load]: the rows of the week. *)
Definition load_entries (t : gmap row_key stored) : list DayEntry :=
  filter (fun e => in_week (entry_date e) = true) (to_entry <$> map_to_list t).

(** [load] on its successful path. *)
Definition load (t : gmap row_key stored) : page := Page t (load_entries t) None.

(** [existing?.notes?.trim().toLowerCase().startsWith("manual:")] *)
Definition is_manual (existing : option DayEntry) : bool :=
  match existing ≫= notes with
  | Some n => Js.startsWith (Js.toLowerCase (Js.trim n)) "manual:"
  | None => false
  end.

(** One iteration of [for (const r of list)] of
    [syncFromCompletedJobs]; [snapshot] is [entriesByDriverDate]. *)
Definition sync_step (user_id : string) (snapshot : gmap string DayEntry)
    (t : gmap row_key stored) (r : CompletedJobDay) : gmap row_key stored :=
  if negb (Js.truthy (job_driver_id r)) || negb (Js.truthy (job_entry_date r)) then t
  else
    let key := entry_key (job_driver_id r) (job_entry_date r) in
    let existing := snapshot !! key in
    (* don't overwrite protected statuses *)
    if match existing with Some e => isProtectedStatus (status e) | None => false end then t
    (* don't overwrite manual work *)
    else if is_manual existing then t
    (* if already work, do nothing *)
    else if bool_decide (status <$> existing = Some work) then t
    else
      upsert (auto_payload user_id r) t.

(** The rows of [v_driver_completed_job_days] that the query selects,
    in the order of the view. *)
Definition selected (user_id : string) (view : list CompletedJobDay) : list CompletedJobDay :=
  filter (fun r => job_owner_id r = user_id ∧ in_week (job_entry_date r) = true) view.

(** [syncFromCompletedJobs]: the store accepts every read and upsert. *)
Definition syncFromCompletedJobs (who : auth) (view : list CompletedJobDay) (pg : page) : page :=
  match who with
  | AuthError m =>
      Page (table pg) (entries pg)
           (Some (Http.message_or "Failed to sync from completed jobs." m))
  | NoUser =>
      Page (table pg) (entries pg) (Some "Auth session missing. Please log in again.")
  | User user_id =>
      let snapshot := entriesByDriverDate (entries pg) in
      load (foldl (sync_step user_id snapshot) (table pg) (selected user_id view))
  end.

End Store.

End DriverPay.

(** ** A worked scenario

    The end-to-end scenario of the specification: collection, one stop,
    and a delivery at the collection postcode; a geocoder that knows both
    postcodes; a routing service that finds a route, and one that does
    not. *)

Module Scenario.

Import Json Http RouteModal.

Fixpoint fraction_digits (fuel : nat) (r den : Z) : list ascii :=
  match fuel with
  | O => []
  | S fuel' =>
      if r =? 0 then []
      else JsDate.digit_char ((10 * r) / den) :: fraction_digits fuel' ((10 * r) mod den) den
  end.

(** A decimal printer for numbers: the integer part, then the digits of
    the fraction, as JavaScript prints a short decimal. *)
Definition show_number (x : number) : string :=
  match x with
  | Fin q =>
      let n := Z.abs (Qnum q) in
      let d := Z.pos (Qden q) in
      (if Qnum q <? 0 then "-" else "") ++ pretty (n / d) ++
      (if n mod d =? 0 then "" else "." ++ Js.str (fraction_digits 17 (n mod d) d))
  | NaN => "NaN"
  | PosInf => "Infinity"
  | NegInf => "-Infinity"
  end.

(** An engine that reads the date-time format only, with the message
    of V8 for an invalid date. *)
Definition strict_parse (s : string) : option Z := None.
Definition invalid_time : string := "Invalid time value".

Definition draft (pc : string) (label : string) : DraftStop :=
  {| postcode := pc; name := Some label; planned_time := None |}.

Definition drafts : list DraftStop :=
  [draft "wn5 0lr" "Collection"; draft "WS138NF" "Stop"; draft "wn50lr" "Delivery"].

Definition known : gmap string (option GeoHit) :=
  <["WN50LR" := Some {| hit_lat := Some 53.5%Q; hit_lng := Some (-2.7)%Q |}]>
    (<["WS138NF" := Some {| hit_lat := Some 52.7%Q; hit_lng := Some (-1.8)%Q |}]> ∅).

Definition geocoder (postcodes : list string) : fetched (response GeoJson) :=
  Responded (Response true 200 (Some {| geo_error := None; geo_results := Some known |})).

Definition osrm_json : value :=
  JObj [("code", JStr "Ok"); ("routes", JArr [JObj [("distance", JNum 321868.8%Q)]])].

Definition osrm_route (url : string) : fetched RouteMiles.osrm_response :=
  Responded (RouteMiles.OsrmResponse true 200 None (inr osrm_json)).

(** A routing service that answers with the distance of the literal. *)
Definition osrm_answering (meters : Q) (url : string) : fetched RouteMiles.osrm_response :=
  Responded (RouteMiles.OsrmResponse true 200 None
    (inr (JObj [("code", JStr "Ok"); ("routes", JArr [JObj [("distance", JNum meters)]])]))).

Definition osrm_no_route (url : string) : fetched RouteMiles.osrm_response :=
  Responded (RouteMiles.OsrmResponse false 400 (Some "NoRoute") (inl None)).

(** Two of three postcodes unknown to the geocoder. *)
Definition drafts_unknown : list DraftStop :=
  [draft "wn5 0lr" "Collection"; draft "xx1 1xx" "Stop"; draft "yy22yy" "Delivery"].

Definition geo_body : GeoJson := {| geo_error := None; geo_results := Some known |}.

(** A geocoder whose results for the two other postcodes are objects
    without numbers, as the geocode endpoint writes them for an upstream
    result that holds no latitude and no longitude. *)
Definition known_partial : gmap string (option GeoHit) :=
  <["XX11XX" := Some {| hit_lat := None; hit_lng := None |}]>
    (<["YY22YY" := Some {| hit_lat := None; hit_lng := None |}]> known).

Definition geo_body_partial : GeoJson :=
  {| geo_error := None; geo_results := Some known_partial |}.

Definition geocoder_partial (postcodes : list string) : fetched (response GeoJson) :=
  Responded (Response true 200 (Some geo_body_partial)).

Definition route_miles_ok : list LatLng -> fetched (response MilesJson) :=
  Served.route_miles_service show_number osrm_route.


(** Requests to the route-miles endpoint: two good entries; an entry of
    nulls before a good one; a mix of entries. *)
Definition entry (lat lng : value) : value := JObj [("lat", lat); ("lng", lng)].

Definition request_good : value :=
  JObj [("coords", JArr [entry (JNum 53.5%Q) (JNum (-2.7)%Q);
                         entry (JNum 52.7%Q) (JNum (-1.8)%Q)])].






(** The week of the specification for a shift driver paid 100 a day:
    work on Monday and Tuesday, leave on Wednesday, off on Thursday, sick
    on Friday, with assorted recorded hours. *)
Definition week : list string :=
  ["2025-01-06"; "2025-01-07"; "2025-01-08"; "2025-01-09"; "2025-01-10";
   "2025-01-11"; "2025-01-12"].

Definition driver : DriverPay.DriverRow :=
  {| DriverPay.id := "d1"; DriverPay.full_name := "Driver One";
     DriverPay.pay_type := DriverPay.shift; DriverPay.pay_rate := Some 100%Q |}.

Definition day_entry (date : string) (st : DriverPay.DayStatus)
    (shifts hours : option Q) : DriverPay.DayEntry :=
  {| DriverPay.entry_id := "e-" ++ date; DriverPay.driver_id := "d1";
     DriverPay.entry_date := date; DriverPay.status := st;
     DriverPay.shifts := shifts; DriverPay.hours := hours; DriverPay.notes := None |}.

Definition week_entries : list DriverPay.DayEntry :=
  [day_entry "2025-01-06" DriverPay.work (Some 1%Q) (Some 12%Q);
   day_entry "2025-01-07" DriverPay.work None None;
   day_entry "2025-01-08" DriverPay.leave (Some 1%Q) (Some 8%Q);
   day_entry "2025-01-09" DriverPay.off (Some 0%Q) (Some 3%Q);
   day_entry "2025-01-10" DriverPay.sick (Some 0%Q) None].

(** A week of the store: a leave day and a manual work day of driver
    [d1], and completed jobs of that driver on three days of the week. *)
Definition in_week (date : string) : bool :=
  String.leb "2025-01-06" date && String.leb date "2025-01-12".

(** The week before, shown until [prevWeek] or [nextWeek] is followed
    by the end of [load]. *)
Definition week_before (date : string) : bool :=
  String.leb "2024-12-30" date && String.leb date "2025-01-05".

Definition new_id (t : gmap DriverPay.row_key DriverPay.stored) : string :=
  "row-" ++ pretty (size t).

Definition leave_row : DriverPay.stored :=
  DriverPay.Stored "r1" DriverPay.leave (Some 1%Q) (Some 8%Q) (Some "Manual: Annual leave").

Definition manual_row : DriverPay.stored :=
  DriverPay.Stored "r2" DriverPay.work (Some 1%Q) None (Some "Manual: Work (Standby)").

Definition store : gmap DriverPay.row_key DriverPay.stored :=
  <[("u1", "d1", "2025-01-08") := leave_row]>
    (<[("u1", "d1", "2025-01-07") := manual_row]> ∅).

Definition completed (date : string) : DriverPay.CompletedJobDay :=
  {| DriverPay.job_driver_id := "d1"; DriverPay.job_entry_date := date;
     DriverPay.job_owner_id := "u1" |}.

Definition view : list DriverPay.CompletedJobDay :=
  [completed "2025-01-06"; completed "2025-01-07"; completed "2025-01-08"].

(** A work day stored with no shift. *)
Definition entries_no_shift : list DriverPay.DayEntry :=
  [day_entry "2025-01-06" DriverPay.work (Some 0%Q) (Some 8%Q)].

End Scenario.

(** ** The stop list of the route form ([RouteModal.tsx]) *)

Module RouteEdit.

Import Postcode RouteModal.

(** The state of the form: the collection, the stops in between, the
    delivery. *)
Record form : Type := Form {
  collection : DraftStop;
  stops : list DraftStop;
  delivery : DraftStop
}.

(** [[collection, ...stops, delivery]] *)
Definition allDraft (f : form) : list DraftStop :=
  collection f :: (stops f ++ [delivery f])%list.

Definition with_postcode (x : DraftStop) (pc : string) : DraftStop :=
  {| postcode := pc; name := name x; planned_time := planned_time x |}.

Definition with_planned_time (x : DraftStop) (t : string) : DraftStop :=
  {| postcode := postcode x; name := name x; planned_time := Some t |}.

(** [arr.map((x, idx) => (idx === i ? f(x) : x))] *)
Definition map_at {A} (i : nat) (f : A -> A) (arr : list A) : list A :=
  imap (fun idx x => if (idx =? i)%nat then f x else x) arr.

(** [s.filter((_, idx) => idx !== i)] *)
Fixpoint filter_index {A} (keep : nat -> bool) (idx : nat) (s : list A) : list A :=
  match s with
  | [] => []
  | x :: s' =>
      if keep idx then x :: filter_index keep (S idx) s'
      else filter_index keep (S idx) s'
  end.

Definition addStop (s : list DraftStop) : list DraftStop :=
  (s ++ [{| postcode := ""; name := Some "Stop"; planned_time := Some "" |}])%list.

Definition removeStop (i : nat) (s : list DraftStop) : list DraftStop :=
  filter_index (fun idx => negb (idx =? i)%nat) 0 s.

Definition updateStopPostcode (i : nat) (value : string) (s : list DraftStop)
  : list DraftStop :=
  map_at i (fun x => with_postcode x (Js.toUpperCase value)) s.

Definition blurStopPostcode (i : nat) (s : list DraftStop) : list DraftStop :=
  map_at i (fun x => with_postcode x (formatUKPostcode (postcode x))) s.

Definition updateStopTime (i : nat) (value : string) (s : list DraftStop)
  : list DraftStop :=
  map_at i (fun x => with_planned_time x value) s.

(** The handlers of the collection and delivery postcode fields. *)
Definition changePostcode (x : DraftStop) (value : string) : DraftStop :=
  with_postcode x (Js.toUpperCase value).

Definition blurPostcode (x : DraftStop) : DraftStop :=
  with_postcode x (formatUKPostcode (postcode x)).

(** [[...initialStops].sort((a, b) => a.stop_order - b.stop_order)]: the
    sort is stable, so its result is the one of insertion from the right
    that puts an element before the first one it does not exceed. *)
Fixpoint insert_by_order (a : RouteStopFinal) (l : list RouteStopFinal)
  : list RouteStopFinal :=
  match l with
  | [] => [a]
  | b :: l' =>
      if stop_order a - stop_order b <=? 0 then a :: l
      else b :: insert_by_order a l'
  end.

Definition sort_by_order (l : list RouteStopFinal) : list RouteStopFinal :=
  foldr insert_by_order [] l.

(** [arr.slice(start, end)] on a list, as [Js.slice_chars] on
    characters. *)
Definition slice_list {A} (l : list A) (start stop : Z) : list A :=
  let len := Z.of_nat (length l) in
  let from := Js.rel_index len start in
  let to := Js.rel_index len stop in
  take (Z.to_nat (to - from)) (drop (Z.to_nat from) l).

Section Prefill.

Variable LocalTZA : Z.
Variable engine_parse : string -> option Z.

(** One draft of the prefill: the stored postcode, the stored name or
    the label of the position, the planned time converted to the value of
    a [datetime-local] input when there is one. *)
Definition prefill_stop (label : string) (s : RouteStopFinal) : DraftStop :=
  {| postcode := stop_postcode s;
     name := Some (default label (stop_name s));
     planned_time :=
       Some (match truthy_field (stop_planned_time s) with
             | Some iso => JsDate.isoToLocalDatetime LocalTZA engine_parse iso
             | None => ""
             end) |}.

Definition blank_form : form :=
  Form {| postcode := ""; name := Some "Collection"; planned_time := Some "" |}
       []
       {| postcode := ""; name := Some "Delivery"; planned_time := Some "" |}.

(** The effect that fills the form when the modal opens. *)
Definition prefill (initialStops : option (list RouteStopFinal)) : form :=
  match initialStops with
  | Some initial =>
      if (2 <=? length initial)%nat then
        let sorted := sort_by_order initial in
        match sorted !! 0%nat, sorted !! (length sorted - 1)%nat with
        | Some first, Some last =>
            Form (prefill_stop "Collection" first)
                 (map (prefill_stop "Stop") (slice_list sorted 1 (-1)))
                 (prefill_stop "Delivery" last)
        | _, _ => blank_form
        end
      else blank_form
  | None => blank_form
  end.

End Prefill.

(** The planned time of a draft as the form holds it: blank, or the
    value of a [datetime-local] input, a wall-clock time to the minute
    with a year from 1000 on. *)
Definition entered_time (d : DraftStop) : Prop :=
  let localTime := Js.trim (default "" (planned_time d)) in
  localTime = "" \/
  exists y mo dd h mi,
    localTime = JsDate.datetime_local y mo dd h mi /\
    JsDate.wall_clock y mo dd h mi /\ 1000 <= y.

(** Stops in increasing order of [stop_order]. *)
Definition in_stop_order (l : list RouteStopFinal) : Prop :=
  Sorted (fun a b => stop_order a <= stop_order b) l.

End RouteEdit.

(** ** The calendar of the pay week ([manage/driver-pay/page.tsx]) *)

Module Calendar.

Import Json JsDate.

(** [ToIntegerOrInfinity] of a finite number, towards zero; [None] for
    [NaN] and the infinities, with which [MakeDay] gives [NaN]. *)
Definition to_integer (x : number) : option Z :=
  match x with
  | Fin q => Some (Z.quot (Qnum q) (Z.pos (Qden q)))
  | _ => None
  end.

(** [x - k] *)
Definition minus (x : number) (k : Q) : number :=
  match x with
  | Fin q => Fin (q - k)
  | other => other
  end.

(** The day of the week of a time value, 0 for Sunday. *)
Definition WeekDay (t : Z) : Z := (Day t + 4) mod 7.

(** [s.split(sep)] for a separator of one character. *)
Fixpoint split_chars (sep : ascii) (l : list ascii) : list (list ascii) :=
  match l with
  | [] => [[]]
  | c :: l' =>
      if Ascii.eqb c sep then [] :: split_chars sep l'
      else
        match split_chars sep l' with
        | part :: parts => (c :: part) :: parts
        | [] => [[c]]
        end
  end.

Definition split (s : string) (sep : ascii) : list string :=
  map Js.str (split_chars sep (Js.chars s)).

(** [Math.round(n / d)] for integers [n] and [d], [d] positive. *)
Definition Math_round_ratio (n d : Z) : Z := (2 * n + d) / (2 * d).

(** [x || 7] of a day of the week: 7 for Sunday, and for the [NaN] of an
    invalid date. *)
Definition or7 (day : option Z) : Z :=
  match day with
  | Some x => if x =? 0 then 7 else x
  | None => 7
  end.

(** The text of a date: [YYYY-MM-DD]; and the text of the date with day
    number [n], counted from 1 January 1970. *)
Definition date_string (y mo d : Z) : string :=
  Js.str (digits 4 y ++ "-"%char :: digits 2 mo ++ "-"%char :: digits 2 d)%list.

Definition date_of_day (n : Z) : string :=
  let t := n * msPerDay in
  date_string (YearFromTime t) (MonthFromTime t + 1) (DateFromTime t).

Section LocalCalendar.

(** The offset of local time, as in [JsDate]. An integer argument that
    is [NaN] is [None]; so is an invalid date. *)
Variable LocalTZA : Z.

(** [new Date(year, month, date)] on integers: a year from 0 to 99 is a
    year of the twentieth century. *)
Definition new_Date_of (year month date : option Z) : option Z :=
  yi ← year; m ← month; dt ← date;
  let yr := if (0 <=? yi) && (yi <=? 99) then 1900 + yi else yi in
  TimeClip (UTC LocalTZA (MakeDate (MakeDay yr m dt) (MakeTime 0 0 0 0))).

Definition new_Date_ymd (year month date : number) : option Z :=
  new_Date_of (to_integer year) (to_integer month) (to_integer date).

Definition getDay (d : option Z) : option Z := WeekDay ∘ LocalTime LocalTZA <$> d.

(** [d.setDate(dt)] *)
Definition setDate (d : option Z) (dt : option Z) : option Z :=
  t ← d; dt ← dt;
  let tl := LocalTime LocalTZA t in
  TimeClip (UTC LocalTZA
    (MakeDate (MakeDay (YearFromTime tl) (MonthFromTime tl) dt) (TimeWithinDay tl))).

(** [d.setHours(0, 0, 0, 0)] *)
Definition setHours0 (d : option Z) : option Z :=
  t ← d;
  TimeClip (UTC LocalTZA (MakeDate (Day (LocalTime LocalTZA t)) (MakeTime 0 0 0 0))).

(** [d.getDate() + k] *)
Definition date_plus (d : option Z) (k : Z) : option Z :=
  (fun a => a + k) <$> getDate LocalTZA d.

(** [toISODate] *)
Definition toISODate (d : option Z) : string :=
  let yyyy := getFullYear LocalTZA d in
  let mm := padStart0 2 (number_string ((fun m => m + 1) <$> getMonth LocalTZA d)) in
  let dd := padStart0 2 (number_string (getDate LocalTZA d)) in
  number_string yyyy ++ "-" ++ mm ++ "-" ++ dd.

(** [parseISODate]: a missing year is [undefined], which is [NaN] as a
    number; a missing month or day is 1. *)
Definition parseISODate (iso : string) : option Z :=
  let parts := map StringToNumber (split iso "-") in
  let y := parts !! 0%nat in
  let m := parts !! 1%nat in
  let d := parts !! 2%nat in
  new_Date_ymd (default NaN y) (minus (default (Fin 1) m) 1) (default (Fin 1) d).

(** [startOfWeekMonday] *)
Definition startOfWeekMonday (date : option Z) : option Z :=
  let d := date in
  let day := getDay d in
  let diff := (fun day => (if day =? 0 then -6 else 1) - day) <$> day in
  let d := setDate d (a ← getDate LocalTZA d; b ← diff; Some (a + b)) in
  setHours0 d.

(** [addDays] *)
Definition addDays (date : option Z) (days : Z) : option Z :=
  setDate date (date_plus date days).

(** The Monday of the week that holds 4 January of the year, computed
    by [getISOWeekInfo] and by [mondayFromISOWeek]. *)
Definition week1Monday (isoYear : option Z) : option Z :=
  let jan4 := new_Date_of isoYear (Some 0) (Some 4) in
  let jan4Day := or7 (getDay jan4) in
  setDate jan4 (date_plus jan4 (- (jan4Day - 1))).

(** [getISOWeekInfo]: the ISO year and the week. *)
Definition getISOWeekInfo (date : option Z) : option Z * option Z :=
  let d := setHours0 date in
  let day := or7 (getDay d) in
  let d := setDate d (date_plus d (4 - day)) in
  let isoYear := getFullYear LocalTZA d in
  let w1 := week1Monday isoYear in
  let diffMs := (t1 ← d; t0 ← w1; Some (t1 - t0)) in
  let week := (fun x => 1 + Math_round_ratio x (7 * 24 * 60 * 60 * 1000)) <$> diffMs in
  (isoYear, week).

(** [mondayFromISOWeek] for an integer year and week. *)
Definition mondayFromISOWeek (isoYear week : Z) : option Z :=
  let w1 := week1Monday (Some isoYear) in
  let monday := setDate w1 (date_plus w1 ((week - 1) * 7)) in
  setHours0 monday.

(** [weekDates] *)
Definition weekDates (weekStart : string) : list string :=
  let s := parseISODate weekStart in
  map (fun i => toISODate (addDays s (Z.of_nat i))) (seq 0 7).

(** The week start that [prevWeek], [nextWeek] and [jumpToWeek] set. *)
Definition prevWeek (weekStart : string) : string :=
  toISODate (addDays (parseISODate weekStart) (-7)).

Definition nextWeek (weekStart : string) : string :=
  toISODate (addDays (parseISODate weekStart) 7).

Definition jumpToWeek (jumpYear jumpWeek : Z) : string :=
  let wk := Z.max 1 (Z.min 53 jumpWeek) in
  toISODate (mondayFromISOWeek jumpYear wk).

End LocalCalendar.

End Calendar.

(** ** Marking days by hand ([manage/driver-pay/page.tsx]) *)

Module DayActions.

Import Json Http DriverPay.

(** The hours of the days of the week on which the driver has an entry
    whose status satisfies [p], summed; an entry without hours counts
    for none. *)
Definition hours_with (entries : list DayEntry) (d : DriverRow) (p : DayStatus -> bool)
    (weekDates : list string) : Q :=
  foldr (fun day acc =>
           match getEntry entries (id d) day with
           | Some entry => if p (status entry) then (default 0 (hours entry) + acc)%Q else acc
           | None => acc
           end) 0%Q weekDates.

(** [clampNum]: [Number(v)] when it is finite, else the fallback. *)
Definition clampNum (v : string) (fallback : Q) : Q :=
  match StringToNumber v with
  | Fin n => n
  | _ => fallback
  end.

(** [Math.max(0, x)] of a finite number. *)
Definition Math_max0 (x : Q) : Q := if Qle_bool 0 x then x else 0%Q.

Inductive ManualKind : Type := Work | Leave | Off | Sick.

Definition kind_label (kind : ManualKind) : string :=
  match kind with
  | Work => "Work"
  | Leave => "Leave"
  | Off => "Off"
  | Sick => "Sick"
  end.

(** [buildManualNote] *)
Definition buildManualNote (kind : ManualKind) (reason free : string) : string :=
  let r := Js.trim reason in
  let t := Js.trim free in
  let parts := ["Manual: " ++ kind_label kind] in
  let parts :=
    if Js.truthy r && negb (String.eqb r "Other")
    then (parts ++ [("(" ++ r ++ ")")%string])%list else parts in
  let parts :=
    if String.eqb r "Other" && Js.truthy t
    then (parts ++ [("(" ++ t ++ ")")%string])%list
    else if Js.truthy t then (parts ++ [("— " ++ t)%string])%list
    else parts in
  Js.join " " parts.

(** The options of [upsertDayEntry]; an absent [manual] is [false]. *)
Record Opts : Type := {
  manual : bool;
  manualKindLabel : option ManualKind;
  hoursOverride : option Q
}.

(** The controls of the page that [upsertDayEntry] reads. *)
Record Controls : Type := {
  defaultLeaveHours : string;
  manualReason : string;
  manualFreeText : string
}.

(** The payload that [upsertDayEntry] builds. *)
Definition day_payload (ui : Controls) (entries : list DayEntry) (user_id : string)
    (driver : DriverRow) (date : string) (st : DayStatus) (opts : option Opts)
  : payload :=
  let existing := getEntry entries (id driver) date in
  let leaveHoursNum := Math_max0 (clampNum (defaultLeaveHours ui) 8) in
  let shifts :=
    if decide (pay_type driver = shift) then
      (if bool_decide (st = work) || bool_decide (st = leave) then 1 else 0)%Q
    else 1%Q in
  let hours :=
    if decide (pay_type driver = hourly) then
      match st with
      | work =>
          let base :=
            match existing with
            | Some e => if decide (status e = work) then default 0%Q (hours e) else 0%Q
            | None => 0%Q
            end in
          Some (default base (opts ≫= hoursOverride))
      | leave => Some (default leaveHoursNum (opts ≫= hoursOverride))
      | _ => Some 0%Q
      end
    else None in
  let kept := existing ≫= notes in
  let notes :=
    if default false (manual <$> opts) then
      buildManualNote (default Work (opts ≫= manualKindLabel))
                      (manualReason ui) (manualFreeText ui)
    else
      match st with
      | work => default "Auto: from completed job" kept
      | leave => default "Manual: Annual leave" kept
      | off => default "Manual: Off (unpaid)" kept
      | sick => default "Manual: Sick (unpaid)" kept
      end in
  {| p_owner_id := user_id;
     p_driver_id := id driver;
     p_entry_date := date;
     p_status := st;
     p_shifts := Some shifts;
     p_hours := hours;
     p_notes := Some notes |}.

(** The payload that [updateWorkHours] builds. *)
Definition hours_payload (user_id : string) (driver : DriverRow) (date hoursStr : string)
    (entry : DayEntry) : payload :=
  {| p_owner_id := user_id;
     p_driver_id := id driver;
     p_entry_date := date;
     p_status := work;
     p_shifts := Some 1%Q;
     p_hours := Some (Math_max0 (clampNum hoursStr 0));
     p_notes := notes entry |}.

(** The rows that the page can see are those of the user, and their
    dates are written like [date] (YYYY-MM-DD): as many characters. *)
Definition rows_of (user_id date : string) (t : gmap row_key stored) : Prop :=
  forall o d dt v,
    t !! (o, d, dt) = Some v -> o = user_id /\ String.length dt = String.length date.

Section Actions.

Variable in_week : string -> bool.
Variable new_id : gmap row_key stored -> string.

(** What an action does once its payload is built: the error of a
    missing session, or the upsert and the reload; the store accepts
    every read and upsert. *)
Definition save (who : auth) (fallback : string) (build : string -> payload) (pg : page)
  : page :=
  match who with
  | AuthError m => Page (table pg) (entries pg) (Some (message_or fallback m))
  | NoUser => Page (table pg) (entries pg) (Some "Auth session missing. Please log in again.")
  | User user_id => load in_week (upsert new_id (build user_id) (table pg))
  end.

(** [upsertDayEntry] *)
Definition upsertDayEntry (who : auth) (ui : Controls) (driver : DriverRow)
    (date : string) (st : DayStatus) (opts : option Opts) (pg : page) : page :=
  save who "Failed to save day entry."
       (fun user_id => day_payload ui (entries pg) user_id driver date st opts) pg.

(** [updateWorkHours]: nothing happens unless the driver is paid by the
    hour and has a work entry on the date. *)
Definition updateWorkHours (who : auth) (driver : DriverRow) (date hoursStr : string)
    (pg : page) : page :=
  if decide (pay_type driver <> hourly) then pg
  else
    match getEntry (entries pg) (id driver) date with
    | Some entry =>
        if decide (status entry <> work) then pg
        else
          save who "Failed to update hours."
               (fun user_id => hours_payload user_id driver date hoursStr entry) pg
    | None => pg
    end.

(** [clearDayEntry]: the rows of the driver and the date are deleted
    (the query names no owner), then the page reloads. *)
Definition clearDayEntry (driver date : string) (pg : page) : page :=
  load in_week
    (filter (fun row : row_key * stored =>
               ~ (row.1.1.2 = driver /\ row.1.2 = date)) (table pg)).

End Actions.

End DayActions.

(** ** The geocode endpoint ([app/api/geocode/route.ts]) *)

Module Geocode.

Import Json Http Postcode.

(** The answer of postcodes.io: [resp.ok], [resp.status], the outcome of
    [resp.text()] ([None] when it rejects) and of [resp.json()] (the
    thrown message when it rejects). *)
Record upstream : Type := Upstream {
  up_ok : bool;
  up_status : N;
  up_text : option string;
  up_json : option string + value
}.

(** Truthiness of an optional value; a number is falsy when the double
    read from its literal is zero. *)
Definition truthy_value (v : option value) : bool :=
  match v with
  | None | Some JNull => false
  | Some (JBool b) => b
  | Some (JNum q) => negb (Qeq_bool (Double.fl q) 0)
  | Some (JStr s) => Js.truthy s
  | Some (JArr _) | Some (JObj _) => true
  end.

(** [results[k] = v] on the own properties of an object: the value of
    an existing key is replaced, a new key is added. *)
Fixpoint assign (k : string) (v : value) (fields : list (string * value))
  : list (string * value) :=
  match fields with
  | [] => [(k, v)]
  | (k', v') :: rest =>
      if String.eqb k k' then (k, v) :: rest else (k', v') :: assign k v rest
  end.

(** An object literal as [JSON.stringify] writes it: the properties
    whose value is [undefined] are left out. *)
Definition object_of (props : list (string * option value)) : value :=
  JObj (omap (fun p => match p.2 with Some v => Some (p.1, v) | None => None end) props).

Section Endpoint.

(** [String(x)] of a number; the message of the [TypeError] thrown when
    [json.result] is not iterable; postcodes.io as a function of the
    batch. *)
Variable number_to_string : number -> string.
Variable not_iterable : string.
Variable postcodes_io : list string -> fetched upstream.

(** [String(v)] *)
Fixpoint String_of (v : value) : string :=
  match v with
  | JNull => "null"
  | JBool b => if b then "true" else "false"
  | JNum q => number_to_string (clamp q)
  | JStr s => s
  | JArr items =>
      Js.join "," (map (fun x => match x with JNull => "" | _ => String_of x end) items)
  | JObj _ => "[object Object]"
  end.

(** [String(v ?? "")] *)
Definition text_of (v : option value) : string :=
  match v with
  | None | Some JNull => ""
  | Some w => String_of w
  end.

(** The validation of the request: the reply that rejects it, or the
    batch that goes to postcodes.io. *)
Definition forwarded (request : option value) : RouteMiles.reply + list string :=
  let body := default (JObj []) request in
  match get (Some body) "postcodes" with
  | Some (JArr postcodesRaw) =>
      if (length postcodesRaw =? 0)%nat then
        inl (RouteMiles.error_reply 400 "postcodes[] is required")
      else
        let postcodes :=
          filter (fun p => Js.truthy p = true)
                 (map (fun p => normKey (text_of (Some p))) postcodesRaw) in
        if (length postcodes =? 0)%nat then
          inl (RouteMiles.error_reply 400 "No valid postcodes provided")
        else inr postcodes
  | _ => inl (RouteMiles.error_reply 400 "postcodes[] is required")
  end.

(** What [for (const item of json?.result ?? [])] iterates over: the
    elements of an array, the characters of a string, nothing for [null]
    and [undefined]; anything else is not iterable. *)
Definition items_of (json : value) : string + list value :=
  match get (Some json) "result" with
  | None | Some JNull => inr []
  | Some (JArr items) => inr items
  | Some (JStr s) => inr (map (fun c => JStr (String c EmptyString)) (Js.chars s))
  | Some _ => inl not_iterable
  end.

(** One iteration of the loop; the values [r.latitude] and
    [r.longitude] are written into the reply by [NextResponse.json]. *)
Definition result_step (results : list (string * value)) (item : value)
  : list (string * value) :=
  let query := normKey (text_of (get (Some item) "query")) in
  let r := get (Some item) "result" in
  if negb (Js.truthy query) then results
  else if negb (truthy_value r) then assign query JNull results
  else assign query (object_of [("lat", stringify <$> get r "latitude");
                                ("lng", stringify <$> get r "longitude")])
              results.

(** [POST] *)
Definition POST (request : option value) : RouteMiles.reply :=
  match forwarded request with
  | inl rejection => rejection
  | inr postcodes =>
      match postcodes_io postcodes with
      | Rejected m => RouteMiles.error_reply 500 (message_or "Server error" m)
      | Responded resp =>
          if negb (up_ok resp) then
            let text := default "" (up_text resp) in
            RouteMiles.error_reply 502
              ("postcodes.io failed (" ++ pretty (up_status resp) ++ "): "
               ++ Js.slice text 0 (Some 200))
          else
            match up_json resp with
            | inl m => RouteMiles.error_reply 500 (message_or "Server error" m)
            | inr json =>
                match items_of json with
                | inl m => RouteMiles.error_reply 500 m
                | inr items =>
                    RouteMiles.Reply 200
                      (JObj [("results", JObj (foldl result_step [] items))])
                end
            end
      end
  end.

End Endpoint.

(** The request body [JSON.stringify({ postcodes })] of [confirm]. *)
Definition request_of (postcodes : list string) : value :=
  JObj [("postcodes", JArr (map JStr postcodes))].

End Geocode.

(** ** Further inputs of the worked scenario *)

Module Cases.

Import Json Http RouteModal Scenario.

(** The scenario with a stop added and left blank. *)
Definition drafts_blank_stop : list DraftStop :=
  [draft "wn5 0lr" "Collection";
   {| postcode := ""; name := Some "Stop"; planned_time := Some "" |};
   draft "WS13 8NF" "Delivery"].

(** The scenario with a planned time that is no date-time. *)
Definition drafts_bad_time : list DraftStop :=
  [draft "wn5 0lr" "Collection";
   {| postcode := "WS13 8NF"; name := Some "Delivery"; planned_time := Some "tomorrow" |}].

(** What [confirm] hands over at the scenario. *)
Definition resolved (order : Z) (pc label : string) (lat lng : Q) : RouteStopFinal :=
  {| stop_order := order; stop_postcode := pc; stop_name := Some label;
     stop_planned_time := None; lat := Some lat; lng := Some lng |}.

Definition resolved_stops : list RouteStopFinal :=
  [resolved 1 "WN5 0LR" "Collection" 53.5%Q (-2.7)%Q;
   resolved 2 "WS13 8NF" "Stop" 52.7%Q (-1.8)%Q;
   resolved 3 "WN5 0LR" "Delivery" 53.5%Q (-2.7)%Q].

(** The scenario with planned times for the collection and the
    delivery. *)
Definition drafts_timed : list DraftStop :=
  [{| postcode := "wn5 0lr"; name := Some "Collection";
      planned_time := Some "2025-12-21T09:30" |};
   draft "WS138NF" "Stop";
   {| postcode := "wn50lr"; name := Some "Delivery";
      planned_time := Some " 2025-12-21T17:05 " |}].

Definition resolved_timed : list RouteStopFinal :=
  [{| stop_order := 1; stop_postcode := "WN5 0LR"; stop_name := Some "Collection";
      stop_planned_time := Some "2025-12-21T08:30:00.000Z";
      lat := Some 53.5%Q; lng := Some (-2.7)%Q |};
   resolved 2 "WS13 8NF" "Stop" 52.7%Q (-1.8)%Q;
   {| stop_order := 3; stop_postcode := "WN5 0LR"; stop_name := Some "Delivery";
      stop_planned_time := Some "2025-12-21T16:05:00.000Z";
      lat := Some 53.5%Q; lng := Some (-2.7)%Q |}].

Definition resolved_log : list call :=
  [GeocodeCall ["WN50LR"; "WS138NF"; "WN50LR"];
   RouteMilesCall [{| c_lat := 53.5%Q; c_lng := (-2.7)%Q |};
                   {| c_lat := 52.7%Q; c_lng := (-1.8)%Q |};
                   {| c_lat := 53.5%Q; c_lng := (-2.7)%Q |}]].

(** An answer of postcodes.io to a batch that names one postcode twice
    and one that it does not know, and the body of the reply that the
    geocode endpoint makes of it. *)
Definition found (query : string) (latitude longitude : Q) : value :=
  JObj [("query", JStr query);
        ("result", JObj [("postcode", JStr query); ("latitude", JNum latitude);
                         ("longitude", JNum longitude)])].

Definition postcodes_io (batch : list string) : fetched Geocode.upstream :=
  Responded (Geocode.Upstream true 200 None
    (inr (JObj [("status", JNum 200);
                ("result", JArr [found "WN50LR" 53.5%Q (-2.7)%Q;
                                 JObj [("query", JStr "xx1 1xx"); ("result", JNull)];
                                 found "WN50LR" 53.5%Q (-2.7)%Q])]))).

Definition geocode_body : value :=
  JObj [("results",
         JObj [("WN50LR", JObj [("lat", JNum 53.5%Q); ("lng", JNum (-2.7)%Q)]);
               ("XX11XX", JNull)])].

(** The hourly week of the specification: a driver paid 20 an hour,
    eight hours of work on Monday, eight of leave on Tuesday, an off day
    with three stray hours on Wednesday. *)
Definition hourly_driver : DriverPay.DriverRow :=
  {| DriverPay.id := "d1"; DriverPay.full_name := "Driver One";
     DriverPay.pay_type := DriverPay.hourly; DriverPay.pay_rate := Some 20%Q |}.

Definition hourly_entries : list DriverPay.DayEntry :=
  [day_entry "2025-01-06" DriverPay.work (Some 1%Q) (Some 8%Q);
   day_entry "2025-01-07" DriverPay.leave (Some 1%Q) (Some 8%Q);
   day_entry "2025-01-08" DriverPay.off (Some 1%Q) (Some 3%Q)].

(** The controls of the page as it opens a driver, and a manual mark. *)
Definition controls : DayActions.Controls :=
  {| DayActions.defaultLeaveHours := "8";
     DayActions.manualReason := "Standby";
     DayActions.manualFreeText := "" |}.

(** A table with one work day of eight hours. *)
Definition hourly_store : gmap DriverPay.row_key DriverPay.stored :=
  <[("u1", "d1", "2025-01-06") :=
      DriverPay.Stored "r1" DriverPay.work (Some 1%Q) (Some 8%Q) None]> ∅.

Definition by_hand (kind : DayActions.ManualKind) : option DayActions.Opts :=
  Some {| DayActions.manual := true;
          DayActions.manualKindLabel := Some kind;
          DayActions.hoursOverride := None |}.

End Cases.

(** * Properties *)

(** ** Strings *)

Section StringFacts.

Lemma chars_str l : Js.chars (Js.str l) = l.
Proof. apply list_ascii_of_string_of_list_ascii. Qed.

Lemma str_chars s : Js.str (Js.chars s) = s.
Proof. apply string_of_list_ascii_of_string. Qed.

Lemma str_app l1 l2 : Js.str (l1 ++ l2)%list = Js.str l1 ++ Js.str l2.
Proof. induction l1 as [|c l1 IH]; simpl; [done | by rewrite IH]. Qed.

Lemma length_str l : String.length (Js.str l) = length l.
Proof. induction l as [|c l IH]; simpl; [done | by rewrite IH]. Qed.

Lemma truthy_str l : Js.truthy (Js.str l) = match l with [] => false | _ => true end.
Proof. by destruct l. Qed.

Lemma str_inj l1 l2 : Js.str l1 = Js.str l2 -> l1 = l2.
Proof. intros H. by rewrite <- (chars_str l1), H, chars_str. Qed.

Lemma upper_char_white_space c :
  Js.is_white_space (Js.upper_char c) = Js.is_white_space c.
Proof. destruct c as [[] [] [] [] [] [] [] []]; reflexivity. Qed.

Lemma upper_char_idem c : Js.upper_char (Js.upper_char c) = Js.upper_char c.
Proof. destruct c as [[] [] [] [] [] [] [] []]; reflexivity. Qed.

(** Stripping the white space and upper-casing commute. *)
Lemma strip_upper_comm (l : list ascii) :
  map Js.upper_char (filter (fun c => Js.is_white_space c = false) l)
  = filter (fun c => Js.is_white_space c = false) (map Js.upper_char l).
Proof.
  induction l as [|c l IH]; [done |].
  cbn [map]. rewrite !filter_cons, upper_char_white_space.
  destruct (decide (Js.is_white_space c = false)); cbn [map]; by rewrite IH.
Qed.

Lemma slice_chars_init (l : list ascii) (k : nat) :
  (0 < k <= length l)%nat ->
  Js.slice_chars l 0 (Some (- Z.of_nat k)) = take (length l - k) l.
Proof.
  intros Hk. unfold Js.slice_chars, Js.rel_index.
  destruct (Z.ltb_spec (- Z.of_nat k) 0); [| lia].
  change (0 <? 0) with false. cbv iota.
  rewrite Z.min_l, Z.max_l by lia. simpl drop.
  f_equal. lia.
Qed.

Lemma slice_chars_last (l : list ascii) (k : nat) :
  (0 < k <= length l)%nat ->
  Js.slice_chars l (- Z.of_nat k) None = drop (length l - k) l.
Proof.
  intros Hk. unfold Js.slice_chars, Js.rel_index.
  destruct (Z.ltb_spec (- Z.of_nat k) 0); [| lia].
  rewrite Z.max_l by lia.
  replace (Z.to_nat (Z.of_nat (length l) + - Z.of_nat k)) with (length l - k)%nat by lia.
  apply take_ge. rewrite length_drop. lia.
Qed.

End StringFacts.

(** ** Postcode normaliser *)

Section PostcodeFacts.

Import Postcode.

Lemma chars_normKey pc : Js.chars (normKey pc) = spec_stripped pc.
Proof.
  unfold normKey, Js.toUpperCase, Js.remove_white_space, spec_stripped.
  by rewrite !chars_str, strip_upper_comm.
Qed.

Lemma normKey_str pc : normKey pc = Js.str (spec_stripped pc).
Proof. by rewrite <- chars_normKey, str_chars. Qed.

(** [formatUKPostcode] on the characters of the key: the key itself
    when it has at most three characters, else its two slices around a
    space. *)
Lemma formatUKPostcode_slices (pc : string) :
  let k := spec_stripped pc in
  formatUKPostcode pc
  = if (length k <=? 3)%nat then Js.str k
    else Js.str (take (length k - 3) k) ++ " " ++ Js.str (drop (length k - 3) k).
Proof.
  cbv zeta. unfold formatUKPostcode.
  rewrite normKey_str, truthy_str, length_str.
  set (k := spec_stripped pc).
  destruct k as [|c k'] eqn:Ek; [done |].
  rewrite <- Ek. cbn [negb].
  assert (length k = S (length k')) as Hlen by (by rewrite Ek).
  destruct (Nat.leb_spec (length k) 3) as [Hle|Hgt]; [done |].
  unfold Js.slice. rewrite chars_str.
  pose proof (slice_chars_init k 3 ltac:(lia)) as Hinit.
  pose proof (slice_chars_last k 3 ltac:(lia)) as Hlast.
  change (- Z.of_nat 3) with (-3) in Hinit, Hlast.
  by rewrite Hinit, Hlast.
Qed.

(** C7. For every input string, [formatUKPostcode] is the input
    upper-cased with all white space stripped, with a single space put
    before the final three characters when more than three characters
    remain, and that stripped string itself when three or fewer remain. *)
Theorem formatUKPostcode_display (pc : string) :
  formatUKPostcode pc = spec_display pc.
Proof.
  rewrite formatUKPostcode_slices. unfold spec_display.
  set (k := spec_stripped pc).
  destruct (Nat.leb_spec (length k) 3) as [Hle|Hgt].
  - destruct (Nat.ltb_spec 3 (length k)); [lia | done].
  - destruct (Nat.ltb_spec 3 (length k)); [| lia].
    change " " with (Js.str [" "%char]).
    by rewrite <- !str_app.
Qed.

End PostcodeFacts.

Section NormKeyFacts.

Import Postcode.

Lemma spec_stripped_fixpoint pc :
  filter (fun c => Js.is_white_space c = false) (map Js.upper_char (spec_stripped pc))
  = spec_stripped pc.
Proof.
  unfold spec_stripped.
  induction (Js.chars pc) as [|c l IH]; [done |].
  cbn [map]. rewrite filter_cons.
  destruct (decide (Js.is_white_space (Js.upper_char c) = false)) as [E|E]; [| exact IH].
  cbn [map]. rewrite filter_cons, upper_char_idem.
  destruct (decide (Js.is_white_space (Js.upper_char c) = false)); [| done].
  by rewrite IH.
Qed.

(** Canonicalisation is idempotent. *)
Lemma normKey_idem pc : normKey (normKey pc) = normKey pc.
Proof.
  rewrite (normKey_str (normKey pc)). unfold spec_stripped at 1.
  rewrite chars_normKey, spec_stripped_fixpoint. symmetry. apply normKey_str.
Qed.

(** The key of the display form is the key of the input. *)
Lemma normKey_formatUKPostcode pc : normKey (formatUKPostcode pc) = normKey pc.
Proof.
  rewrite formatUKPostcode_slices.
  destruct (length (spec_stripped pc) <=? 3)%nat.
  - rewrite <- normKey_str. apply normKey_idem.
  - change " " with (Js.str [" "%char]). rewrite <- !str_app.
    rewrite normKey_str. unfold spec_stripped at 1. rewrite chars_str.
    rewrite map_app, filter_app. cbn [map app]. rewrite filter_cons.
    destruct (decide (Js.is_white_space (Js.upper_char " ") = false)) as [E|_];
      [discriminate E |].
    rewrite <- filter_app, <- map_app, take_drop.
    by rewrite spec_stripped_fixpoint, normKey_str.
Qed.

Lemma submitted_postcodes_spec (allDraft : list RouteModal.DraftStop) :
  RouteModal.submitted_postcodes allDraft
  = map (fun d => normKey (RouteModal.postcode d))
        (filter (fun d => normKey (RouteModal.postcode d) <> "") allDraft).
Proof.
  unfold RouteModal.submitted_postcodes.
  induction allDraft as [|d l IH]; [done |].
  cbn [map]. rewrite !filter_cons, IH.
  destruct (decide (normKey (RouteModal.postcode d) <> "")) as [Hne|Heq].
  - destruct (normKey (RouteModal.postcode d)) eqn:E; [done |].
    simpl. by rewrite E.
  - destruct (normKey (RouteModal.postcode d)) eqn:E; [done |].
    by destruct Heq.
Qed.

End NormKeyFacts.

(** ** The route assembler *)

Section ConfirmFacts.

Import Http Postcode RouteModal.

Variable LocalTZA : Z.
Variable engine_parse : string -> option Z.
Variable range_error_message : string.
Variable geocode_service : list string -> fetched (response GeoJson).
Variable route_miles_service : list LatLng -> fetched (response MilesJson).

#[local] Abbreviation confirm_try :=
  (confirm_try LocalTZA engine_parse range_error_message geocode_service route_miles_service).
#[local] Abbreviation confirm :=
  (confirm LocalTZA engine_parse range_error_message geocode_service route_miles_service).
#[local] Abbreviation final_stop := (final_stop LocalTZA engine_parse range_error_message).
#[local] Abbreviation final_stops := (final_stops LocalTZA engine_parse range_error_message).
#[local] Abbreviation time_readable := (time_readable LocalTZA engine_parse).

Lemma confirm_log allDraft : snd (confirm allDraft) = snd (confirm_try allDraft []).
Proof.
  unfold RouteModal.confirm.
  destruct (confirm_try allDraft []) as [[e|[stops miles]] log]; reflexivity.
Qed.

(** The calls of a submission: none, the geocoding call alone, or the
    geocoding call followed by the route-miles call. *)
Lemma confirm_try_log allDraft :
  let p := submitted_postcodes allDraft in
  let log := snd (confirm_try allDraft []) in
  ((length p < 2)%nat /\ log = []) \/
  ((2 <= length p)%nat /\
   (log = [GeocodeCall p] \/ exists c, log = [GeocodeCall p; RouteMilesCall c])).
Proof.
  cbv zeta. unfold RouteModal.confirm_try.
  destruct (Nat.ltb_spec (length (submitted_postcodes allDraft)) 2) as [Hlt|Hge].
  { left. by split. }
  right. split; [done |].
  unfold bind, await, lift, throw, ret.
  destruct (geocode_service _) as [m|geoResp]; [by left |].
  cbn [app].
  destruct (negb (ok geoResp)); [by left |].
  destruct (negb _); [by left |].
  destruct (final_stops _ _ _) as [e|stops]; [by left |].
  destruct (List.find _ stops); [by left |].
  destruct (route_miles_service _) as [m|milesResp]; cbn [app]; [right; eauto |].
  destruct (negb (ok milesResp)); right; eauto.
Qed.

(** The stops that [final_stops] builds are as many as the drafts and
    numbered from [idx + 1] on. *)
Lemma final_stops_shape (m : gmap string (option GeoHit)) (l : list DraftStop) :
  forall idx stops,
  final_stops m idx l = inr stops ->
  length stops = length l /\
  map stop_order stops = map (fun i => idx + Z.of_nat i) (seq 1 (length l)).
Proof.
  induction l as [|d l IH]; intros idx stops Hrun; cbn [RouteModal.final_stops] in Hrun.
  { injection Hrun as <-. by split. }
  destruct (final_stop m idx d) as [e|stop] eqn:Hstop; [discriminate |].
  destruct (final_stops m (idx + 1) l) as [e|rest] eqn:Hrest; [discriminate |].
  injection Hrun as <-.
  destruct (IH (idx + 1) rest Hrest) as [Hlen Hord].
  assert (stop_order stop = idx + 1) as Ho.
  { unfold RouteModal.final_stop in Hstop.
    destruct (Js.truthy _); [destruct (JsDate.localDatetimeToIso _ _) |];
      try discriminate; by injection Hstop as <-. }
  split; [simpl; lia |].
  cbn [map length seq]. rewrite Ho, Hord, <- (seq_shift (length l) 1), map_map.
  apply (f_equal2 cons); [lia |].
  apply map_ext. intros. lia.
Qed.

(** What [final_stop] puts into a stop. *)
Lemma final_stop_carries (m : gmap string (option GeoHit)) (idx : Z)
    (d : DraftStop) (s : RouteStopFinal) :
  final_stop m idx d = inr s ->
  stop_postcode s = formatUKPostcode (postcode d) /\
  stop_name s = name d /\
  lat s = lookup_coord m (normKey (postcode d)) ≫= hit_lat /\
  lng s = lookup_coord m (normKey (postcode d)) ≫= hit_lng /\
  stop_planned_time s
  = (let localTime := Js.trim (default "" (planned_time d)) in
    if Js.truthy localTime
    then JsDate.localDatetimeToIso LocalTZA engine_parse localTime
    else None).
Proof.
  unfold RouteModal.final_stop. rewrite normKey_formatUKPostcode. cbv zeta.
  destruct (Js.truthy _); [destruct (JsDate.localDatetimeToIso _ _) |];
    try discriminate; by intros [= <-].
Qed.

(** A stop fails the safety check of [confirm] exactly when the result
    for the key of its draft holds no coordinate. *)
Lemma final_stop_null (m : gmap string (option GeoHit)) (idx : Z)
    (d : DraftStop) (s : RouteStopFinal) :
  final_stop m idx d = inr s ->
  is_null (lat s) || is_null (lng s) = is_null (coordinate m (normKey (postcode d))).
Proof.
  intros Hstop.
  destruct (final_stop_carries _ _ _ _ Hstop) as (_ & _ & -> & -> & _).
  unfold coordinate.
  destruct (lookup_coord m (normKey (postcode d))) as [[[a|] [b|]]|]; reflexivity.
Qed.

Lemma final_stop_coordinate (m : gmap string (option GeoHit)) (idx : Z)
    (d : DraftStop) (s : RouteStopFinal) (c : LatLng) :
  final_stop m idx d = inr s ->
  coordinate m (normKey (postcode d)) = Some c ->
  lat s = Some (c_lat c) /\ lng s = Some (c_lng c).
Proof.
  intros Hstop.
  destruct (final_stop_carries _ _ _ _ Hstop) as (_ & _ & -> & -> & _).
  unfold coordinate.
  destruct (lookup_coord m (normKey (postcode d))) as [[[a|] [b|]]|];
    try discriminate. by intros [= <-].
Qed.

Lemma final_stops_carry (m : gmap string (option GeoHit)) (l : list DraftStop) :
  forall idx built,
  final_stops m idx l = inr built ->
  Forall2 (fun d s => exists i, final_stop m i d = inr s) l built.
Proof.
  induction l as [|d l IH]; intros idx built Hrun; cbn [RouteModal.final_stops] in Hrun.
  { injection Hrun as <-. constructor. }
  destruct (final_stop m idx d) as [e|stop] eqn:Hstop; [discriminate |].
  destruct (final_stops m (idx + 1) l) as [e|rest] eqn:Hrest; [discriminate |].
  injection Hrun as <-. constructor; eauto.
Qed.

Lemma final_stop_readable (m : gmap string (option GeoHit)) (idx : Z) (d : DraftStop) :
  time_readable d <-> exists s, final_stop m idx d = inr s.
Proof.
  unfold RouteModal.time_readable, RouteModal.final_stop. cbv zeta.
  destruct (Js.trim (default "" (planned_time d))) as [|c r] eqn:E.
  - cbn [Js.truthy]. split; eauto.
  - cbn [Js.truthy]. destruct (JsDate.localDatetimeToIso _ _) as [iso|].
    + split; eauto.
    + split.
      * intros [|[iso Hiso]]; discriminate.
      * intros [s Hs]. discriminate.
Qed.

Lemma final_stop_error (m : gmap string (option GeoHit)) (idx : Z) (d : DraftStop) e :
  final_stop m idx d = inl e -> e = Some range_error_message.
Proof.
  unfold RouteModal.final_stop. cbv zeta.
  destruct (Js.truthy _); [destruct (JsDate.localDatetimeToIso _ _) |];
    try discriminate; by intros [= <-].
Qed.

(** [final_stops] succeeds exactly when every planned time is blank or
    readable, and fails with the error of [toISOString] otherwise. *)
Lemma final_stops_outcome (m : gmap string (option GeoHit)) (l : list DraftStop) :
  forall idx,
  (Forall (time_readable) l /\ exists built, final_stops m idx l = inr built) \/
  (~ Forall (time_readable) l /\
   final_stops m idx l = inl (Some range_error_message)).
Proof.
  induction l as [|d l IH]; intros idx; cbn [RouteModal.final_stops].
  { left. split; [constructor | eauto]. }
  destruct (final_stop m idx d) as [e|stop] eqn:Hstop.
  - right. split.
    + intros H. apply Forall_cons in H as [H _].
      apply (final_stop_readable m idx d) in H as [s Hs]. congruence.
    + by rewrite (final_stop_error _ _ _ _ Hstop).
  - assert (time_readable d) as Hd by (apply (final_stop_readable m idx d); eauto).
    destruct (IH (idx + 1)) as [[Hall [built ->]]|[Hnot ->]].
    + left. split; [by constructor | eauto].
    + right. split; [| done]. intros H. apply Forall_cons in H as [_ H]. by apply Hnot.
Qed.

(** The first stop that fails the safety check is the stop of the first
    draft whose key has no coordinate. *)
Lemma find_null_stop (m : gmap string (option GeoHit)) (l : list DraftStop)
    (built : list RouteStopFinal) :
  Forall2 (fun d s => exists i, final_stop m i d = inr s) l built ->
  match List.find (fun d => is_null (coordinate m (normKey (postcode d)))) l with
  | Some d =>
      exists bad,
        List.find (fun s => is_null (lat s) || is_null (lng s)) built = Some bad /\
        stop_postcode bad = formatUKPostcode (postcode d)
  | None => List.find (fun s => is_null (lat s) || is_null (lng s)) built = None
  end.
Proof.
  induction 1 as [|d s l built [i Hstop] _ IH]; [done |].
  cbn [List.find]. rewrite (final_stop_null _ _ _ _ Hstop).
  destruct (is_null (coordinate m (normKey (postcode d)))); [| exact IH].
  exists s. split; [done |].
  by destruct (final_stop_carries _ _ _ _ Hstop) as (-> & _).
Qed.

(** When the safety check passes, every submitted key has a
    coordinate. *)
Lemma no_null_stop (m : gmap string (option GeoHit)) (allDraft : list DraftStop)
    (built : list RouteStopFinal) :
  final_stops m 0 allDraft = inr built ->
  List.find (fun s => is_null (lat s) || is_null (lng s)) built = None ->
  Forall (fun pc => is_Some (coordinate m pc)) (submitted_postcodes allDraft).
Proof.
  intros Hbuilt Hfind.
  pose proof (find_null_stop m allDraft built (final_stops_carry _ _ _ _ Hbuilt)) as H.
  destruct (List.find _ allDraft) as [d|] eqn:Hd.
  { destruct H as (bad & Hbad & _). congruence. }
  apply Forall_forall. intros pc Hpc.
  rewrite submitted_postcodes_spec in Hpc.
  apply list_elem_of_In, in_map_iff in Hpc as (d & <- & Hin).
  apply list_elem_of_In, list_elem_of_filter in Hin as [_ Hin].
  apply list_elem_of_In in Hin.
  pose proof (find_none _ _ Hd d Hin) as Hnull. cbv beta in Hnull.
  by destruct (coordinate m (normKey (postcode d))).
Qed.

(** The run of [confirm] once the geocoder has answered with a result
    for every submitted key. *)
Lemma confirm_geocoded (allDraft : list DraftStop) (st : N) (body : option GeoJson) :
  let postcodes := submitted_postcodes allDraft in
  let results := default ∅ (body ≫= geo_results) in
  (2 <= length postcodes)%nat ->
  geocode_service postcodes = Responded (Response true st body) ->
  Forall (fun pc => is_Some (lookup_coord results pc)) postcodes ->
  confirm_try allDraft []
  = match final_stops results 0 allDraft with
    | inl e => (inl e, [GeocodeCall postcodes])
    | inr finalStops =>
        match List.find (fun s => is_null (lat s) || is_null (lng s)) finalStops with
        | Some bad =>
            (inl (Some ("Missing coordinates for: " ++ stop_postcode bad)),
             [GeocodeCall postcodes])
        | None =>
            match route_miles_service (coords_of finalStops) with
            | Rejected e =>
                (inl e, [GeocodeCall postcodes; RouteMilesCall (coords_of finalStops)])
            | Responded milesResp =>
                (if negb (ok milesResp) then
                   inl (Some (match truthy_field (json milesResp ≫= miles_error) with
                              | Some e => "Road distance failed: " ++ e
                              | None => "Road distance failed"
                              end))
                 else inr (finalStops, json milesResp ≫= miles_value),
                 [GeocodeCall postcodes; RouteMilesCall (coords_of finalStops)])
            end
        end
    end.
Proof.
  cbv zeta. intros Hlen Hgeo Hall.
  unfold RouteModal.confirm_try.
  destruct (Nat.ltb_spec (length (submitted_postcodes allDraft)) 2) as [|_]; [lia |].
  unfold bind, await, lift, throw, ret. rewrite Hgeo. cbn [ok json negb app].
  set (results := default ∅ (body ≫= geo_results)) in *.
  assert (filter (fun pc => is_null (lookup_coord results pc) = true)
            (submitted_postcodes allDraft) = []) as ->.
  { clear -Hall. induction Hall as [|pc l [c Hc] _ IH]; [done |].
    rewrite filter_cons, Hc. simpl.
    destruct (decide (false = true)); [done | exact IH]. }
  cbn [length Nat.eqb negb].
  destruct (final_stops results 0 allDraft) as [e|finalStops]; [done |].
  destruct (List.find _ finalStops); [done |].
  destruct (route_miles_service _) as [e|milesResp]; [done |].
  cbn [app]. by destruct (negb (ok milesResp)).
Qed.

(** The submission ends at the safety check, with the first draft whose
    key has a result without a coordinate. *)
Lemma confirm_first_null (allDraft : list DraftStop) (st : N) (body : option GeoJson)
    (d : DraftStop) :
  let postcodes := submitted_postcodes allDraft in
  let results := default ∅ (body ≫= geo_results) in
  (2 <= length postcodes)%nat ->
  geocode_service postcodes = Responded (Response true st body) ->
  Forall (fun pc => is_Some (lookup_coord results pc)) postcodes ->
  Forall time_readable allDraft ->
  List.find (fun d => is_null (coordinate results (normKey (postcode d)))) allDraft = Some d ->
  confirm allDraft
  = (ErrorShown ("Missing coordinates for: " ++ formatUKPostcode (postcode d)),
     [GeocodeCall postcodes]).
Proof.
  cbv zeta. intros Hlen Hgeo Hall Htime Hfirst.
  unfold RouteModal.confirm. rewrite (confirm_geocoded allDraft st body Hlen Hgeo Hall).
  set (results := default ∅ (body ≫= geo_results)) in *.
  destruct (final_stops_outcome results allDraft 0) as [[_ [built Hbuilt]]|[Hnot _]];
    [| done].
  rewrite Hbuilt.
  pose proof (find_null_stop results allDraft built (final_stops_carry _ _ _ _ Hbuilt)) as H.
  rewrite Hfirst in H. destruct H as (bad & -> & Hpc).
  by rewrite Hpc.
Qed.

(** X29. The invariant of a resolved route: whenever [confirm] hands stops
    over, there is one for each draft, numbered 1 to N in order, and each
    has a latitude and a longitude; both calls were made. *)
Lemma confirmed_stops_invariant (allDraft : list DraftStop)
    (stops : list RouteStopFinal) (totalMiles : option Q) (log : list call) :
  confirm allDraft = (Confirmed stops totalMiles, log) ->
  length stops = length allDraft /\
  map stop_order stops = map Z.of_nat (seq 1 (length allDraft)) /\
  Forall stop_has_coords stops /\
  log = [GeocodeCall (submitted_postcodes allDraft); RouteMilesCall (coords_of stops)].
Proof.
  unfold RouteModal.confirm, RouteModal.confirm_try.
  destruct (length (submitted_postcodes allDraft) <? 2)%nat; [discriminate |].
  unfold bind, await, lift, throw, ret.
  destruct (geocode_service _) as [m|geoResp]; [discriminate |].
  cbn [app].
  destruct (negb (ok geoResp)); [discriminate |].
  destruct (negb _); [discriminate |].
  destruct (final_stops _ _ _) as [e|built] eqn:Hbuilt; [discriminate |].
  destruct (List.find _ built) eqn:Hfind; [discriminate |].
  destruct (route_miles_service _) as [m|milesResp]; cbn [app]; [discriminate |].
  destruct (negb (ok milesResp)); [discriminate |].
  intros [= <- <- <-].
  destruct (final_stops_shape _ _ _ _ Hbuilt) as [Hlen Hord].
  split; [done |]. split; [| split; [| done]].
  - rewrite Hord. apply map_ext. intros. lia.
  - apply Forall_forall. intros stop Hin.
    apply list_elem_of_In in Hin.
    pose proof (find_none _ _ Hfind stop Hin) as Hnull.
    apply orb_false_elim in Hnull as [Hlat Hlng].
    unfold stop_has_coords. destruct (lat stop), (lng stop); try discriminate; eauto.
Qed.

(** X30. The route-miles call is made only after an answer of the geocoder
    that holds a coordinate, a latitude and a longitude, for every
    submitted postcode. *)
Lemma route_call_after_geocoding (allDraft : list DraftStop) (coords : list LatLng) :
  RouteMilesCall coords ∈ snd (confirm allDraft) ->
  exists st body,
    geocode_service (submitted_postcodes allDraft) = Responded (Response true st body) /\
    Forall (fun pc => is_Some (coordinate (default ∅ (body ≫= geo_results)) pc))
           (submitted_postcodes allDraft).
Proof.
  rewrite confirm_log. unfold RouteModal.confirm_try.
  destruct (length (submitted_postcodes allDraft) <? 2)%nat;
    [intros H; by apply not_elem_of_nil in H |].
  unfold bind, await, lift, throw, ret.
  destruct (geocode_service _) as [m|[isok st body]];
    [intros H; apply list_elem_of_singleton in H; discriminate |].
  cbn [app ok json status].
  destruct isok; cbn [negb];
    [| intros H; apply list_elem_of_singleton in H; discriminate].
  set (results := default ∅ (body ≫= geo_results)).
  destruct (negb _);
    [intros H; apply list_elem_of_singleton in H; discriminate |].
  destruct (final_stops _ _ _) as [e|built] eqn:Hbuilt;
    [intros H; apply list_elem_of_singleton in H; discriminate |].
  destruct (List.find _ built) eqn:Hfind;
    [intros H; apply list_elem_of_singleton in H; discriminate |].
  intros _. exists st, body. split; [done |].
  by apply (no_null_stop results allDraft built).
Qed.

(** C6 (amended). The geocoding call, made once and only when at least
    two non-empty keys remain, submits the canonical keys of the drafts
    with a non-empty postcode, in the order of the drafts and one for
    each draft: a key that several drafts carry is submitted as often.
    Every submitted key is non-empty and canonical. *)
Theorem geocode_batch_per_draft (allDraft : list DraftStop) :
  let keys :=
    map (fun d => normKey (postcode d))
        (filter (fun d => normKey (postcode d) <> "") allDraft) in
  geocode_batches (snd (confirm allDraft))
    = (if (length keys <? 2)%nat then [] else [keys]) /\
  Forall (fun k => k <> "" /\ normKey k = k) keys.
Proof.
  cbv zeta. rewrite <- submitted_postcodes_spec. split.
  - rewrite confirm_log.
    destruct (confirm_try_log allDraft) as [[Hlt ->]|[Hge [->|[c ->]]]].
    + destruct (Nat.ltb_spec (length (submitted_postcodes allDraft)) 2); [done | lia].
    + destruct (Nat.ltb_spec (length (submitted_postcodes allDraft)) 2); [lia | done].
    + destruct (Nat.ltb_spec (length (submitted_postcodes allDraft)) 2); [lia | done].
  - rewrite submitted_postcodes_spec.
    apply Forall_forall. intros k Hk.
    apply list_elem_of_In, in_map_iff in Hk as (d & <- & Hd).
    apply list_elem_of_In, list_elem_of_filter in Hd as [Hne _].
    split; [done | apply normKey_idem].
Qed.

(** The display form of [formatUKPostcode] in the words of the
    specification. *)
Lemma formatUKPostcode_spec_display (pc : string) : formatUKPostcode pc = spec_display pc.
Proof.
  rewrite formatUKPostcode_slices. unfold spec_display.
  destruct (Nat.leb_spec (length (spec_stripped pc)) 3) as [Hle|Hgt].
  - destruct (Nat.ltb_spec 3 (length (spec_stripped pc))); [lia | done].
  - destruct (Nat.ltb_spec 3 (length (spec_stripped pc))); [| lia].
    change " " with (Js.str [" "%char]).
    by rewrite <- !str_app.
Qed.

(** C5 (amended). When the geocoding call answers and some submitted
    postcode has no result in the answer (its entry is null or absent),
    [confirm] ends with the error [Postcode(s) not found: ] followed by
    the display forms, as the specification defines them, of every
    submitted postcode without a result, in the order of submission. A
    result that lacks a latitude or a longitude passes that check: when
    every submitted postcode has a result and every planned time is
    blank or readable, but the result of some draft holds no coordinate,
    [confirm] ends with [Missing coordinates for: ] followed by the
    display form of the first such draft only. Whenever a submitted
    postcode has no coordinate in the answer, the only call made is the
    geocoding call: the route-miles call is not issued. *)
Theorem unresolved_postcodes_reported
    (allDraft : list DraftStop) (st : N) (body : option GeoJson) :
  let postcodes := submitted_postcodes allDraft in
  let results := default ∅ (body ≫= geo_results) in
  (2 <= length postcodes)%nat ->
  geocode_service postcodes = Responded (Response true st body) ->
  ((exists pc, pc ∈ postcodes /\ lookup_coord results pc = None) ->
   let missing := filter (fun pc => is_null (lookup_coord results pc) = true) postcodes in
   confirm allDraft
   = (ErrorShown ("Postcode(s) not found: " ++ Js.join ", " (map spec_display missing)),
      [GeocodeCall postcodes]) /\
   (forall pc, pc ∈ missing <-> pc ∈ postcodes /\ lookup_coord results pc = None)) /\
  (Forall (fun pc => is_Some (lookup_coord results pc)) postcodes ->
   Forall time_readable allDraft ->
   forall d,
   List.find (fun d => is_null (coordinate results (normKey (postcode d)))) allDraft = Some d ->
   confirm allDraft
   = (ErrorShown ("Missing coordinates for: " ++ spec_display (postcode d)),
      [GeocodeCall postcodes])) /\
  ((exists pc, pc ∈ postcodes /\ coordinate results pc = None) ->
   snd (confirm allDraft) = [GeocodeCall postcodes] /\
   forall coords, RouteMilesCall coords ∉ snd (confirm allDraft)).
Proof.
  cbv zeta. intros Hlen Hgeo.
  set (results := default ∅ (body ≫= geo_results)).
  set (missing := filter (fun pc => is_null (lookup_coord results pc) = true)
                         (submitted_postcodes allDraft)).
  split; [| split].
  - intros (pc & Hin & Hnone).
    assert (Hmissing : forall pc, pc ∈ missing <->
              pc ∈ submitted_postcodes allDraft /\ lookup_coord results pc = None).
    { intros q. unfold missing. rewrite list_elem_of_filter.
      destruct (lookup_coord results q); simpl; intuition congruence. }
    split; [| exact Hmissing].
    unfold RouteModal.confirm, RouteModal.confirm_try.
    destruct (Nat.ltb_spec (length (submitted_postcodes allDraft)) 2) as [|_]; [lia |].
    unfold bind, await. rewrite Hgeo. cbn [ok json negb app].
    fold results. fold missing.
    assert (pc ∈ missing) as Hpc by (apply Hmissing; done).
    destruct missing as [|q qs] eqn:Em; [by apply not_elem_of_nil in Hpc |].
    cbn [length Nat.eqb negb]. unfold throw, build_error.
    rewrite (map_ext formatUKPostcode spec_display formatUKPostcode_spec_display).
    reflexivity.
  - intros Hall Htime d Hfirst.
    rewrite <- formatUKPostcode_spec_display.
    by apply (confirm_first_null allDraft st body d).
  - intros (pc & Hin & Hnone).
    assert (snd (confirm allDraft) = [GeocodeCall (submitted_postcodes allDraft)]) as Hlog.
    { rewrite confirm_log. unfold RouteModal.confirm_try.
      destruct (Nat.ltb_spec (length (submitted_postcodes allDraft)) 2) as [|_]; [lia |].
      unfold bind, await, lift, throw, ret. rewrite Hgeo. cbn [ok json negb app].
      fold results. destruct (negb _); [done |].
      destruct (final_stops _ _ _) as [e|built] eqn:Hbuilt; [done |].
      destruct (List.find _ built) eqn:Hfind; [done |].
      exfalso.
      pose proof (no_null_stop results allDraft built Hbuilt Hfind) as Hco.
      rewrite Forall_forall in Hco. destruct (Hco pc Hin) as [c Hc]. congruence. }
    split; [exact Hlog |].
    intros coords. rewrite Hlog.
    intros Hc. apply list_elem_of_singleton in Hc. discriminate Hc.
Qed.

End ConfirmFacts.

(** ** The arithmetic of doubles *)

Lemma Qabs_cases (x : Q) :
  (0 <= x /\ Qabs x == x)%Q \/ (x <= 0 /\ Qabs x == - x)%Q.
Proof.
  destruct (Qlt_le_dec x 0) as [H|H].
  - right. split; [lra |]. apply Qabs_neg. lra.
  - left. split; [lra |]. by apply Qabs_pos.
Qed.

Ltac split_abs x :=
  let E := fresh "E" in
  destruct (Qabs_cases x) as [[? E]|[? E]]; rewrite E in *.

Section DoubleFacts.

Import Double.

Lemma pow2_pos (e : Z) : (0 < pow2 e)%Q.
Proof. apply Qpower_0_lt. reflexivity. Qed.

Lemma pow2_add (a b : Z) : (pow2 (a + b) == pow2 a * pow2 b)%Q.
Proof. apply Qpower_plus. discriminate. Qed.

Lemma pow2_le (a b : Z) : a <= b -> (pow2 a <= pow2 b)%Q.
Proof. intros H. apply Qpower_le_compat_l; [exact H | discriminate]. Qed.

Lemma pow2_inject (n : Z) : 0 <= n -> (pow2 n == inject_Z (2 ^ n))%Q.
Proof. intros H. unfold pow2. symmetry. apply Zpower_Qpower. exact H. Qed.

Lemma ilog2_spec (x : Q) :
  ~ (x == 0)%Q -> (pow2 (ilog2 x) <= Qabs x /\ Qabs x < pow2 (ilog2 x + 1))%Q.
Proof.
  intros Hx. unfold ilog2.
  set (n := Z.abs (Qnum x)). set (d := Z.pos (Qden x)).
  set (a := Z.log2 n). set (b := Z.log2 d).
  assert (0 < n) as Hn.
  { assert (Qnum x <> 0); [| unfold n; lia].
    intros E. apply Hx. unfold Qeq. rewrite E. reflexivity. }
  assert (0 < d) as Hd by (unfold d; lia).
  destruct (Z.log2_spec n Hn) as [Hn1 Hn2]. fold a in Hn1, Hn2.
  destruct (Z.log2_spec d Hd) as [Hd1 Hd2]. fold b in Hd1, Hd2.
  assert (0 <= a) as Ha by apply Z.log2_nonneg.
  assert (0 <= b) as Hb by apply Z.log2_nonneg.
  assert (Qabs x * inject_Z d == inject_Z n)%Q as Hxd.
  { destruct x as [xn xd]. unfold n, d. cbn [Qabs Qnum Qden].
    unfold Qeq, Qmult, inject_Z. cbn [Qnum Qden]. lia. }
  assert (0 < inject_Z d)%Q as HdQ.
  { change 0%Q with (inject_Z 0). rewrite <- Zlt_Qlt. exact Hd. }
  assert (Hup : (Qabs x < pow2 (a - b + 1))%Q).
  { apply Qmult_lt_r with (z := inject_Z d); [exact HdQ |]. rewrite Hxd.
    apply Qlt_le_trans with (inject_Z (2 ^ (a + 1))).
    - rewrite <- Zlt_Qlt. replace (a + 1) with (Z.succ a) by lia. exact Hn2.
    - rewrite <- pow2_inject by lia.
      replace (a + 1) with (a - b + 1 + b) by lia. rewrite pow2_add.
      apply Qmult_le_l; [apply pow2_pos |].
      rewrite pow2_inject by lia. rewrite <- Zle_Qle. exact Hd1. }
  assert (Hlow : (pow2 (a - b - 1) < Qabs x)%Q).
  { apply Qmult_lt_r with (z := inject_Z d); [exact HdQ |]. rewrite Hxd.
    apply Qlt_le_trans with (pow2 (a - b - 1) * inject_Z (2 ^ (b + 1)))%Q.
    - apply Qmult_lt_l; [apply pow2_pos |].
      rewrite <- Zlt_Qlt. replace (b + 1) with (Z.succ b) by lia. exact Hd2.
    - rewrite <- pow2_inject by lia. rewrite <- pow2_add.
      replace (a - b - 1 + (b + 1)) with a by lia.
      rewrite pow2_inject by lia. rewrite <- Zle_Qle. exact Hn1. }
  destruct (Qle_bool (pow2 (a - b)) (Qabs x)) eqn:E.
  - apply Qle_bool_iff in E. split; [exact E | exact Hup].
  - split; [apply Qlt_le_weak; exact Hlow |].
    replace (a - b - 1 + 1) with (a - b) by lia.
    apply Qnot_le_lt. intros H. apply Qle_bool_iff in H. congruence.
Qed.

(** *** Rounding to the nearest integer, halves to even *)

Lemma round_half_even_cases (s : Q) :
  let f := Qfloor s in
  (round_half_even s = f /\ (s - inject_Z f <= 1 # 2)%Q) \/
  (round_half_even s = f + 1 /\ (1 # 2 <= s - inject_Z f)%Q).
Proof.
  cbv zeta. unfold round_half_even.
  destruct (Qcompare_spec (s - inject_Z (Qfloor s)) (1 # 2)) as [E|E|E].
  - destruct (Z.even (Qfloor s)); [left | right]; split; try reflexivity; rewrite E; lra.
  - left. split; [reflexivity | lra].
  - right. split; [reflexivity | lra].
Qed.

Lemma round_half_even_near (s : Q) :
  (Qabs (inject_Z (round_half_even s) - s) <= 1 # 2)%Q.
Proof.
  pose proof (Qfloor_le s) as H1. pose proof (Qlt_floor s) as H2.
  rewrite inject_Z_plus in H2. change (inject_Z 1) with 1%Q in H2.
  destruct (round_half_even_cases s) as [[-> H]|[-> H]].
  - apply Qabs_case; intros; lra.
  - rewrite inject_Z_plus. change (inject_Z 1) with 1%Q. apply Qabs_case; intros; lra.
Qed.

Lemma round_half_even_integer (m : Z) : round_half_even (inject_Z m) = m.
Proof.
  unfold round_half_even. rewrite Qfloor_Z.
  destruct (Qcompare_spec (inject_Z m - inject_Z m) (1 # 2)) as [E|E|E]; try reflexivity; lra.
Qed.

Lemma round_half_even_monotone (s t : Q) :
  (s <= t)%Q -> round_half_even s <= round_half_even t.
Proof.
  intros Hst.
  pose proof (Qfloor_resp_le _ _ Hst) as Hf.
  destruct (Z.eq_dec (Qfloor s) (Qfloor t)) as [Heq|Hne].
  - unfold round_half_even. rewrite <- Heq.
    destruct (Qcompare_spec (s - inject_Z (Qfloor s)) (1 # 2)) as [E|E|E];
      destruct (Qcompare_spec (t - inject_Z (Qfloor s)) (1 # 2)) as [E'|E'|E'];
      try destruct (Z.even (Qfloor s)); try lia; try lra.
  - destruct (round_half_even_cases s) as [[-> _]|[-> _]];
      destruct (round_half_even_cases t) as [[-> _]|[-> _]]; lia.
Qed.

(** *** The grid of an exponent *)

Lemma fl_on_grid (x : Q) : ~ (x == 0)%Q -> (fl x == on_grid (exponent x) x)%Q.
Proof.
  intros Hx. unfold fl.
  destruct (Qeq_bool x 0) eqn:E; [apply Qeq_bool_iff in E; contradiction |].
  apply Qred_correct.
Qed.

Lemma fl_zero (x : Q) : (x == 0)%Q -> fl x = 0%Q.
Proof.
  intros Hx. unfold fl. apply Qeq_bool_iff in Hx. by rewrite Hx.
Qed.

Lemma on_grid_monotone (e : Z) (x y : Q) :
  (x <= y)%Q -> (on_grid e x <= on_grid e y)%Q.
Proof.
  intros Hxy. unfold on_grid. pose proof (pow2_pos e) as He.
  apply Qmult_le_compat_r; [| lra].
  rewrite <- Zle_Qle. apply round_half_even_monotone.
  unfold Qdiv. apply Qmult_le_compat_r; [exact Hxy |].
  apply Qlt_le_weak, Qinv_lt_0_compat, He.
Qed.

Lemma on_grid_point (e : Z) (m : Z) : (on_grid e (inject_Z m * pow2 e) == inject_Z m * pow2 e)%Q.
Proof.
  unfold on_grid. pose proof (pow2_pos e) as He.
  assert (inject_Z m * pow2 e / pow2 e == inject_Z m)%Q as E by (field; lra).
  assert (round_half_even (inject_Z m * pow2 e / pow2 e) = m) as ->; [| reflexivity].
  rewrite <- (round_half_even_integer m) at 2.
  apply Z.le_antisymm; apply round_half_even_monotone; rewrite E; lra.
Qed.

(** A power of two from the exponent on lies on the grid. *)
Lemma pow2_on_grid (e k : Z) : e <= k -> exists m : Z, (pow2 k == inject_Z m * pow2 e)%Q.
Proof.
  intros H. exists (2 ^ (k - e)).
  rewrite <- pow2_inject by lia. rewrite <- pow2_add. by replace (k - e + e) with k by lia.
Qed.

Lemma on_grid_near (e : Z) (x : Q) :
  (Qabs (on_grid e x - x) <= (1 # 2) * pow2 e)%Q.
Proof.
  unfold on_grid. pose proof (pow2_pos e) as He.
  pose proof (round_half_even_near (x / pow2 e)) as H.
  assert (inject_Z (round_half_even (x / pow2 e)) * pow2 e - x
          == (inject_Z (round_half_even (x / pow2 e)) - x / pow2 e) * pow2 e)%Q as ->
    by (field; lra).
  rewrite Qabs_Qmult, (Qabs_pos (pow2 e)) by lra.
  apply Qmult_le_compat_r; [exact H | lra].
Qed.

Lemma exponent_cases (x : Q) :
  (exponent x = ilog2 x - 52 /\ -1074 <= ilog2 x - 52) \/
  (exponent x = -1074 /\ ilog2 x - 52 < -1074).
Proof. unfold exponent. lia. Qed.

Lemma on_grid_zero (e : Z) : (on_grid e 0 == 0)%Q.
Proof.
  pose proof (on_grid_point e 0) as H.
  assert (inject_Z 0 * pow2 e == 0)%Q as E by (change (inject_Z 0) with 0%Q; ring).
  unfold on_grid in *.
  assert (0 / pow2 e == inject_Z 0 * pow2 e / pow2 e)%Q as E'
    by (change (inject_Z 0) with 0%Q; field; pose proof (pow2_pos e); lra).
  assert (round_half_even (0 / pow2 e) = round_half_even (inject_Z 0 * pow2 e / pow2 e)) as ->.
  { apply Z.le_antisymm; apply round_half_even_monotone; rewrite E'; lra. }
  rewrite H. exact E.
Qed.

Lemma fl_nonneg (x : Q) : (0 <= x)%Q -> (0 <= fl x)%Q.
Proof.
  intros Hx. destruct (Qeq_dec x 0) as [E|Hne].
  - rewrite (fl_zero x E). lra.
  - rewrite (fl_on_grid x Hne). rewrite <- (on_grid_zero (exponent x)).
    by apply on_grid_monotone.
Qed.

Lemma fl_nonpos (x : Q) : (x <= 0)%Q -> (fl x <= 0)%Q.
Proof.
  intros Hx. destruct (Qeq_dec x 0) as [E|Hne].
  - rewrite (fl_zero x E). lra.
  - rewrite (fl_on_grid x Hne). rewrite <- (on_grid_zero (exponent x)).
    by apply on_grid_monotone.
Qed.

(** Between two numbers of different exponents lies a power of two (or
    its opposite) that is on both grids. *)
Lemma fl_monotone_step (x y : Q) :
  ~ (x == 0)%Q -> ~ (y == 0)%Q -> (x <= y)%Q -> exponent x < exponent y ->
  (fl x <= fl y)%Q.
Proof.
  intros Hx Hy Hxy He.
  destruct (ilog2_spec x Hx) as [Hx1 Hx2]. destruct (ilog2_spec y Hy) as [Hy1 Hy2].
  assert (exponent y = ilog2 y - 52 /\ ilog2 x < ilog2 y /\ exponent x <= ilog2 y)
    as (Hey & Hlog & Hex) by (unfold exponent in *; lia).
  assert (pow2 (ilog2 x + 1) <= pow2 (ilog2 y))%Q as Hp by (apply pow2_le; lia).
  assert (0 < y)%Q as Hpos.
  { apply Qnot_le_lt. intros Hneg.
    split_abs x; split_abs y; lra. }
  set (g := pow2 (ilog2 y)).
  assert (x <= g)%Q as Hxg.
  { unfold g. split_abs x; lra. }
  assert (g <= y)%Q as Hgy.
  { unfold g. split_abs y; lra. }
  destruct (pow2_on_grid (exponent x) (ilog2 y) Hex) as [m Hm].
  destruct (pow2_on_grid (exponent y) (ilog2 y)) as [m' Hm']; [lia |].
  rewrite (fl_on_grid x Hx), (fl_on_grid y Hy).
  apply Qle_trans with g.
  - unfold g in *. rewrite Hm. rewrite <- on_grid_point.
    apply on_grid_monotone. by rewrite <- Hm.
  - unfold g in *. rewrite Hm'. rewrite <- on_grid_point.
    apply on_grid_monotone. by rewrite <- Hm'.
Qed.

Lemma fl_monotone_step_neg (x y : Q) :
  ~ (x == 0)%Q -> ~ (y == 0)%Q -> (x <= y)%Q -> exponent y < exponent x ->
  (fl x <= fl y)%Q.
Proof.
  intros Hx Hy Hxy He.
  destruct (ilog2_spec x Hx) as [Hx1 Hx2]. destruct (ilog2_spec y Hy) as [Hy1 Hy2].
  assert (exponent x = ilog2 x - 52 /\ ilog2 y < ilog2 x /\ exponent y <= ilog2 x)
    as (Hey & Hlog & Hex) by (unfold exponent in *; lia).
  assert (pow2 (ilog2 y + 1) <= pow2 (ilog2 x))%Q as Hp by (apply pow2_le; lia).
  assert (x < 0)%Q as Hneg.
  { apply Qnot_le_lt. intros Hpos.
    split_abs x; split_abs y; lra. }
  set (g := (- pow2 (ilog2 x))%Q).
  assert (x <= g)%Q as Hxg.
  { unfold g. split_abs x; lra. }
  assert (g <= y)%Q as Hgy.
  { unfold g. split_abs y; lra. }
  destruct (pow2_on_grid (exponent x) (ilog2 x)) as [m Hm]; [lia |].
  destruct (pow2_on_grid (exponent y) (ilog2 x) Hex) as [m' Hm'].
  assert (g == inject_Z (- m) * pow2 (exponent x))%Q as Hg
    by (unfold g; rewrite Hm, inject_Z_opp; ring).
  assert (g == inject_Z (- m') * pow2 (exponent y))%Q as Hg'
    by (unfold g; rewrite Hm', inject_Z_opp; ring).
  rewrite (fl_on_grid x Hx), (fl_on_grid y Hy).
  apply Qle_trans with g.
  - rewrite Hg. rewrite <- on_grid_point.
    apply on_grid_monotone. by rewrite <- Hg.
  - rewrite Hg'. rewrite <- on_grid_point.
    apply on_grid_monotone. by rewrite <- Hg'.
Qed.

(** Rounding to the nearest double is monotone. *)
Lemma fl_monotone (x y : Q) : (x <= y)%Q -> (fl x <= fl y)%Q.
Proof.
  intros Hxy.
  destruct (Qeq_dec x 0) as [Ex|Hx].
  { rewrite (fl_zero x Ex). apply fl_nonneg. lra. }
  destruct (Qeq_dec y 0) as [Ey|Hy].
  { rewrite (fl_zero y Ey). apply fl_nonpos. lra. }
  destruct (Z.lt_trichotomy (exponent x) (exponent y)) as [Hlt|[Heq|Hgt]].
  - by apply fl_monotone_step.
  - rewrite (fl_on_grid x Hx), (fl_on_grid y Hy), Heq. by apply on_grid_monotone.
  - by apply fl_monotone_step_neg.
Qed.

(** The error of rounding: half a unit in the last place, relative
    [2^-53] for a normal number and absolute [2^-1075] below. *)
Lemma fl_near (x : Q) :
  (Qabs (fl x - x) <= Qabs x * pow2 (-53) + pow2 (-1075))%Q.
Proof.
  pose proof (pow2_pos (-53)) as Hu. pose proof (pow2_pos (-1075)) as Heta.
  pose proof (Qabs_nonneg x) as Hax.
  destruct (Qeq_dec x 0) as [E|Hx].
  { rewrite (fl_zero x E).
    assert (Qabs (0 - x) == 0)%Q as -> by (rewrite E; reflexivity). nra. }
  rewrite (fl_on_grid x Hx).
  pose proof (on_grid_near (exponent x) x) as H.
  destruct (ilog2_spec x Hx) as [Hl _].
  destruct (exponent_cases x) as [[He _]|[He _]]; rewrite He in H |- *.
  - assert ((1 # 2) * pow2 (ilog2 x - 52) == pow2 (ilog2 x) * pow2 (-53))%Q as E.
    { replace (ilog2 x - 52) with (ilog2 x + -53 + 1) by lia.
      rewrite !pow2_add. change (pow2 1) with 2%Q. ring. }
    rewrite E in H.
    assert (pow2 (ilog2 x) * pow2 (-53) <= Qabs x * pow2 (-53))%Q
      by (apply Qmult_le_compat_r; lra).
    lra.
  - assert ((1 # 2) * pow2 (-1074) == pow2 (-1075))%Q as E.
    { replace (-1074) with (-1075 + 1) by lia.
      rewrite pow2_add. change (pow2 1) with 2%Q. ring. }
    rewrite E in H. nra.
Qed.

Lemma fl_bounds (z : Q) :
  (z - (Qabs z * (1 # 9007199254740992) + (1 # 1000000000000000000000000000000)) <= fl z /\
   fl z <= z + (Qabs z * (1 # 9007199254740992) + (1 # 1000000000000000000000000000000)))%Q.
Proof.
  pose proof (fl_near z) as H.
  assert (pow2 (-53) == 1 # 9007199254740992)%Q as Eu by (vm_compute; reflexivity).
  assert (pow2 (-1075) <= 1 # 1000000000000000000000000000000)%Q as Eeta
    by (apply Qle_bool_iff; vm_compute; reflexivity).
  rewrite Eu in H.
  split_abs (fl z - z)%Q; lra.
Qed.

(** [fl] and the operations of the conversion to miles against the
    binary64 operations of the standard library: at the literal
    1609.344, at distances between two tenths of a mile (every twentieth
    of a mile up to 25 miles) and at distances of all sizes. *)
Example fl_agrees_with_binary64 : forallb agrees_with_binary64 sample_distances = true.
Proof. vm_compute. reflexivity. Qed.

End DoubleFacts.

(** ** The route-miles endpoint *)

Section RouteMilesFacts.

Import Json Http RouteMiles.

Variable number_to_string : number -> string.
Variable osrm : string -> fetched osrm_response.

Lemma Math_round_nearest (x : Q) :
  (x - (1 # 2) < Math_round x /\ Math_round x <= x + (1 # 2))%Q.
Proof.
  unfold Math_round. split.
  - pose proof (Qlt_floor (x + (1 # 2))) as H.
    rewrite inject_Z_plus in H. change (inject_Z 1) with 1%Q in H.
    apply Qplus_lt_l with (z := 1%Q).
    eapply Qle_lt_trans; [| exact H]. ring_simplify. apply Qle_refl.
  - apply Qfloor_le.
Qed.


Lemma Math_round_monotone (x y : Q) : (x <= y)%Q -> (Math_round x <= Math_round y)%Q.
Proof.
  intros Hxy. unfold Math_round. rewrite <- Zle_Qle. apply Qfloor_resp_le.
  by apply Qplus_le_l.
Qed.

Lemma meters_per_mile_double :
  Double.fl meters_per_mile = (1769492441091539 # 1099511627776)%Q.
Proof. vm_compute. reflexivity. Qed.


(** The tenths of a mile of the reply are an integer within a half of
    ten times the exact quotient, up to the rounding of the four
    operations on doubles. *)
Lemma to_miles_accuracy (meters : Q) :
  exists k : Z,
    to_miles meters = Double.fl (inject_Z k / 10) /\
    let tenths := (meters / meters_per_mile * 10)%Q in
    (Qabs (inject_Z k - tenths) <= (1 # 2) + (1 + Qabs tenths) * (1 # 1000000000000000))%Q.
Proof.
  unfold to_miles, Double.div, Double.mul.
  set (d := Double.fl meters).
  set (c := Double.fl meters_per_mile).
  set (q1 := Double.fl (d / c)).
  set (q2 := Double.fl (q1 * 10)).
  exists (Qfloor (q2 + (1 # 2))). split; [reflexivity |].
  cbv zeta.
  assert (d / c == d * (1099511627776 # 1769492441091539))%Q as Ha.
  { unfold c. rewrite meters_per_mile_double. unfold Qdiv. reflexivity. }
  assert (meters / meters_per_mile * 10 == meters * (10000 # 1609344))%Q as Ht.
  { unfold meters_per_mile. field. }
  rewrite Ht.
  pose proof (Math_round_nearest q2) as Hk. unfold Math_round in Hk.
  destruct (fl_bounds meters) as [Hd1 Hd2]. fold d in Hd1, Hd2.
  destruct (fl_bounds (d / c)) as [Hq1 Hq1']. fold q1 in Hq1, Hq1'.
  destruct (fl_bounds (q1 * 10)) as [Hq2 Hq2']. fold q2 in Hq2, Hq2'.
  destruct (Qlt_le_dec meters 0) as [Hneg|Hpos].
  - assert (d <= 0)%Q as Hd by (apply fl_nonpos; lra).
    assert (q1 <= 0)%Q as Hq by (apply fl_nonpos; rewrite Ha; lra).
    rewrite (Qabs_neg meters) in * by lra.
    rewrite (Qabs_neg (d / c)) in * by (rewrite Ha; lra).
    rewrite (Qabs_neg (q1 * 10)) in * by lra.
    rewrite Ha in *.
    rewrite (Qabs_neg (meters * _)) by lra.
    split_abs (inject_Z (Qfloor (q2 + (1 # 2))) - meters * (10000 # 1609344))%Q; lra.
  - assert (0 <= d)%Q as Hd by (apply fl_nonneg; lra).
    assert (0 <= q1)%Q as Hq by (apply fl_nonneg; rewrite Ha; lra).
    rewrite (Qabs_pos meters) in * by lra.
    rewrite (Qabs_pos (d / c)) in * by (rewrite Ha; lra).
    rewrite (Qabs_pos (q1 * 10)) in * by lra.
    rewrite Ha in *.
    rewrite (Qabs_pos (meters * _)) by lra.
    split_abs (inject_Z (Qfloor (q2 + (1 # 2))) - meters * (10000 # 1609344))%Q; lra.
Qed.

(** C8 (amended). When the routing service answers with a distance that
    is a number within the range of the doubles, the endpoint replies 200
    with [Math.round(miles * 10) / 10], [miles] being the distance
    divided by 1609.344, each operation in the arithmetic of doubles: the
    reply is the double nearest to a tenth [k / 10], and the integer [k]
    is within a half of ten times the exact quotient, up to the rounding
    of the operations (a relative [10^-15]); at a distance that lies
    between two tenths, or within that rounding of it, either tenth may
    result. A distance beyond the doubles is read as an infinity and
    the reply is 200 with [miles] null. When the distance of the answer
    is not a number, the endpoint replies with the error 502 and no
    miles. *)
Theorem route_miles_conversion
    (request : option value) (coords : list (number * number))
    (resp : osrm_response) (json : value) :
  validate request = inr coords ->
  osrm (url_of number_to_string coords) = Responded resp ->
  osrm_ok resp = true ->
  osrm_json resp = inr json ->
  match distance_of json with
  | Some (JNum meters) =>
      if isFinite (clamp meters) then
        let miles := Double.div (Double.fl meters) (Double.fl (1609344 # 1000)) in
        let rounded := Double.div (Math_round (Double.mul miles 10)) 10 in
        POST number_to_string osrm request = Reply 200 (JObj [("miles", JNum rounded)]) /\
        exists k : Z,
          rounded = Double.fl (inject_Z k / 10) /\
          let tenths := (meters / (1609344 # 1000) * 10)%Q in
          (Qabs (inject_Z k - tenths)
           <= (1 # 2) + (1 + Qabs tenths) * (1 # 1000000000000000))%Q
      else
        POST number_to_string osrm request = Reply 200 (JObj [("miles", JNull)])
  | _ =>
      POST number_to_string osrm request
        = error_reply 502 "OSRM did not return a distance"
  end.
Proof.
  intros Hvalid Hosrm Hok Hjson.
  unfold POST, route. rewrite Hvalid, Hosrm, Hok, Hjson. cbn [negb].
  destruct (distance_of json) as [[| | meters | | |]|]; try reflexivity.
  destruct (isFinite (clamp meters)); [| reflexivity].
  split; [reflexivity |]. apply to_miles_accuracy.
Qed.

(** The replies of the endpoint after validation are never 400. *)
Lemma route_status (coords : list (number * number)) :
  reply_status (route number_to_string osrm coords) <> 400%N.
Proof.
  unfold route.
  destruct (osrm _) as [m|resp]; [done |].
  destruct (negb (osrm_ok resp)); [done |].
  destruct (osrm_json resp) as [m|json]; [done |].
  destruct (distance_of json) as [[| | meters | | |]|]; try done.
  by destruct (isFinite (clamp meters)).
Qed.


End RouteMilesFacts.

(** ** [confirm] served by the endpoint *)

Section ServedFacts.

Import Json Http Postcode RouteModal.

Variable LocalTZA : Z.
Variable engine_parse : string -> option Z.
Variable range_error_message : string.
Variable number_to_string : number -> string.
Variable geocode_service : list string -> fetched (response GeoJson).
Variable osrm : string -> fetched RouteMiles.osrm_response.

#[local] Abbreviation final_stop := (final_stop LocalTZA engine_parse range_error_message).
#[local] Abbreviation final_stops := (final_stops LocalTZA engine_parse range_error_message).
#[local] Abbreviation time_readable := (time_readable LocalTZA engine_parse).









End ServedFacts.

(** ** The scenario, run *)

Section ScenarioRuns.

Import Json Http Postcode RouteModal Scenario.



(** The amended C5 at a submission with two postcodes unknown to the
    geocoder, and with two whose results hold no numbers. *)
Lemma unresolved_postcodes_reported_scenario :
  confirm 0 strict_parse invalid_time geocoder route_miles_ok drafts_unknown
  = (ErrorShown "Postcode(s) not found: XX1 1XX, YY2 2YY",
     [GeocodeCall ["WN50LR"; "XX11XX"; "YY22YY"]]) /\
  confirm 0 strict_parse invalid_time geocoder_partial route_miles_ok drafts_unknown
  = (ErrorShown "Missing coordinates for: XX1 1XX",
     [GeocodeCall ["WN50LR"; "XX11XX"; "YY22YY"]]).
Proof.
  split.
  - destruct (unresolved_postcodes_reported 0 strict_parse invalid_time geocoder
                route_miles_ok drafts_unknown 200 (Some geo_body)) as (Hmissing & _ & _).
    + vm_compute. lia.
    + reflexivity.
    + destruct Hmissing as [-> _]; [| reflexivity].
      exists "XX11XX". split; [| vm_compute; reflexivity].
      apply list_elem_of_In. vm_compute. tauto.
  - destruct (unresolved_postcodes_reported 0 strict_parse invalid_time geocoder_partial
                route_miles_ok drafts_unknown 200 (Some geo_body_partial))
      as (_ & Hnull & _).
    + vm_compute. lia.
    + reflexivity.
    + rewrite (Hnull ltac:(repeat constructor; eexists; vm_compute; reflexivity)
                     ltac:(repeat constructor; left; reflexivity)
                     (draft "xx1 1xx" "Stop") eq_refl).
      reflexivity.
Defined.

(** C5 as stated fails for results without numbers: two submitted
    postcodes have no coordinate, the error names the first only, and
    not as a postcode that was not found. *)
Lemma missing_coordinates_names_first_only :
  submitted_postcodes drafts_unknown = ["WN50LR"; "XX11XX"; "YY22YY"] /\
  geocoder_partial (submitted_postcodes drafts_unknown)
    = Responded (Response true 200 (Some geo_body_partial)) /\
  coordinate known_partial "XX11XX" = None /\
  coordinate known_partial "YY22YY" = None /\
  confirm 0 strict_parse invalid_time geocoder_partial route_miles_ok drafts_unknown
  = (ErrorShown "Missing coordinates for: XX1 1XX",
     [GeocodeCall ["WN50LR"; "XX11XX"; "YY22YY"]]).
Proof. repeat split; vm_compute; reflexivity. Qed.

(** C6 as stated fails at the scenario of the specification: the batch
    of the geocoding call holds the collection key twice. *)
Lemma geocode_batch_not_deduplicated :
  exists batch,
    GeocodeCall batch
      ∈ snd (confirm 0 strict_parse invalid_time geocoder route_miles_ok drafts) /\
    batch = ["WN50LR"; "WS138NF"; "WN50LR"] /\
    ~ NoDup batch.
Proof.
  exists ["WN50LR"; "WS138NF"; "WN50LR"]. split; [| split; [reflexivity |]].
  - apply list_elem_of_In. left. vm_compute. reflexivity.
  - intros Hnodup. apply NoDup_cons in Hnodup as [Hnotin _].
    apply Hnotin. apply list_elem_of_In. vm_compute. tauto.
Qed.

(** The amended C8 at an answer of 170992.8 metres, which is 106.25
    miles. *)
Lemma route_miles_conversion_scenario :
  let miles := Double.div (Double.fl 170992.8) (Double.fl (1609344 # 1000)) in
  let rounded := Double.div (RouteMiles.Math_round (Double.mul miles 10)) 10 in
  RouteMiles.POST show_number (osrm_answering 170992.8) (Some request_good)
    = RouteMiles.Reply 200 (JObj [("miles", JNum rounded)]) /\
  exists k : Z,
    rounded = Double.fl (inject_Z k / 10) /\
    let tenths := (170992.8 / (1609344 # 1000) * 10)%Q in
    (Qabs (inject_Z k - tenths) <= (1 # 2) + (1 + Qabs tenths) * (1 # 1000000000000000))%Q.
Proof.
  exact (route_miles_conversion show_number (osrm_answering 170992.8) (Some request_good)
           [(Fin 53.5%Q, Fin (-2.7)%Q); (Fin 52.7%Q, Fin (-1.8)%Q)]
           (RouteMiles.OsrmResponse true 200 None
              (inr (JObj [("code", JStr "Ok");
                          ("routes", JArr [JObj [("distance", JNum 170992.8)]])])))
           (JObj [("code", JStr "Ok"); ("routes", JArr [JObj [("distance", JNum 170992.8)]])])
           eq_refl eq_refl eq_refl eq_refl).
Defined.

(** At that distance the exact quotient lies between two tenths, 106.2
    and 106.3, and [Math.round] of the exact product would go up; the
    quotient of the doubles is below 106.25 and the reply is the double
    of 106.2. At 321868.8 metres the reply is 200 miles. *)
Example route_miles_between_tenths :
  (170992.8 / (1609344 # 1000) * 10 == 1062 + (1 # 2))%Q /\
  (RouteMiles.Math_round (170992.8 / (1609344 # 1000) * 10) == 1063)%Q /\
  RouteMiles.POST show_number (osrm_answering 170992.8) (Some request_good)
    = RouteMiles.Reply 200 (JObj [("miles", JNum (Double.fl 106.2))]) /\
  RouteMiles.POST show_number osrm_route (Some request_good)
    = RouteMiles.Reply 200 (JObj [("miles", JNum 200)]).
Proof. split; [reflexivity |]. split; [reflexivity |]. split; vm_compute; reflexivity. Qed.

(** C8 as stated fails at a distance beyond the doubles: the distance of
    the answer is a number, yet the reply carries neither its miles nor
    an error. *)
Lemma route_miles_overflow_distance :
  let json := JObj [("code", JStr "Ok"); ("routes", JArr [JObj [("distance", JNum 1e400)]])] in
  is_number (RouteMiles.distance_of json) = true /\
  RouteMiles.POST show_number (osrm_answering 1e400) (Some request_good)
    = RouteMiles.Reply 200 (JObj [("miles", JNull)]).
Proof. split; vm_compute; reflexivity. Qed.


(** An entry whose latitude lies beyond the doubles is read as an
    infinity and dropped; a single entry remains and the request is
    rejected. *)
Example route_miles_overflow_entry_dropped :
  RouteMiles.POST show_number osrm_route
    (Some (JObj [("coords", JArr [entry (JNum 1e400) (JNum 0);
                                  entry (JNum 53.5) (JNum (-2.7))])]))
  = RouteMiles.error_reply 400 "coords[] must contain valid lat/lng values".
Proof. vm_compute. reflexivity. Qed.


End ScenarioRuns.

(** ** Pay calculator *)

Section PayFacts.

Import DriverPay.

Variable entries : list DayEntry.
Variable d : DriverRow.
Hypothesis Hshift : pay_type d = shift.

Lemma inject_count_cons (p : string -> bool) (day : string) (l : list string) :
  (inject_Z (Z.of_nat (length (List.filter p (day :: l))))
   == inject_Z (Z.of_nat (length (List.filter p l))) + (if p day then 1 else 0))%Q.
Proof.
  cbn [List.filter]. destruct (p day); cbn [length].
  - rewrite Nat2Z.inj_succ, <- Z.add_1_r, inject_Z_plus. reflexivity.
  - rewrite Qplus_0_r. reflexivity.
Qed.

(** One iteration for a shift driver: a work or leave day adds its
    shifts, an off or sick day one unpaid unit. *)
Lemma week_step_shift (acc : totals) (day : string) :
  let acc' := week_step entries d acc day in
  let add (p : DayStatus -> bool) :=
    match getEntry entries (id d) day with
    | Some entry => if p (status entry) then default 1%Q (shifts entry) else 0%Q
    | None => 0%Q
    end in
  (t_workUnits acc' == t_workUnits acc + add is_work /\
   t_leaveUnits acc' == t_leaveUnits acc + add is_leave /\
   t_unpaidUnits acc'
   == t_unpaidUnits acc + (if has_status entries d is_unpaid day then 1 else 0))%Q.
Proof.
  cbv zeta. unfold week_step, has_status.
  destruct (getEntry entries (id d) day) as [entry|].
  2:{ rewrite !Qplus_0_r. repeat split; reflexivity. }
  destruct acc as [wu lu uu hw hl hu].
  destruct (decide (pay_type d = shift)) as [_|n]; [| by destruct n].
  destruct (status entry); cbn; rewrite ?Qplus_0_r; repeat split; reflexivity.
Qed.

Lemma week_loop_shift (weekDates : list string) :
  forall acc,
  let acc' := foldl (week_step entries d) acc weekDates in
  (t_workUnits acc' == t_workUnits acc + shifts_with entries d is_work weekDates /\
   t_leaveUnits acc' == t_leaveUnits acc + shifts_with entries d is_leave weekDates /\
   t_unpaidUnits acc' == t_unpaidUnits acc + days_with entries d is_unpaid weekDates)%Q.
Proof.
  induction weekDates as [|day l IH]; intros acc; cbv zeta.
  { unfold days_with. cbn. rewrite !Qplus_0_r. repeat split; reflexivity. }
  destruct (IH (week_step entries d acc day)) as (Hw & Hl & Hu).
  destruct (week_step_shift acc day) as (Hw1 & Hl1 & Hu1).
  cbv zeta in *. cbn [foldl]. unfold days_with in *.
  rewrite inject_count_cons.
  rewrite Hw, Hl, Hu, Hw1, Hl1, Hu1.
  repeat split; try ring; unfold shifts_with; cbn [foldr];
    destruct (getEntry entries (id d) day) as [entry|]; try ring;
    destruct (is_work (status entry)), (is_leave (status entry)); ring.
Qed.

(** In a week whose work and leave entries record one shift or none,
    the shifts of the days of a status are the days of that status. *)
Lemma shifts_with_one_shift (p : DayStatus -> bool) (weekDates : list string) :
  (forall s, p s = true -> s = work \/ s = leave) ->
  Forall (one_shift_recorded entries d) weekDates ->
  (shifts_with entries d p weekDates == days_with entries d p weekDates)%Q.
Proof.
  intros Hp Hall. induction Hall as [|day l Hday _ IH].
  { reflexivity. }
  unfold days_with in *. rewrite inject_count_cons, <- IH.
  unfold shifts_with, has_status. cbn [foldr].
  destruct (getEntry entries (id d) day) as [entry|] eqn:E; [| ring].
  destruct (p (status entry)) eqn:Ep; [| ring].
  rewrite (Hday entry E (Hp _ Ep)). ring.
Qed.

(** C4 (amended). For a shift driver, whatever hours are recorded, each
    work day adds its recorded shifts to the work units and each leave
    day its recorded shifts to the leave units, a day that records no
    shifts value adding one; each off or sick day adds one unpaid unit;
    the amount is [(workUnits + leaveUnits) * payRate]. In a week in
    which every work and leave entry records one shift (as the
    application writes it) or none, the work units are the work days and
    the leave units the leave days. *)
Theorem shift_week_units (weekDates : list string) :
  let w := computeDriverWeek entries weekDates d in
  (workUnits w == shifts_with entries d is_work weekDates /\
   leaveUnits w == shifts_with entries d is_leave weekDates /\
   unpaidUnits w == days_with entries d is_unpaid weekDates /\
   amount w == (workUnits w + leaveUnits w) * default 0 (pay_rate d))%Q /\
  (Forall (one_shift_recorded entries d) weekDates ->
   (workUnits w == days_with entries d is_work weekDates /\
    leaveUnits w == days_with entries d is_leave weekDates)%Q).
Proof.
  cbv zeta.
  destruct (week_loop_shift weekDates (Totals 0 0 0 0 0 0)) as (Hw & Hl & Hu).
  unfold computeDriverWeek.
  destruct (foldl _ _ weekDates) as [wu lu uu hw hl hu].
  cbn [t_workUnits t_leaveUnits t_unpaidUnits] in *.
  destruct (decide (pay_type d = shift)) as [_|n]; [| by destruct n].
  cbn [workUnits leaveUnits unpaidUnits amount].
  rewrite Hw, Hl, Hu, !Qplus_0_l. split; [repeat split; reflexivity |].
  intros Hall. split; apply shifts_with_one_shift; try done.
  - intros s Hs. left. by apply bool_decide_eq_true in Hs.
  - intros s Hs. right. by apply bool_decide_eq_true in Hs.
Qed.

End PayFacts.

Section PayScenario.

Import DriverPay Scenario.

(** The amended C4 at the week of the specification: two work units, one
    leave unit, two unpaid units, 300 to pay. *)
Lemma shift_week_units_scenario :
  let w := computeDriverWeek week_entries week driver in
  (workUnits w == 2 /\ leaveUnits w == 1 /\ unpaidUnits w == 2 /\ amount w == 300)%Q.
Proof.
  assert (Hone : Forall (one_shift_recorded week_entries driver) week).
  { unfold week.
    repeat (apply List.Forall_cons;
            [intros entry Hget Hst; vm_compute in Hget; inversion Hget; subst;
             first [reflexivity | destruct Hst; discriminate] |]).
    apply List.Forall_nil. }
  destruct (shift_week_units week_entries driver eq_refl week)
    as ((_ & _ & Hu & Ha) & Hdays).
  destruct (Hdays Hone) as (Hw & Hl).
  cbv zeta. split; [| split; [| split]].
  - rewrite Hw. reflexivity.
  - rewrite Hl. reflexivity.
  - rewrite Hu. reflexivity.
  - rewrite Ha, Hw, Hl. reflexivity.
Defined.

(** C4 as stated fails for a work day stored with zero shifts: the day
    adds its [shifts] value, not one unit, and nothing is due. *)
Lemma shift_week_zero_shift :
  let w := computeDriverWeek entries_no_shift week driver in
  (days_with entries_no_shift driver is_work week == 1 /\
   workUnits w == 0 /\ ~ workUnits w == 1 /\ amount w == 0)%Q.
Proof.
  cbv zeta. vm_compute. repeat split; try reflexivity; discriminate.
Qed.

(** A work day stored with two shifts counts two units, whatever its
    hours. *)
Example shift_week_two_shifts :
  let w := computeDriverWeek [day_entry "2025-01-06" work (Some 2%Q) (Some 8%Q)] week driver in
  (workUnits w == 2 /\ leaveUnits w == 0 /\ amount w == 200)%Q.
Proof. vm_compute. repeat split; reflexivity. Qed.

End PayScenario.

(** ** Completed-job sync reconciler *)

Section SyncFacts.

Import DriverPay.

Variable in_week : string -> bool.
Variable new_id : gmap row_key stored -> string.

#[local] Abbreviation upsert := (upsert new_id).
#[local] Abbreviation load_entries := (load_entries in_week).
#[local] Abbreviation load := (load in_week).
#[local] Abbreviation sync_step := (sync_step new_id).
#[local] Abbreviation selected := (selected in_week).
#[local] Abbreviation syncFromCompletedJobs := (syncFromCompletedJobs in_week new_id).

(** The keys of [entriesByDriverDate] are the keys of the entries. *)
Lemma snapshot_is_Some (l : list DayEntry) (k : string) :
  is_Some (entriesByDriverDate l !! k) <-> exists e, e ∈ l /\ key_of e = k.
Proof.
  unfold entriesByDriverDate.
  assert (forall m : gmap string DayEntry,
            is_Some (foldl (fun m e => <[key_of e := e]> m) m l !! k)
            <-> is_Some (m !! k) \/ exists e, e ∈ l /\ key_of e = k) as Hgen.
  { induction l as [|e l IH]; intros m; cbn [foldl].
    - split; [by left | intros [H|(e & He & _)]; [done | by apply not_elem_of_nil in He]].
    - rewrite IH. split.
      + intros [H|(e' & He' & Hk)].
        * destruct (decide (key_of e = k)) as [Heq|Hne].
          -- right. exists e. split; [by left | done].
          -- rewrite lookup_insert_ne in H by done. by left.
        * right. exists e'. split; [by right | done].
      + intros [H|(e' & He' & Hk)].
        * left. destruct (decide (key_of e = k)) as [->|Hne].
          -- rewrite lookup_insert_eq. eauto.
          -- by rewrite lookup_insert_ne.
        * apply elem_of_cons in He' as [->|He'].
          -- left. rewrite <- Hk, lookup_insert_eq. eauto.
          -- right. eauto. }
  rewrite (Hgen ∅), lookup_empty. split; [intros [H|H] | intros H; by right].
  - by destruct H.
  - done.
Qed.

Lemma load_entries_elem (t : gmap row_key stored) (e : DayEntry) :
  e ∈ load_entries t <->
  exists k v, t !! k = Some v /\ to_entry (k, v) = e /\ in_week (entry_date e) = true.
Proof.
  unfold DriverPay.load_entries. rewrite list_elem_of_filter, list_elem_of_fmap.
  split.
  - intros (Hw & [k v] & -> & Hin). apply elem_of_map_to_list in Hin. eauto.
  - intros (k & v & Hkv & <- & Hw). split; [done |].
    exists (k, v). split; [done |]. by apply elem_of_map_to_list.
Qed.

(** A row of the week is in the snapshot. *)
Lemma snapshot_covers (t : gmap row_key stored) (o dr dt : string) (v : stored) :
  t !! (o, dr, dt) = Some v -> in_week dt = true ->
  is_Some (entriesByDriverDate (load_entries t) !! entry_key dr dt).
Proof.
  intros Hrow Hw. apply snapshot_is_Some.
  exists (to_entry ((o, dr, dt), v)). split; [| reflexivity].
  apply load_entries_elem. exists (o, dr, dt), v. by repeat split.
Qed.

(** A key of the snapshot is the key of a row of the week. *)
Lemma snapshot_sound (t : gmap row_key stored) (k : string) :
  is_Some (entriesByDriverDate (load_entries t) !! k) ->
  exists o dr dt v,
    t !! (o, dr, dt) = Some v /\ in_week dt = true /\ entry_key dr dt = k.
Proof.
  intros (e & He & Hk)%snapshot_is_Some.
  apply load_entries_elem in He as ([[o dr] dt] & v & Hrow & <- & Hw).
  exists o, dr, dt, v. by repeat split.
Qed.

(** An iteration leaves the table alone, or finds no entry under the key
    of the signal and upserts the automatic work entry. *)
Lemma sync_step_cases (user_id : string) (snapshot : gmap string DayEntry)
    (t : gmap row_key stored) (r : CompletedJobDay) :
  sync_step user_id snapshot t r = t \/
  (snapshot !! entry_key (job_driver_id r) (job_entry_date r) = None /\
   sync_step user_id snapshot t r = upsert (auto_payload user_id r) t).
Proof.
  unfold DriverPay.sync_step.
  destruct (negb (Js.truthy (job_driver_id r)) || negb (Js.truthy (job_entry_date r)));
    [by left |].
  destruct (snapshot !! entry_key (job_driver_id r) (job_entry_date r)) as [e|] eqn:E.
  - left. destruct (status e) eqn:Es; cbn; try reflexivity.
    destruct (is_manual (Some e)); [reflexivity |].
    cbn. rewrite Es. rewrite bool_decide_eq_true_2 by done. reflexivity.
  - right. split; [done |]. reflexivity.
Qed.

Lemma sync_step_skip (user_id : string) (snapshot : gmap string DayEntry)
    (t : gmap row_key stored) (r : CompletedJobDay) :
  is_Some (snapshot !! entry_key (job_driver_id r) (job_entry_date r)) ->
  sync_step user_id snapshot t r = t.
Proof.
  intros [e He]. destruct (sync_step_cases user_id snapshot t r) as [H|[Hnone _]];
    [done | congruence].
Qed.

Lemma upsert_other (p : payload) (t : gmap row_key stored) (k : row_key) :
  k <> (p_owner_id p, p_driver_id p, p_entry_date p) ->
  upsert p t !! k = t !! k.
Proof. intros Hne. unfold DriverPay.upsert. by rewrite lookup_insert_ne. Qed.

Lemma upsert_is_Some (p : payload) (t : gmap row_key stored) (k : row_key) :
  is_Some (t !! k) -> is_Some (upsert p t !! k).
Proof.
  intros H. unfold DriverPay.upsert.
  destruct (decide ((p_owner_id p, p_driver_id p, p_entry_date p) = k)) as [->|Hne].
  - rewrite lookup_insert_eq. eauto.
  - by rewrite lookup_insert_ne.
Qed.

Lemma upsert_key (p : payload) (t : gmap row_key stored) :
  is_Some (upsert p t !! (p_owner_id p, p_driver_id p, p_entry_date p)).
Proof. unfold DriverPay.upsert. rewrite lookup_insert_eq. eauto. Qed.

Lemma selected_in_week (user_id : string) (view : list CompletedJobDay) r :
  r ∈ selected user_id view -> in_week (job_entry_date r) = true.
Proof. unfold DriverPay.selected. rewrite list_elem_of_filter. tauto. Qed.

(** The loop changes no row that the table held when the entries were
    loaded. *)
Lemma sync_loop_keeps_rows (user_id : string) (t0 : gmap row_key stored) (k : row_key) (v : stored)
    (l : list CompletedJobDay) :
  t0 !! k = Some v ->
  Forall (fun r => in_week (job_entry_date r) = true) l ->
  forall t : gmap row_key stored, t !! k = Some v ->
  foldl (sync_step user_id (entriesByDriverDate (load_entries t0))) t l !! k = Some v.
Proof.
  intros H0 Hl. induction Hl as [|r l Hr _ IH]; intros t Ht; [done |].
  cbn [foldl]. apply IH.
  destruct (sync_step_cases user_id (entriesByDriverDate (load_entries t0)) t r)
    as [->|[Hnone ->]]; [done |].
  rewrite upsert_other; [done |].
  cbn. intros ->.
  destruct (snapshot_covers t0 _ _ _ _ H0 Hr) as [e He]. congruence.
Qed.

(** Run on a page that has just been loaded, the reconciler leaves
    every existing day entry whose status is leave, off or sick, and
    every existing entry whose notes begin with the manual marker, as it
    was, whatever the signals. *)
Theorem sync_keeps_protected_and_manual
    (who : auth) (view : list CompletedJobDay) (t : gmap row_key stored)
    (k : row_key) (v : stored) :
  t !! k = Some v ->
  isProtectedStatus (st_status v) = true \/
    (exists n, st_notes v = Some n /\ Js.startsWith n "Manual:" = true) ->
  table (syncFromCompletedJobs who view (load t)) !! k = Some v.
Proof.
  intros Hrow _. destruct who as [m| |user_id]; [done | done |].
  unfold DriverPay.syncFromCompletedJobs, DriverPay.load. cbn [table entries].
  apply sync_loop_keeps_rows; [done | | done].
  apply Forall_forall. intros r. apply selected_in_week.
Qed.

(** After the loop every signal finds an entry: the one the snapshot
    held, or the row of its own key. *)
Lemma sync_loop_monotone (user_id : string) (snapshot : gmap string DayEntry) (k : row_key)
    (l : list CompletedJobDay) :
  forall t : gmap row_key stored, is_Some (t !! k) -> is_Some (foldl (sync_step user_id snapshot) t l !! k).
Proof.
  induction l as [|r l IH]; intros t Ht; [done |].
  cbn [foldl]. apply IH.
  destruct (sync_step_cases user_id snapshot t r) as [->|[_ ->]]; [done |].
  by apply upsert_is_Some.
Qed.

Lemma sync_loop_covers (user_id : string) (snapshot : gmap string DayEntry) (r : CompletedJobDay)
    (l : list CompletedJobDay) :
  r ∈ l ->
  forall t : gmap row_key stored,
  is_Some (snapshot !! entry_key (job_driver_id r) (job_entry_date r)) \/
  is_Some (foldl (sync_step user_id snapshot) t l !! (user_id, job_driver_id r, job_entry_date r))
  \/ negb (Js.truthy (job_driver_id r)) || negb (Js.truthy (job_entry_date r)) = true.
Proof.
  induction l as [|r' l IH]; intros Hin t; [by apply not_elem_of_nil in Hin |].
  apply elem_of_cons in Hin as [<-|Hin]; [| by apply IH].
  cbn [foldl].
  destruct (negb (Js.truthy (job_driver_id r)) || negb (Js.truthy (job_entry_date r)))
    eqn:Ev; [by right; right |].
  destruct (snapshot !! entry_key (job_driver_id r) (job_entry_date r)) as [e|] eqn:E;
    [left; eauto |].
  right. left. apply sync_loop_monotone.
  unfold DriverPay.sync_step. rewrite Ev, E. cbn.
  apply (upsert_key (auto_payload user_id r)).
Qed.

Lemma sync_step_invalid (user_id : string) (snapshot : gmap string DayEntry)
    (t : gmap row_key stored) (r : CompletedJobDay) :
  negb (Js.truthy (job_driver_id r)) || negb (Js.truthy (job_entry_date r)) = true ->
  sync_step user_id snapshot t r = t.
Proof. intros H. unfold DriverPay.sync_step. by rewrite H. Qed.

(** C3. The reconciler is idempotent: run on the page it has just
    produced, with the same signals, it produces that page again. *)
Theorem sync_idempotent
    (who : auth) (view : list CompletedJobDay) (t : gmap row_key stored) :
  syncFromCompletedJobs who view (syncFromCompletedJobs who view (load t))
  = syncFromCompletedJobs who view (load t).
Proof.
  destruct who as [m| |user_id]; [reflexivity | reflexivity |].
  unfold DriverPay.syncFromCompletedJobs, DriverPay.load. cbn [table entries].
  set (snapshot0 := entriesByDriverDate (load_entries t)).
  set (l := selected user_id view).
  set (t1 := foldl (sync_step user_id snapshot0) t l).
  enough (foldl (sync_step user_id (entriesByDriverDate (load_entries t1))) t1 l = t1)
    as -> by reflexivity.
  assert (Hall : forall r, r ∈ l ->
            sync_step user_id (entriesByDriverDate (load_entries t1)) t1 r = t1).
  { intros r Hr.
    pose proof (selected_in_week _ _ _ Hr) as Hw.
    destruct (sync_loop_covers user_id snapshot0 r l Hr t) as [Hsnap|[Hrow|Hinv]].
    - apply sync_step_skip.
      apply snapshot_sound in Hsnap as (o & dr & dt & v & Hrow & Hwk & Hk).
      rewrite <- Hk. apply (snapshot_covers t1 o dr dt v); [| done].
      apply sync_loop_keeps_rows; [done | | done].
      apply Forall_forall. intros r'. apply selected_in_week.
    - apply sync_step_skip. destruct Hrow as [v Hv].
      by apply (snapshot_covers t1 user_id _ _ v).
    - by apply sync_step_invalid. }
  assert (forall l', l' ⊆ l ->
            foldl (sync_step user_id (entriesByDriverDate (load_entries t1))) t1 l' = t1) as Hfold.
  { induction l' as [|r l' IH]; intros Hsub; [done |].
    cbn [foldl]. rewrite Hall by (apply Hsub; by left).
    apply IH. intros x Hx. apply Hsub. by right. }
  by apply Hfold.
Qed.

End SyncFacts.

(** ** Dates *)

Section DateFacts.

Import JsDate.

Ltac div_lia := Z.to_euclidean_division_equations; lia.

(** Replaces [days_before_month] at known arguments by its value. *)
Ltac eval_days :=
  repeat match goal with
         | |- context [days_before_month ?l ?m] =>
             is_ground l; is_ground m;
             let v := eval vm_compute in (days_before_month l m) in
             replace (days_before_month l m) with v by reflexivity
         | H : context [days_before_month ?l ?m] |- _ =>
             is_ground l; is_ground m;
             let v := eval vm_compute in (days_before_month l m) in
             replace (days_before_month l m) with v in H by reflexivity
         end.

(** *** The calendar *)

Lemma DayFromYear_succ y : DayFromYear (y + 1) = DayFromYear y + DaysInYear y.
Proof.
  unfold DayFromYear, DaysInYear, is_leap.
  destruct (Z.eqb_spec (y mod 4) 0), (Z.eqb_spec (y mod 100) 0),
    (Z.eqb_spec (y mod 400) 0); cbn [andb orb negb]; div_lia.
Qed.

Lemma DayFromYear_mono y1 y2 : y1 <= y2 -> DayFromYear y1 <= DayFromYear y2.
Proof. unfold DayFromYear. div_lia. Qed.

(** [year_of_day] finds the year that holds the day. *)
Lemma year_of_day_bounds d :
  DayFromYear (year_of_day d) <= d < DayFromYear (year_of_day d + 1).
Proof.
  unfold year_of_day.
  set (y := 1970 + 400 * d / 146097).
  assert (DayFromYear (y - 1) <= d) by (unfold DayFromYear, y; div_lia).
  assert (d < DayFromYear (y + 2)) by (unfold DayFromYear, y; div_lia).
  destruct (Z.ltb_spec d (DayFromYear y)).
  - replace (y - 1 + 1) with y by lia. lia.
  - destruct (Z.leb_spec (DayFromYear (y + 1)) d).
    + replace (y + 1 + 1) with (y + 2) by lia. lia.
    + lia.
Qed.

Lemma year_of_day_unique d y :
  DayFromYear y <= d < DayFromYear (y + 1) -> year_of_day d = y.
Proof.
  intros Hy. pose proof (year_of_day_bounds d) as Hb.
  destruct (Z.lt_trichotomy (year_of_day d) y) as [Hlt|[Heq|Hgt]]; [| done |].
  - pose proof (DayFromYear_mono (year_of_day d + 1) y ltac:(lia)). lia.
  - pose proof (DayFromYear_mono (y + 1) (year_of_day d) ltac:(lia)). lia.
Qed.

Lemma days_before_month_bounds (leap : bool) (m : Z) :
  0 <= m <= 11 ->
  0 <= days_before_month leap m < days_before_month leap (m + 1) /\
  days_before_month leap (m + 1) <= 365 + (if leap then 1 else 0).
Proof.
  intros Hm.
  assert (m = 0 \/ m = 1 \/ m = 2 \/ m = 3 \/ m = 4 \/ m = 5 \/ m = 6 \/ m = 7 \/
          m = 8 \/ m = 9 \/ m = 10 \/ m = 11) as Hcases by lia.
  destruct leap; repeat (destruct Hcases as [->|Hcases]); try subst m; eval_days; lia.
Qed.

Lemma month_of_day_in_year_spec (leap : bool) (m d : Z) :
  0 <= m <= 11 ->
  days_before_month leap m <= d < days_before_month leap (m + 1) ->
  month_of_day_in_year leap d = m.
Proof.
  intros Hm.
  assert (m = 0 \/ m = 1 \/ m = 2 \/ m = 3 \/ m = 4 \/ m = 5 \/ m = 6 \/ m = 7 \/
          m = 8 \/ m = 9 \/ m = 10 \/ m = 11) as Hcases by lia.
  unfold month_of_day_in_year.
  destruct leap; repeat (destruct Hcases as [->|Hcases]); try subst m;
    intros Hd; eval_days;
    repeat (match goal with
            | |- context [Z.ltb ?a ?b] => destruct (Z.ltb_spec a b); cbv iota; try lia
            end); reflexivity.
Qed.

Lemma month_of_day_in_year_bounds (leap : bool) (d : Z) :
  0 <= d < 365 + (if leap then 1 else 0) ->
  let m := month_of_day_in_year leap d in
  0 <= m <= 11 /\ days_before_month leap m <= d < days_before_month leap (m + 1).
Proof.
  intros Hd. cbv zeta.
  assert (exists m, 0 <= m <= 11 /\
            days_before_month leap m <= d < days_before_month leap (m + 1))
    as (m & Hm & Hin).
  { destruct leap; cbv iota in Hd.
    - assert (d < 31 \/ 31 <= d < 60 \/ 60 <= d < 91 \/ 91 <= d < 121 \/
              121 <= d < 152 \/ 152 <= d < 182 \/ 182 <= d < 213 \/ 213 <= d < 244 \/
              244 <= d < 274 \/ 274 <= d < 305 \/ 305 <= d < 335 \/ 335 <= d)
        as Hcases by lia.
      decompose [or] Hcases;
        [exists 0 | exists 1 | exists 2 | exists 3 | exists 4 | exists 5 | exists 6
         | exists 7 | exists 8 | exists 9 | exists 10 | exists 11];
        (split; [lia | eval_days; lia]).
    - assert (d < 31 \/ 31 <= d < 59 \/ 59 <= d < 90 \/ 90 <= d < 120 \/
              120 <= d < 151 \/ 151 <= d < 181 \/ 181 <= d < 212 \/ 212 <= d < 243 \/
              243 <= d < 273 \/ 273 <= d < 304 \/ 304 <= d < 334 \/ 334 <= d)
        as Hcases by lia.
      decompose [or] Hcases;
        [exists 0 | exists 1 | exists 2 | exists 3 | exists 4 | exists 5 | exists 6
         | exists 7 | exists 8 | exists 9 | exists 10 | exists 11];
        (split; [lia | eval_days; lia]). }
  by rewrite (month_of_day_in_year_spec leap m d Hm Hin).
Qed.


(** *** Time values and their fields *)

Lemma day_within_year_bounds (t : Z) :
  0 <= DayWithinYear t < 365 + (if InLeapYear t then 1 else 0).
Proof.
  unfold DayWithinYear, InLeapYear, YearFromTime.
  pose proof (year_of_day_bounds (Day t)) as Hb.
  rewrite DayFromYear_succ in Hb. unfold DaysInYear in Hb.
  destruct (is_leap (year_of_day (Day t))); lia.
Qed.

Lemma month_from_time_bounds (t : Z) :
  0 <= MonthFromTime t <= 11 /\
  days_before_month (InLeapYear t) (MonthFromTime t) <= DayWithinYear t
    < days_before_month (InLeapYear t) (MonthFromTime t + 1).
Proof.
  apply (month_of_day_in_year_bounds (InLeapYear t) (DayWithinYear t)).
  apply day_within_year_bounds.
Qed.

Lemma MakeTime_fields (t : Z) :
  MakeTime (HourFromTime t) (MinFromTime t) (SecFromTime t) (msFromTime t)
  = TimeWithinDay t.
Proof.
  unfold MakeTime, HourFromTime, MinFromTime, SecFromTime, msFromTime, TimeWithinDay,
    msPerHour, msPerMinute, msPerSecond, msPerDay.
  div_lia.
Qed.

Lemma MakeDay_fields (t : Z) :
  MakeDay (YearFromTime t) (MonthFromTime t) (DateFromTime t) = Day t.
Proof.
  destruct (month_from_time_bounds t) as [Hm _].
  unfold MakeDay.
  replace (MonthFromTime t / 12) with 0 by div_lia.
  replace (MonthFromTime t mod 12) with (MonthFromTime t) by div_lia.
  rewrite Z.add_0_r. unfold DateFromTime, DayWithinYear, InLeapYear. lia.
Qed.

(** The fields of a time value make that time value. *)
Lemma time_of_utc_fields (t : Z) : time_of_fields (utc_fields t) = t.
Proof.
  unfold time_of_fields, utc_fields. cbn [f_year f_month f_day f_hour f_min f_sec f_ms].
  replace (MonthFromTime t + 1 - 1) with (MonthFromTime t) by lia.
  rewrite MakeDay_fields, MakeTime_fields.
  unfold MakeDate, Day, TimeWithinDay, msPerDay. div_lia.
Qed.

Lemma utc_fields_in_range (t : Z) : fields_in_range (utc_fields t) = true.
Proof.
  destruct (month_from_time_bounds t) as [Hm Hd].
  unfold fields_in_range, utc_fields, days_in_month.
  cbn [f_year f_month f_day f_hour f_min f_sec f_ms].
  replace (MonthFromTime t + 1 - 1) with (MonthFromTime t) by lia.
  fold (InLeapYear t).
  unfold DateFromTime, HourFromTime, MinFromTime, SecFromTime,
    msPerHour, msPerMinute, msPerSecond.
  repeat (apply andb_true_intro; split); apply Z.leb_le; div_lia.
Qed.

(** The fields made into a time value are the fields of that value. *)
Lemma fields_of_time (y mo d h mi s ms : Z) :
  1 <= mo <= 12 -> 1 <= d <= days_in_month y mo ->
  0 <= h <= 23 -> 0 <= mi <= 59 -> 0 <= s <= 59 -> 0 <= ms <= 999 ->
  utc_fields (time_of_fields (Fields y mo d h mi s ms)) = Fields y mo d h mi s ms.
Proof.
  intros Hmo Hd Hh Hmi Hs Hms.
  set (t := time_of_fields (Fields y mo d h mi s ms)).
  set (dwy := days_before_month (is_leap y) (mo - 1) + d - 1).
  assert (Hday : Day t = DayFromYear y + dwy).
  { unfold t, time_of_fields, MakeDate, MakeDay, MakeTime, Day, dwy,
      msPerDay, msPerHour, msPerMinute, msPerSecond.
    cbn [f_year f_month f_day f_hour f_min f_sec f_ms].
    replace ((mo - 1) / 12) with 0 by div_lia.
    replace ((mo - 1) mod 12) with (mo - 1) by div_lia.
    rewrite Z.add_0_r. div_lia. }
  pose proof (days_before_month_bounds (is_leap y) (mo - 1) ltac:(lia)) as [Hb0 Hb1].
  replace (mo - 1 + 1) with mo in Hb0, Hb1 by lia.
  unfold days_in_month in Hd.
  assert (Hyear : YearFromTime t = y).
  { unfold YearFromTime. rewrite Hday. apply year_of_day_unique.
    rewrite DayFromYear_succ. unfold DaysInYear, dwy.
    destruct (is_leap y); lia. }
  assert (Hdwy : DayWithinYear t = dwy).
  { unfold DayWithinYear. rewrite Hyear, Hday. lia. }
  assert (Hmonth : MonthFromTime t = mo - 1).
  { unfold MonthFromTime, InLeapYear. rewrite Hyear, Hdwy.
    apply month_of_day_in_year_spec; [lia |].
    replace (mo - 1 + 1) with mo by lia. unfold dwy. lia. }
  unfold utc_fields. rewrite Hyear, Hmonth. f_equal; try lia.
  - unfold DateFromTime, InLeapYear. rewrite Hyear, Hmonth, Hdwy. unfold dwy. lia.
  - unfold HourFromTime, t, time_of_fields, MakeDate, MakeTime,
      msPerDay, msPerHour, msPerMinute, msPerSecond.
    cbn [f_year f_month f_day f_hour f_min f_sec f_ms]. div_lia.
  - unfold MinFromTime, t, time_of_fields, MakeDate, MakeTime,
      msPerDay, msPerHour, msPerMinute, msPerSecond.
    cbn [f_year f_month f_day f_hour f_min f_sec f_ms]. div_lia.
  - unfold SecFromTime, t, time_of_fields, MakeDate, MakeTime,
      msPerDay, msPerHour, msPerMinute, msPerSecond.
    cbn [f_year f_month f_day f_hour f_min f_sec f_ms]. div_lia.
  - unfold msFromTime, t, time_of_fields, MakeDate, MakeTime,
      msPerDay, msPerHour, msPerMinute, msPerSecond.
    cbn [f_year f_month f_day f_hour f_min f_sec f_ms]. div_lia.
Qed.


(** *** Decimal fields of the date-time format *)

Lemma digit_char_cases (x : Z) :
  exists r, 0 <= r < 10 /\ x mod 10 = r /\ digit_char x = ascii_of_N (Z.to_N (48 + r)).
Proof.
  exists (x mod 10). split; [apply Z.mod_pos_bound; lia |]. by split.
Qed.

Lemma digit_value_char (x : Z) : digit_value (digit_char x) = Some (x mod 10).
Proof.
  destruct (digit_char_cases x) as (r & Hr & -> & ->).
  assert (r = 0 \/ r = 1 \/ r = 2 \/ r = 3 \/ r = 4 \/ r = 5 \/ r = 6 \/ r = 7 \/
          r = 8 \/ r = 9) as Hcases by lia.
  decompose [or] Hcases; subst r; reflexivity.
Qed.

Lemma take_digits_digits (k : nat) :
  forall n acc rest,
  take_digits k acc (digits k n ++ rest)
  = Some (acc * 10 ^ Z.of_nat k + n mod 10 ^ Z.of_nat k, rest).
Proof.
  induction k as [|k IH]; intros n acc rest.
  - cbn. rewrite Z.mod_1_r. do 2 f_equal. lia.
  - cbn [digits app take_digits]. rewrite digit_value_char, IH.
    do 2 f_equal.
    rewrite Nat2Z.inj_succ, Z.pow_succ_r by lia.
    rewrite (Z.mul_comm 10 (10 ^ Z.of_nat k)).
    rewrite (Z.rem_mul_r n (10 ^ Z.of_nat k) 10) by lia.
    lia.
Qed.

Lemma take_digits_exact (k : nat) (n : Z) (rest : list ascii) :
  0 <= n < 10 ^ Z.of_nat k ->
  take_digits k 0 (digits k n ++ rest) = Some (n, rest).
Proof.
  intros Hn. rewrite take_digits_digits, Z.mod_small by done. do 2 f_equal.
Qed.

Lemma parse_year_four (y : Z) (rest : list ascii) :
  0 <= y < 10000 ->
  parse_year (digits 4 y ++ rest) = Some (y, rest).
Proof.
  intros Hy. rewrite <- (take_digits_exact 4 y rest) by (cbn; lia).
  cbn [digits app]. unfold parse_year.
  destruct (digit_char_cases (y / 10 ^ Z.of_nat 3)) as (r & Hr & _ & ->).
  assert (r = 0 \/ r = 1 \/ r = 2 \/ r = 3 \/ r = 4 \/ r = 5 \/ r = 6 \/ r = 7 \/
          r = 8 \/ r = 9) as Hcases by lia.
  decompose [or] Hcases; subst r; reflexivity.
Qed.

Lemma parse_year_expanded (y : Z) (rest : list ascii) :
  (y < 0 \/ 9999 < y) -> - 1000000 < y < 1000000 ->
  parse_year ((if 0 <=? y then "+"%char else "-"%char) :: digits 6 (Z.abs y) ++ rest)
  = Some (y, rest).
Proof.
  intros Hout Hy. unfold parse_year.
  destruct (Z.leb_spec 0 y).
  - rewrite take_digits_exact by (cbn; lia). do 2 f_equal. lia.
  - rewrite take_digits_exact by (cbn; lia). cbn.
    destruct (Z.eqb_spec (Z.abs y) 0); [lia |]. do 2 f_equal. lia.
Qed.


Lemma days_in_month_bounds (y m : Z) :
  1 <= m <= 12 -> 28 <= days_in_month y m <= 31.
Proof.
  intros Hm. unfold days_in_month.
  assert (m = 1 \/ m = 2 \/ m = 3 \/ m = 4 \/ m = 5 \/ m = 6 \/ m = 7 \/
          m = 8 \/ m = 9 \/ m = 10 \/ m = 11 \/ m = 12) as Hcases by lia.
  destruct (is_leap y); decompose [or] Hcases; subst m; eval_days; lia.
Qed.

(** [String(n)] of a year of four digits and of a field of at most two,
    checked on every value. *)
Lemma pretty_four_digits_checked :
  forallb (fun y => String.eqb (pretty y) (Js.str (digits 4 y)))
          (map Z.of_nat (seq 1000 (Z.to_nat 9000))) = true.
Proof. vm_compute. reflexivity. Qed.

Lemma pad_two_digits_checked :
  forallb (fun n => String.eqb (padStart0 2 (pretty n)) (Js.str (digits 2 n)))
          (map Z.of_nat (seq 0 100)) = true.
Proof. vm_compute. reflexivity. Qed.

Lemma pretty_year (y : Z) : 1000 <= y <= 9999 -> pretty y = Js.str (digits 4 y).
Proof.
  intros Hy. pose proof pretty_four_digits_checked as H.
  rewrite forallb_forall in H. apply String.eqb_eq, H.
  apply in_map_iff. exists (Z.to_nat y). split; [lia | apply in_seq; lia].
Qed.

Lemma pad_two_digits (n : Z) :
  0 <= n <= 99 -> padStart0 2 (pretty n) = Js.str (digits 2 n).
Proof.
  intros Hn. pose proof pad_two_digits_checked as H.
  rewrite forallb_forall in H. apply String.eqb_eq, H.
  apply in_map_iff. exists (Z.to_nat n). split; [lia | apply in_seq; lia].
Qed.

#[local] Opaque digits take_digits.

(** The value of a [datetime-local] input reads as its fields, in local
    time. *)
Lemma parse_fields_local (y mo d h mi : Z) :
  0 <= y < 10000 -> 0 <= mo < 100 -> 0 <= d < 100 -> 0 <= h < 100 -> 0 <= mi < 100 ->
  parse_fields (datetime_local y mo d h mi) = Some (Fields y mo d h mi 0 0, false).
Proof.
  intros Hy Hmo Hd Hh Hmi. unfold parse_fields, datetime_local.
  rewrite chars_str, parse_year_four by done. simpl.
  rewrite take_digits_exact by (simpl; lia). simpl.
  rewrite take_digits_exact by (simpl; lia). simpl.
  rewrite take_digits_exact by (simpl; lia). simpl.
  rewrite <- (app_nil_r (digits 2 mi)).
  rewrite take_digits_exact by (simpl; lia). reflexivity.
Qed.

Lemma year_from_time_bounds (t : Z) :
  Z.abs t <= 8640000000000000 -> - 1000000 < YearFromTime t < 1000000.
Proof.
  intros Ht. unfold YearFromTime.
  pose proof (year_of_day_bounds (Day t)) as Hb.
  assert (- 100000000 <= Day t <= 100000000) as Hday
    by (unfold Day, msPerDay; div_lia).
  unfold DayFromYear in Hb. div_lia.
Qed.

(** The text of [toISOString] reads as the fields of the time value, in
    UTC. *)
Lemma parse_fields_iso (t : Z) :
  Z.abs t <= 8640000000000000 ->
  parse_fields (iso_string t) = Some (utc_fields t, true).
Proof.
  intros Ht.
  pose proof (year_from_time_bounds t Ht) as Hy.
  pose proof (utc_fields_in_range t) as Hrange.
  unfold fields_in_range, utc_fields in Hrange.
  cbn [f_year f_month f_day f_hour f_min f_sec f_ms] in Hrange.
  repeat (apply andb_prop in Hrange as [Hrange ?]).
  repeat match goal with H : (_ <=? _) = true |- _ => apply Z.leb_le in H end.
  destruct (month_from_time_bounds t) as [Hm Hdm].
  pose proof (days_in_month_bounds (YearFromTime t) (MonthFromTime t + 1) ltac:(lia)) as Hdim.
  assert (0 <= HourFromTime t /\ 0 <= MinFromTime t /\ 0 <= SecFromTime t /\
          0 <= msFromTime t < 1000) as (Hh & Hmi & Hs & Hms).
  { unfold HourFromTime, MinFromTime, SecFromTime, msFromTime,
      msPerHour, msPerMinute, msPerSecond. div_lia. }
  unfold parse_fields, iso_string. rewrite chars_str.
  assert (parse_year
            ((if (0 <=? YearFromTime t) && (YearFromTime t <=? 9999)
              then digits 4 (YearFromTime t)
              else (if 0 <=? YearFromTime t then "+"%char else "-"%char)
                   :: digits 6 (Z.abs (YearFromTime t)))
             ++ "-"%char :: digits 2 (MonthFromTime t + 1)
             ++ "-"%char :: digits 2 (DateFromTime t)
             ++ "T"%char :: digits 2 (HourFromTime t)
             ++ ":"%char :: digits 2 (MinFromTime t)
             ++ ":"%char :: digits 2 (SecFromTime t)
             ++ "."%char :: digits 3 (msFromTime t) ++ ["Z"%char])%list
          = Some (YearFromTime t,
                  ("-"%char :: digits 2 (MonthFromTime t + 1)
                   ++ "-"%char :: digits 2 (DateFromTime t)
                   ++ "T"%char :: digits 2 (HourFromTime t)
                   ++ ":"%char :: digits 2 (MinFromTime t)
                   ++ ":"%char :: digits 2 (SecFromTime t)
                   ++ "."%char :: digits 3 (msFromTime t) ++ ["Z"%char])%list)) as ->.
  { destruct (Z.leb_spec 0 (YearFromTime t)), (Z.leb_spec (YearFromTime t) 9999);
      cbn [andb].
    - apply parse_year_four. lia.
    - rewrite <- app_comm_cons.
      rewrite <- (parse_year_expanded (YearFromTime t)) by lia.
      destruct (Z.leb_spec 0 (YearFromTime t)); [done | lia].
    - rewrite <- app_comm_cons.
      rewrite <- (parse_year_expanded (YearFromTime t)) by lia.
      destruct (Z.leb_spec 0 (YearFromTime t)); [lia | done].
    - lia. }
  simpl.
  rewrite take_digits_exact by (simpl; lia). simpl.
  rewrite take_digits_exact by (simpl; lia). simpl.
  rewrite take_digits_exact by (simpl; lia). simpl.
  rewrite take_digits_exact by (simpl; lia). simpl.
  rewrite take_digits_exact by (simpl; lia). simpl.
  rewrite take_digits_exact by (simpl; lia). reflexivity.
Qed.


(** A valid time value survives [toISOString] and [new Date]. *)
Lemma new_Date_iso_string (LocalTZA : Z) (engine_parse : string -> option Z) (t : Z) :
  Z.abs t <= 8640000000000000 -> new_Date LocalTZA engine_parse (iso_string t) = Some t.
Proof.
  intros Ht. unfold new_Date. rewrite parse_fields_iso by done.
  cbn [mbind option_bind]. rewrite utc_fields_in_range, time_of_utc_fields.
  unfold TimeClip. destruct (Z.leb_spec (Z.abs t) 8640000000000000); [done | lia].
Qed.

Lemma str_app_cons (l r : list ascii) (c : ascii) :
  Js.str (l ++ c :: r)%list = Js.str l ++ String c (Js.str r).
Proof. by rewrite str_app. Qed.

(** X28. The round trip of a planned time, for a year of four digits that
    does not start with 0: converting the wall-clock string to the ISO
    instant and back, under the same offset, gives the string again. *)
Theorem datetime_local_roundtrip (LocalTZA : Z) (engine_parse : string -> option Z)
    (y mo d h mi : Z) :
  wall_clock y mo d h mi ->
  1000 <= y ->
  Z.abs LocalTZA < msPerDay ->
  exists iso,
    localDatetimeToIso LocalTZA engine_parse (datetime_local y mo d h mi) = Some iso /\
    isoToLocalDatetime LocalTZA engine_parse iso = datetime_local y mo d h mi.
Proof.
  intros (Hy & Hmo & Hd & Hh & Hmi) Hy1000 Htza.
  set (f := Fields y mo d h mi 0 0).
  set (tl := time_of_fields f).
  pose proof (days_in_month_bounds y mo Hmo) as Hdim.
  pose proof (fields_of_time y mo d h mi 0 0 Hmo Hd Hh Hmi ltac:(lia) ltac:(lia))
    as Hfields.
  fold f in Hfields. fold tl in Hfields.
  assert (Hrange : fields_in_range f = true).
  { unfold fields_in_range, f. cbn [f_year f_month f_day f_hour f_min f_sec f_ms].
    repeat (apply andb_true_intro; split); apply Z.leb_le; lia. }
  assert (Hclip : Z.abs (tl - LocalTZA) <= 8640000000000000).
  { pose proof (days_before_month_bounds (is_leap y) (mo - 1) ltac:(lia)) as [Hb0 Hb1].
    unfold msPerDay in Htza.
    unfold tl, f, time_of_fields, MakeDate, MakeDay, MakeTime, DayFromYear,
      msPerDay, msPerHour, msPerMinute, msPerSecond.
    cbn [f_year f_month f_day f_hour f_min f_sec f_ms].
    replace ((mo - 1) / 12) with 0 by div_lia.
    replace ((mo - 1) mod 12) with (mo - 1) by div_lia.
    rewrite Z.add_0_r.
    destruct (is_leap y); cbv iota in Hb1; div_lia. }
  exists (iso_string (tl - LocalTZA)). split.
  - unfold localDatetimeToIso, new_Date.
    rewrite parse_fields_local by lia.
    cbn [mbind option_bind]. fold f. rewrite Hrange.
    unfold UTC, TimeClip. fold tl.
    destruct (Z.leb_spec (Z.abs (tl - LocalTZA)) 8640000000000000); [done | lia].
  - unfold isoToLocalDatetime. rewrite new_Date_iso_string by done.
    unfold getFullYear, getMonth, getDate, getHours, getMinutes, LocalTime.
    cbn [fmap option_fmap option_map compose number_string].
    replace (tl - LocalTZA + LocalTZA) with tl by lia.
    unfold utc_fields, f in Hfields. injection Hfields as Hfy Hfm Hfd Hfh Hfi _ _.
    rewrite Hfy, Hfm, Hfd, Hfh, Hfi.
    rewrite pretty_year, !pad_two_digits by lia.
    unfold datetime_local. rewrite !str_app_cons. reflexivity.
Qed.

End DateFacts.

Section DateScenario.

Import JsDate.

(** The round trip at half past nine on 21 December 2025, one hour east
    of Greenwich. *)
Lemma datetime_local_roundtrip_scenario :
  exists iso,
    localDatetimeToIso 3600000 Scenario.strict_parse (datetime_local 2025 12 21 9 30)
    = Some iso /\
    isoToLocalDatetime 3600000 Scenario.strict_parse iso = datetime_local 2025 12 21 9 30.
Proof.
  apply (datetime_local_roundtrip 3600000 Scenario.strict_parse 2025 12 21 9 30).
  - unfold wall_clock. vm_compute. intuition discriminate.
  - lia.
  - vm_compute. reflexivity.
Defined.

(** C9, at a year below 1000 (the year 2025 mistyped as 0202): the
    instant is right, but the way back prints the year without its
    leading zero, so the original string is not recovered. *)
Theorem datetime_roundtrip_short_year (engine_parse : string -> option Z) :
  localDatetimeToIso 0 engine_parse "0202-12-21T09:30" = Some "0202-12-21T09:30:00.000Z" /\
  isoToLocalDatetime 0 engine_parse "0202-12-21T09:30:00.000Z" = "202-12-21T09:30" /\
  "202-12-21T09:30" <> "0202-12-21T09:30".
Proof. repeat split; [vm_compute; reflexivity .. | discriminate]. Qed.

End DateScenario.

Section SyncScenario.

Import DriverPay Scenario.

(** On the loaded page of the scenario the leave day, which a completed
    job targets, is kept. *)
Lemma sync_keeps_protected_and_manual_scenario :
  table (syncFromCompletedJobs in_week new_id (User "u1") view (load in_week store))
    !! ("u1", "d1", "2025-01-08") = Some leave_row.
Proof.
  apply (sync_keeps_protected_and_manual in_week new_id (User "u1") view store
           ("u1", "d1", "2025-01-08") leave_row).
  - vm_compute. reflexivity.
  - left. reflexivity.
Defined.

(** C2 (defect). The reconciler decides from the [entries] state of the
    page, not from the table. Run while that state does not hold the rows
    of the week (after a failed [load], which empties it, or after a
    change of week, until the new week is loaded) it finds no entry for
    the signals and upserts over the rows of the table: the leave day of
    Wednesday and the manual work day of Tuesday, both targeted by a
    completed job, become automatic work entries. *)
Theorem sync_overwrites_on_stale_page :
  let leave_key := ("u1", "d1", "2025-01-08") in
  let manual_key := ("u1", "d1", "2025-01-07") in
  let auto (row_id : string) :=
    Stored row_id work (Some 1%Q) None (Some "Auto: from completed job") in
  let after (pg : page) := table (syncFromCompletedJobs in_week new_id (User "u1") view pg) in
  store !! leave_key = Some leave_row /\
  isProtectedStatus (st_status leave_row) = true /\
  store !! manual_key = Some manual_row /\
  is_manual (Some (to_entry (manual_key, manual_row))) = true /\
  after (load_failed None store) !! leave_key = Some (auto "r1") /\
  after (load_failed None store) !! manual_key = Some (auto "r2") /\
  after (load week_before store) !! leave_key = Some (auto "r1") /\
  after (load week_before store) !! manual_key = Some (auto "r2").
Proof. vm_compute. repeat split; reflexivity. Qed.

(** The run of the scenario: the job of Monday becomes an automatic work
    entry, the manual work of Tuesday and the leave of Wednesday stay. *)
Example sync_scenario_table :
  let t := table (syncFromCompletedJobs in_week new_id (User "u1") view
                    (load in_week store)) in
  t !! ("u1", "d1", "2025-01-06")
    = Some (Stored "row-2" work (Some 1%Q) None (Some "Auto: from completed job")) /\
  t !! ("u1", "d1", "2025-01-07") = Some manual_row /\
  t !! ("u1", "d1", "2025-01-08") = Some leave_row /\
  size t = 3%nat.
Proof. vm_compute. repeat split; reflexivity. Qed.

End SyncScenario.


(** * Further properties *)

(** ** Postcodes in the form *)

Section PostcodeMore.

Import Postcode.

Lemma spec_stripped_chars (pc : string) :
  Forall (fun c => Js.is_white_space c = false /\ Js.upper_char c = c) (spec_stripped pc).
Proof.
  unfold spec_stripped. apply Forall_forall. intros c Hc.
  apply list_elem_of_filter in Hc as [Hws Hc].
  apply list_elem_of_In, in_map_iff in Hc as (c' & <- & _).
  split; [done | apply upper_char_idem].
Qed.

(** X1. The key of a postcode holds no white space and no lower-case
    letter, and canonicalising a key again changes nothing. *)
Theorem normKey_canonical (pc : string) :
  Forall (fun c => Js.is_white_space c = false /\ Js.upper_char c = c)
         (Js.chars (normKey pc)) /\
  normKey (normKey pc) = normKey pc.
Proof.
  split.
  - rewrite chars_normKey. apply spec_stripped_chars.
  - apply normKey_idem.
Qed.

Lemma formatUKPostcode_of_key (a b : string) :
  normKey a = normKey b -> formatUKPostcode a = formatUKPostcode b.
Proof. unfold formatUKPostcode. by intros ->. Qed.

(** X2. Formatting a postcode twice is formatting it once (leaving the
    field a second time changes nothing), and the display form keeps the
    key under which the postcode is geocoded. *)
Theorem formatUKPostcode_idempotent (pc : string) :
  formatUKPostcode (formatUKPostcode pc) = formatUKPostcode pc /\
  normKey (formatUKPostcode pc) = normKey pc.
Proof.
  split.
  - apply formatUKPostcode_of_key, normKey_formatUKPostcode.
  - apply normKey_formatUKPostcode.
Qed.

(** X3. Two inputs have the same display form exactly when they have the
    same key: the display form tells apart what the geocoder tells
    apart, and nothing else. *)
Theorem formatUKPostcode_same_key (a b : string) :
  formatUKPostcode a = formatUKPostcode b <-> normKey a = normKey b.
Proof.
  split.
  - intros H. rewrite <- (normKey_formatUKPostcode a), <- (normKey_formatUKPostcode b).
    by rewrite H.
  - apply formatUKPostcode_of_key.
Qed.

End PostcodeMore.

(** ** The route assembler: validation and failures *)

Section ConfirmMore.

Import Http Postcode RouteModal.

Variable LocalTZA : Z.
Variable engine_parse : string -> option Z.
Variable range_error_message : string.
Variable geocode_service : list string -> fetched (response GeoJson).
Variable route_miles_service : list LatLng -> fetched (response MilesJson).

#[local] Abbreviation confirm_try :=
  (confirm_try LocalTZA engine_parse range_error_message geocode_service route_miles_service).
#[local] Abbreviation confirm :=
  (confirm LocalTZA engine_parse range_error_message geocode_service route_miles_service).
#[local] Abbreviation final_stop := (final_stop LocalTZA engine_parse range_error_message).
#[local] Abbreviation final_stops := (final_stops LocalTZA engine_parse range_error_message).
#[local] Abbreviation time_readable := (time_readable LocalTZA engine_parse).

(** X4. With fewer than two non-empty postcodes [confirm] shows the
    validation error and makes no network call; with two or more its
    first call is the geocoding of the submitted keys. *)
Theorem confirm_needs_two_postcodes (allDraft : list DraftStop) :
  let postcodes := submitted_postcodes allDraft in
  if (length postcodes <? 2)%nat then
    confirm allDraft
    = (ErrorShown "Please enter at least collection and delivery postcodes.", [])
  else
    exists rest, snd (confirm allDraft) = GeocodeCall postcodes :: rest.
Proof.
  cbv zeta.
  destruct (Nat.ltb_spec (length (submitted_postcodes allDraft)) 2) as [Hlt|Hge].
  - unfold RouteModal.confirm, RouteModal.confirm_try.
    destruct (Nat.ltb_spec (length (submitted_postcodes allDraft)) 2); [done | lia].
  - rewrite confirm_log.
    destruct (confirm_try_log LocalTZA engine_parse range_error_message geocode_service
                route_miles_service allDraft)
      as [[Hlt _]|[_ [->|[c ->]]]]; [lia | eauto ..].
Qed.

(** X5. When the geocoder answers with a coordinate for every submitted
    postcode and with none under the empty key, and every planned time
    is blank or readable, a draft whose postcode is blank stops the
    submission after geocoding: the blank key is not sent to the
    geocoder, its stop gets no coordinate, and [confirm] shows
    [Missing coordinates for: ] with an empty postcode; no route-miles
    call is made. *)
Theorem blank_stop_blocks_route
    (allDraft : list DraftStop) (st : N) (body : option GeoJson) :
  let postcodes := submitted_postcodes allDraft in
  let results := default ∅ (body ≫= geo_results) in
  (2 <= length postcodes)%nat ->
  geocode_service postcodes = Responded (Response true st body) ->
  Forall (fun pc => is_Some (coordinate results pc)) postcodes ->
  coordinate results "" = None ->
  Forall time_readable allDraft ->
  (exists d, d ∈ allDraft /\ normKey (postcode d) = "") ->
  ("" ∉ postcodes) /\
  confirm allDraft = (ErrorShown "Missing coordinates for: ", [GeocodeCall postcodes]).
Proof.
  cbv zeta. intros Hlen Hgeo Hall Hblank Htime (d & Hd & Hkey).
  set (results := default ∅ (body ≫= geo_results)) in *.
  split.
  { intros Hin. rewrite Forall_forall in Hall. destruct (Hall _ Hin) as [c Hc]. congruence. }
  assert (Hres : Forall (fun pc => is_Some (lookup_coord results pc))
                   (submitted_postcodes allDraft)).
  { eapply Forall_impl; [exact Hall |]. intros pc [c Hc]. unfold coordinate in Hc.
    destruct (lookup_coord results pc); [eauto | discriminate]. }
  destruct (List.find (fun d => is_null (coordinate results (normKey (postcode d)))) allDraft)
    as [d0|] eqn:Hfirst.
  - rewrite (confirm_first_null LocalTZA engine_parse range_error_message geocode_service
               route_miles_service allDraft st body d0 Hlen Hgeo Hres Htime Hfirst).
    apply find_some in Hfirst as [Hin Hnull].
    assert (normKey (postcode d0) = "") as Hempty.
    { destruct (decide (normKey (postcode d0) = "")) as [|Hne]; [done |].
      assert (normKey (postcode d0) ∈ submitted_postcodes allDraft) as Hsub.
      { rewrite submitted_postcodes_spec. apply list_elem_of_In, in_map_iff.
        exists d0. split; [done |]. apply list_elem_of_In, list_elem_of_filter.
        split; [done | by apply list_elem_of_In]. }
      rewrite Forall_forall in Hall. destruct (Hall _ Hsub) as [c Hc].
      rewrite Hc in Hnull. discriminate. }
    unfold formatUKPostcode. rewrite Hempty. reflexivity.
  - exfalso. apply list_elem_of_In in Hd.
    pose proof (find_none _ _ Hfirst d Hd) as Hnull. cbv beta in Hnull.
    rewrite Hkey, Hblank in Hnull. discriminate.
Qed.

(** X6. When the geocoder answers with a result for every submitted
    postcode, a planned time that is not blank and that [new Date] of the
    engine does not read stops the submission after geocoding: [confirm]
    shows the message of the [RangeError] that [toISOString] throws for
    an invalid date, and makes no route-miles call. *)
Theorem unreadable_time_reported
    (allDraft : list DraftStop) (st : N) (body : option GeoJson) :
  let postcodes := submitted_postcodes allDraft in
  let results := default ∅ (body ≫= geo_results) in
  (2 <= length postcodes)%nat ->
  geocode_service postcodes = Responded (Response true st body) ->
  Forall (fun pc => is_Some (lookup_coord results pc)) postcodes ->
  ~ Forall time_readable allDraft ->
  confirm allDraft = (ErrorShown range_error_message, [GeocodeCall postcodes]).
Proof.
  cbv zeta. intros Hlen Hgeo Hall Htime.
  unfold RouteModal.confirm.
  rewrite (confirm_geocoded LocalTZA engine_parse range_error_message geocode_service
             route_miles_service allDraft st body Hlen Hgeo Hall).
  destruct (final_stops_outcome LocalTZA engine_parse range_error_message
              (default ∅ (body ≫= geo_results)) allDraft 0)
    as [[Hok _]|[_ ->]]; [done | reflexivity].
Qed.

(** X7. The stops that [confirm] hands over carry the drafts in order:
    each has the display form of its draft's postcode, the draft's name,
    the coordinate of the geocoder for the draft's key, and a planned
    time exactly when the draft's planned time is not blank. *)
Theorem confirmed_stops_carry_drafts (allDraft : list DraftStop)
    (finalStops : list RouteStopFinal) (totalMiles : option Q) (log : list call) :
  confirm allDraft = (Confirmed finalStops totalMiles, log) ->
  exists st body,
    geocode_service (submitted_postcodes allDraft) = Responded (Response true st body) /\
    Forall2 (fun d s =>
               stop_postcode s = formatUKPostcode (postcode d) /\
               stop_name s = name d /\
               (exists c, coordinate (default ∅ (body ≫= geo_results))
                            (normKey (postcode d)) = Some c /\
                          lat s = Some (c_lat c) /\ lng s = Some (c_lng c)) /\
               (stop_planned_time s = None <->
                Js.trim (default "" (planned_time d)) = ""))
            allDraft finalStops.
Proof.
  unfold RouteModal.confirm, RouteModal.confirm_try.
  destruct (length (submitted_postcodes allDraft) <? 2)%nat; [discriminate |].
  unfold bind, await, lift, throw, ret.
  destruct (geocode_service _) as [m|[isok st body]]; [discriminate |].
  cbn [app ok json status].
  destruct isok; cbn [negb]; [| discriminate].
  destruct (negb _); [discriminate |].
  set (results := default ∅ (body ≫= geo_results)).
  destruct (final_stops _ _ _) as [e|built] eqn:Hbuilt; [discriminate |].
  destruct (List.find _ built) eqn:Hfind; [discriminate |].
  destruct (route_miles_service _) as [m|milesResp]; cbn [app]; [discriminate |].
  destruct (negb (ok milesResp)); [discriminate |].
  intros [= <- <- <-]. exists st, body. split; [done |].
  pose proof (final_stops_carry _ _ _ _ _ _ _ Hbuilt) as Hcarry.
  assert (Forall (fun s => is_null (lat s) || is_null (lng s) = false) built) as Hnn.
  { apply Forall_forall. intros s Hs. apply list_elem_of_In in Hs.
    apply (find_none _ _ Hfind s Hs). }
  clear Hbuilt Hfind. fold results.
  induction Hcarry as [|d s l l' [i Hstop] _ IH]; [constructor |].
  apply Forall_cons in Hnn as [Hs Hnn].
  constructor; [| by apply IH].
  destruct (final_stop_carries _ _ _ _ _ _ _ Hstop) as (Hpc & Hname & _ & _ & Htime).
  split; [done |]. split; [done |]. split.
  - rewrite (final_stop_null _ _ _ _ _ _ _ Hstop) in Hs.
    destruct (coordinate results (normKey (postcode d))) as [c|] eqn:Hc; [| discriminate].
    exists c. split; [done |]. by apply (final_stop_coordinate _ _ _ _ _ _ _ _ Hstop).
  - rewrite Htime. cbv zeta.
    destruct (Js.trim (default "" (planned_time d))) as [|c r] eqn:E; [done |].
    cbn [Js.truthy].
    unfold RouteModal.final_stop in Hstop. cbv zeta in Hstop.
    rewrite E in Hstop. cbn [Js.truthy] in Hstop.
    destruct (JsDate.localDatetimeToIso _ _); [| discriminate].
    split; discriminate.
Qed.

End ConfirmMore.

Section ConfirmCases.

Import Json Http Postcode RouteModal Scenario Cases.

Lemma scenario_confirmed :
  confirm 0 strict_parse invalid_time geocoder route_miles_ok drafts
  = (Confirmed resolved_stops (Some (RouteMiles.to_miles 321868.8%Q)), resolved_log).
Proof. vm_compute. reflexivity. Qed.

(** X5 at the scenario with a stop added and left blank. *)
Lemma blank_stop_blocks_route_scenario :
("" ∉ submitted_postcodes drafts_blank_stop) /\
  confirm 0 strict_parse invalid_time geocoder route_miles_ok drafts_blank_stop
  = (ErrorShown "Missing coordinates for: ",
     [GeocodeCall (submitted_postcodes drafts_blank_stop)]).
Proof.
  apply (blank_stop_blocks_route 0 strict_parse invalid_time geocoder route_miles_ok
           drafts_blank_stop 200 (Some geo_body)).
  - vm_compute. lia.
  - reflexivity.
  - repeat constructor; eexists; vm_compute; reflexivity.
  - vm_compute. reflexivity.
  - repeat constructor; left; reflexivity.
  - eexists. split; [apply list_elem_of_In; right; left; reflexivity |].
    vm_compute. reflexivity.
Defined.

(** X6 at the scenario with a planned time that is no date-time, in an
    engine that does not read it. *)
Lemma unreadable_time_reported_scenario :
  confirm 0 strict_parse invalid_time geocoder route_miles_ok drafts_bad_time
  = (ErrorShown "Invalid time value", [GeocodeCall (submitted_postcodes drafts_bad_time)]).
Proof.
  apply (unreadable_time_reported 0 strict_parse invalid_time geocoder route_miles_ok
           drafts_bad_time 200 (Some geo_body)).
  - vm_compute. lia.
  - reflexivity.
  - repeat constructor; eexists; vm_compute; reflexivity.
  - intros H. apply Forall_cons in H as [_ H].
    apply Forall_cons in H as [[H|[iso H]] _]; vm_compute in H; discriminate H.
Defined.

(** X7 at the scenario of the specification. *)
Lemma confirmed_stops_carry_drafts_scenario :
  exists st body,
    geocoder (submitted_postcodes drafts) = Responded (Response true st body) /\
    Forall2 (fun d s =>
               stop_postcode s = formatUKPostcode (postcode d) /\
               stop_name s = name d /\
               (exists c, coordinate (default ∅ (body ≫= geo_results))
                            (normKey (postcode d)) = Some c /\
                          lat s = Some (c_lat c) /\ lng s = Some (c_lng c)) /\
               (stop_planned_time s = None <->
                Js.trim (default "" (planned_time d)) = ""))
            drafts resolved_stops.
Proof.
  exact (confirmed_stops_carry_drafts 0 strict_parse invalid_time geocoder route_miles_ok
           drafts resolved_stops
           (Some (RouteMiles.to_miles 321868.8%Q)) resolved_log scenario_confirmed).
Defined.

(** X29 at the scenario of the specification. *)
Lemma confirmed_stops_invariant_scenario :
  length resolved_stops = length drafts /\
  map stop_order resolved_stops = map Z.of_nat (seq 1 (length drafts)) /\
  Forall stop_has_coords resolved_stops /\
  resolved_log = [GeocodeCall (submitted_postcodes drafts);
                  RouteMilesCall (coords_of resolved_stops)].
Proof.
  exact (confirmed_stops_invariant 0 strict_parse invalid_time geocoder route_miles_ok
           drafts resolved_stops
           (Some (RouteMiles.to_miles 321868.8%Q)) resolved_log scenario_confirmed).
Defined.

(** X30 at the scenario of the specification. *)
Lemma route_call_after_geocoding_scenario :
  exists st body,
    geocoder (submitted_postcodes drafts) = Responded (Response true st body) /\
    Forall (fun pc => is_Some (coordinate (default ∅ (body ≫= geo_results)) pc))
           (submitted_postcodes drafts).
Proof.
  apply (route_call_after_geocoding 0 strict_parse invalid_time geocoder route_miles_ok drafts
           (coords_of resolved_stops)).
  rewrite scenario_confirmed. apply list_elem_of_In. right. left. reflexivity.
Defined.

End ConfirmCases.

(** ** Editing the postcodes of the form *)

Section EditFacts.

Import Postcode RouteModal RouteEdit.

Lemma normKey_toUpperCase (v : string) : normKey (Js.toUpperCase v) = normKey v.
Proof.
  rewrite !normKey_str. f_equal. unfold spec_stripped, Js.toUpperCase.
  rewrite chars_str, map_map. f_equal. apply map_ext. intros c. apply upper_char_idem.
Qed.

Lemma imap_keeps {A B} (key : A -> B) (g : nat -> A -> A) (arr : list A) :
  (forall idx x, key (g idx x) = key x) ->
  map key (imap g arr) = map key arr.
Proof.
  revert g. induction arr as [|x arr IH]; intros g Hg; [done |].
  cbn [imap map]. rewrite Hg. f_equal. apply IH. intros idx y. apply Hg.
Qed.

Lemma map_at_keeps {A B} (key : A -> B) (i : nat) (f : A -> A) (arr : list A) :
  (forall x, key (f x) = key x) ->
  map key (map_at i f arr) = map key arr.
Proof.
  intros Hf. apply imap_keeps. intros idx x. by destruct (idx =? i)%nat.
Qed.

Lemma imap_if_idem {A} (p : nat -> bool) (f : A -> A) (arr : list A) :
  (forall x, f (f x) = f x) ->
  imap (fun idx x => if p idx then f x else x)
       (imap (fun idx x => if p idx then f x else x) arr)
  = imap (fun idx x => if p idx then f x else x) arr.
Proof.
  intros Hf. revert p. induction arr as [|x arr IH]; intros p; [done |].
  cbn [imap]. f_equal.
  - destruct (p 0%nat); [apply Hf | done].
  - apply (IH (p ∘ S)).
Qed.

Lemma map_at_idem {A} (i : nat) (f : A -> A) (arr : list A) :
  (forall x, f (f x) = f x) ->
  map_at i f (map_at i f arr) = map_at i f arr.
Proof. apply (imap_if_idem (fun idx => (idx =? i)%nat)). Qed.

Lemma imap_if_keys {A B} (key : A -> B) (p : nat -> bool) (f g : A -> A) (arr : list A) :
  (forall x, key (f x) = key (g x)) ->
  map key (imap (fun idx x => if p idx then f x else x) arr)
  = map key (imap (fun idx x => if p idx then g x else x) arr).
Proof.
  intros Hfg. revert p. induction arr as [|x arr IH]; intros p; [done |].
  cbn [imap map]. f_equal; [| apply (IH (p ∘ S))].
  destruct (p 0%nat); [apply Hfg | done].
Qed.

Lemma submitted_postcodes_keys (l1 l2 : list DraftStop) :
  map (fun x => normKey (postcode x)) l1 = map (fun x => normKey (postcode x)) l2 ->
  submitted_postcodes l1 = submitted_postcodes l2.
Proof. unfold submitted_postcodes. by intros ->. Qed.

(** X8. Leaving a postcode field rewrites it to its display form
    without changing what is geocoded: the keys submitted by [confirm],
    the names and the planned times are the same before and after, for
    a stop as for the collection and the delivery; leaving the field a
    second time changes nothing; and while typing, the stored
    upper-cased value has the key of what was typed. *)
Theorem postcode_fields_keep_keys (f : form) (i : nat) (value : string) :
  let blurred :=
    Form (blurPostcode (collection f)) (blurStopPostcode i (stops f))
         (blurPostcode (delivery f)) in
  submitted_postcodes (allDraft blurred) = submitted_postcodes (allDraft f) /\
  map name (allDraft blurred) = map name (allDraft f) /\
  map planned_time (allDraft blurred) = map planned_time (allDraft f) /\
  blurStopPostcode i (blurStopPostcode i (stops f)) = blurStopPostcode i (stops f) /\
  map (fun x => normKey (postcode x)) (updateStopPostcode i value (stops f))
  = map (fun x => normKey (postcode x))
        (map_at i (fun x => with_postcode x value) (stops f)).
Proof.
  cbv zeta. unfold allDraft. cbn [collection stops delivery].
  split; [| split; [| split; [| split]]].
  - apply submitted_postcodes_keys. cbn [map]. rewrite !map_app. cbn [map].
    unfold blurStopPostcode.
    rewrite (map_at_keeps (fun x => normKey (postcode x)))
      by (intros x; apply normKey_formatUKPostcode).
    unfold blurPostcode, with_postcode. cbn [postcode].
    by rewrite !normKey_formatUKPostcode.
  - cbn [map]. rewrite !map_app. unfold blurStopPostcode.
    by rewrite (map_at_keeps name).
  - cbn [map]. rewrite !map_app. unfold blurStopPostcode.
    by rewrite (map_at_keeps planned_time).
  - apply map_at_idem. intros x. unfold with_postcode. cbn [postcode name planned_time].
    f_equal. apply formatUKPostcode_of_key, normKey_formatUKPostcode.
  - apply (imap_if_keys (fun x => normKey (postcode x)) (fun idx => (idx =? i)%nat)).
    intros x. apply normKey_toUpperCase.
Qed.

End EditFacts.

(** ** Planned times: the way back, and reopening a route *)

Section DateMore.

Import JsDate.

Ltac euclid_lia := Z.to_euclidean_division_equations; lia.

Lemma digit_char_not_space (x : Z) : Js.is_white_space (digit_char x) = false.
Proof.
  destruct (digit_char_cases x) as (r & Hr & _ & ->).
  assert (r = 0 \/ r = 1 \/ r = 2 \/ r = 3 \/ r = 4 \/ r = 5 \/ r = 6 \/ r = 7 \/
          r = 8 \/ r = 9) as Hcases by lia.
  decompose [or] Hcases; subst r; reflexivity.
Qed.

Lemma iso_string_truthy (t : Z) : Js.truthy (iso_string t) = true.
Proof.
  unfold iso_string. cbv zeta.
  destruct ((0 <=? YearFromTime t) && (YearFromTime t <=? 9999)); reflexivity.
Qed.

(** The value of a [datetime-local] input has no white space around
    it. *)
Lemma trim_datetime_local (y mo d h mi : Z) :
  Js.trim (datetime_local y mo d h mi) = datetime_local y mo d h mi.
Proof.
  unfold Js.trim, datetime_local. rewrite chars_str. f_equal.
  cbn [digits app]. unfold Js.trim_chars.
  cbn [Js.drop_while]. rewrite digit_char_not_space.
  cbn [rev app Js.drop_while]. rewrite digit_char_not_space.
  reflexivity.
Qed.

Lemma datetime_local_truthy (y mo d h mi : Z) :
  Js.truthy (datetime_local y mo d h mi) = true.
Proof. reflexivity. Qed.

#[local] Opaque digits take_digits.

(** The instant of a wall-clock time: its time value as UTC fields,
    moved back by the offset. *)
Lemma localDatetimeToIso_value (LocalTZA : Z) (engine_parse : string -> option Z)
    (y mo d h mi : Z) :
  wall_clock y mo d h mi ->
  Z.abs LocalTZA < msPerDay ->
  let tl := time_of_fields (Fields y mo d h mi 0 0) in
  localDatetimeToIso LocalTZA engine_parse (datetime_local y mo d h mi)
  = Some (iso_string (tl - LocalTZA)) /\
  Z.abs (tl - LocalTZA) <= 8640000000000000.
Proof.
  intros (Hy & Hmo & Hd & Hh & Hmi) Htza. cbv zeta.
  set (f := Fields y mo d h mi 0 0).
  set (tl := time_of_fields f).
  pose proof (days_in_month_bounds y mo Hmo) as Hdim.
  assert (Hrange : fields_in_range f = true).
  { unfold fields_in_range, f. cbn [f_year f_month f_day f_hour f_min f_sec f_ms].
    repeat (apply andb_true_intro; split); apply Z.leb_le; lia. }
  assert (Hclip : Z.abs (tl - LocalTZA) <= 8640000000000000).
  { pose proof (days_before_month_bounds (is_leap y) (mo - 1) ltac:(lia)) as [Hb0 Hb1].
    unfold msPerDay in Htza.
    unfold tl, f, time_of_fields, MakeDate, MakeDay, MakeTime, DayFromYear,
      msPerDay, msPerHour, msPerMinute, msPerSecond.
    cbn [f_year f_month f_day f_hour f_min f_sec f_ms].
    replace ((mo - 1) / 12) with 0 by euclid_lia.
    replace ((mo - 1) mod 12) with (mo - 1) by euclid_lia.
    rewrite Z.add_0_r.
    destruct (is_leap y); cbv iota in Hb1; euclid_lia. }
  split; [| done].
  unfold localDatetimeToIso, new_Date.
  rewrite parse_fields_local by lia.
  cbn [mbind option_bind]. fold f. rewrite Hrange.
  unfold UTC, TimeClip. fold tl.
  destruct (Z.leb_spec (Z.abs (tl - LocalTZA)) 8640000000000000); [done | lia].
Qed.

(** The local fields of a time value are a wall-clock time. *)
Lemma local_fields_wall_clock (t : Z) :
  0 <= YearFromTime t <= 9999 ->
  wall_clock (YearFromTime t) (MonthFromTime t + 1) (DateFromTime t)
             (HourFromTime t) (MinFromTime t).
Proof.
  intros Hy.
  pose proof (utc_fields_in_range t) as Hrange.
  unfold fields_in_range, utc_fields in Hrange.
  cbn [f_year f_month f_day f_hour f_min f_sec f_ms] in Hrange.
  repeat (apply andb_prop in Hrange as [Hrange ?]).
  repeat match goal with H : (_ <=? _) = true |- _ => apply Z.leb_le in H end.
  assert (0 <= HourFromTime t /\ 0 <= MinFromTime t) as [Hh Hmi].
  { unfold HourFromTime, MinFromTime, msPerHour, msPerMinute. euclid_lia. }
  unfold wall_clock. lia.
Qed.

(** The text [isoToLocalDatetime] makes of an instant whose local year
    has four digits: the local fields, to the minute. *)
Lemma isoToLocalDatetime_value (LocalTZA : Z) (engine_parse : string -> option Z) (t : Z) :
  Z.abs t <= 8640000000000000 ->
  1000 <= YearFromTime (t + LocalTZA) <= 9999 ->
  let tl := t + LocalTZA in
  isoToLocalDatetime LocalTZA engine_parse (iso_string t)
  = datetime_local (YearFromTime tl) (MonthFromTime tl + 1) (DateFromTime tl)
                   (HourFromTime tl) (MinFromTime tl).
Proof.
  intros Ht Hy. cbv zeta.
  destruct (local_fields_wall_clock (t + LocalTZA) ltac:(lia)) as (_ & Hmo & Hd & Hh & Hmi).
  pose proof (days_in_month_bounds (YearFromTime (t + LocalTZA)) _ Hmo) as Hdim.
  unfold isoToLocalDatetime. rewrite new_Date_iso_string by done.
  unfold getFullYear, getMonth, getDate, getHours, getMinutes, LocalTime.
  cbn [fmap option_fmap option_map compose number_string].
  rewrite pretty_year, !pad_two_digits by lia.
  unfold datetime_local. rewrite !str_app_cons. reflexivity.
Qed.

(** The time value of local fields cut at the minute. *)
Lemma time_of_minute_fields (t : Z) :
  time_of_fields (Fields (YearFromTime t) (MonthFromTime t + 1) (DateFromTime t)
                         (HourFromTime t) (MinFromTime t) 0 0)
  = t - t mod msPerMinute.
Proof.
  pose proof (time_of_utc_fields t) as H.
  unfold time_of_fields, utc_fields in *.
  cbn [f_year f_month f_day f_hour f_min f_sec f_ms] in *.
  unfold MakeDate, MakeTime, SecFromTime, msFromTime,
    msPerMinute, msPerSecond, msPerHour, msPerDay in *.
  set (day := MakeDay _ _ _) in *. euclid_lia.
Qed.

(** X9. The way back of a planned time, where local time keeps one
    offset from UTC for both conversions (no change of offset, such as
    daylight saving, between or around them): an instant stored as
    [toISOString] writes it, whose local year has four digits, shown in
    the form and submitted again unchanged, comes back cut to the minute
    of local time; an instant on a whole local minute comes back as it
    was. *)
Theorem stored_time_roundtrip (LocalTZA : Z) (engine_parse : string -> option Z) (t : Z) :
  Z.abs t <= 8640000000000000 ->
  1000 <= YearFromTime (t + LocalTZA) <= 9999 ->
  Z.abs LocalTZA < msPerDay ->
  localDatetimeToIso LocalTZA engine_parse (isoToLocalDatetime LocalTZA engine_parse (iso_string t))
  = Some (iso_string (t - (t + LocalTZA) mod msPerMinute)).
Proof.
  intros Ht Hy Htza.
  rewrite isoToLocalDatetime_value by done. cbv zeta.
  pose proof (local_fields_wall_clock (t + LocalTZA) ltac:(lia)) as Hwall.
  destruct (localDatetimeToIso_value LocalTZA engine_parse _ _ _ _ _ Hwall Htza) as [-> _].
  rewrite time_of_minute_fields. do 2 f_equal. lia.
Qed.

End DateMore.

Section DateMoreCases.

Import JsDate.

(** X9 at 08:30:12.345 UTC on 21 December 2025, one hour east of
    Greenwich: the seconds are dropped. *)
Lemma stored_time_roundtrip_scenario :
  localDatetimeToIso 3600000 Scenario.strict_parse
    (isoToLocalDatetime 3600000 Scenario.strict_parse (iso_string 1766305812345))
  = Some (iso_string (1766305812345 - (1766305812345 + 3600000) mod msPerMinute)).
Proof.
  apply (stored_time_roundtrip 3600000 Scenario.strict_parse 1766305812345).
  - vm_compute. discriminate.
  - vm_compute. split; discriminate.
  - vm_compute. reflexivity.
Defined.

End DateMoreCases.

(** ** Reopening a route *)

Section ReopenFacts.

Import Http Postcode RouteModal RouteEdit JsDate.

Lemma insert_by_order_head (a : RouteStopFinal) (l : list RouteStopFinal) :
  HdRel (fun a b => stop_order a <= stop_order b) a l -> insert_by_order a l = a :: l.
Proof.
  intros [|b l' Hab]; [done |]. cbn [insert_by_order].
  destruct (Z.leb_spec (stop_order a - stop_order b) 0); [done | lia].
Qed.

(** Sorting stops that are in order changes nothing. *)
Lemma sort_by_order_sorted (l : list RouteStopFinal) :
  in_stop_order l -> sort_by_order l = l.
Proof.
  induction 1 as [|a l Hsorted IH Hhd]; [done |].
  unfold sort_by_order in *. cbn [foldr]. rewrite IH. by apply insert_by_order_head.
Qed.

Lemma insert_by_order_perm (a : RouteStopFinal) (l : list RouteStopFinal) :
  insert_by_order a l ≡ₚ a :: l.
Proof.
  induction l as [|b l IH]; [done |]. cbn [insert_by_order].
  destruct (_ <=? _); [done |]. rewrite IH. apply Permutation_swap.
Qed.

Lemma insert_by_order_in_order (a : RouteStopFinal) (l : list RouteStopFinal) :
  in_stop_order l -> in_stop_order (insert_by_order a l).
Proof.
  unfold in_stop_order.
  induction 1 as [|b l Hsorted IH Hhd]; [repeat constructor |].
  cbn [insert_by_order].
  destruct (Z.leb_spec (stop_order a - stop_order b) 0) as [Hle|Hgt].
  - constructor; [by constructor |]. constructor. lia.
  - constructor; [exact IH |].
    destruct Hhd as [|c l' Hbc]; cbn [insert_by_order]; [constructor; lia |].
    destruct (_ <=? _); constructor; lia.
Qed.

Lemma sort_by_order_spec (l : list RouteStopFinal) :
  in_stop_order (sort_by_order l) /\ sort_by_order l ≡ₚ l.
Proof.
  induction l as [|a l [IHs IHp]]; [split; [constructor | done] |].
  unfold sort_by_order in *. cbn [foldr]. split.
  - by apply insert_by_order_in_order.
  - rewrite insert_by_order_perm. by constructor.
Qed.

Lemma slice_list_middle {A} (first last : A) (mid : list A) :
  slice_list (first :: mid ++ [last]) 1 (-1) = mid.
Proof.
  unfold slice_list, Js.rel_index.
  rewrite length_cons, length_app. cbn [length].
  destruct (Z.ltb_spec 1 0) as [|_]; [lia |].
  destruct (Z.ltb_spec (-1) 0) as [_|]; [| lia].
  rewrite Z.min_l, Z.max_l by lia.
  change (Z.to_nat 1) with 1%nat. cbn [drop].
  replace (Z.to_nat _) with (length mid) by lia.
  by rewrite drop_0, take_app_length.
Qed.

(** The drafts of a prefilled form, for two or more stops: the stops in
    order of [stop_order], the first as collection, the last as delivery. *)
Lemma allDraft_prefill (LocalTZA : Z) (engine_parse : string -> option Z)
    (initial : list RouteStopFinal) :
  (2 <= length initial)%nat ->
  exists first mid last,
    sort_by_order initial = first :: mid ++ [last] /\
    allDraft (prefill LocalTZA engine_parse (Some initial))
    = prefill_stop LocalTZA engine_parse "Collection" first
      :: map (prefill_stop LocalTZA engine_parse "Stop") mid
         ++ [prefill_stop LocalTZA engine_parse "Delivery" last].
Proof.
  intros Hlen. 
  destruct (sort_by_order_spec initial) as [_ Hperm].
  pose proof (Permutation_length Hperm) as Hl.
  destruct (sort_by_order initial) as [|first rest] eqn:Hsorted; [simpl in Hl; lia |].
  destruct (@exists_last _ rest) as (mid & last & ->).
  { intros ->. simpl in Hl. lia. }
  exists first, mid, last. split; [done |].
  unfold prefill. destruct (Nat.leb_spec 2 (length initial)) as [_|]; [| lia].
  rewrite Hsorted. cbv zeta.
  change ((first :: mid ++ [last]) !! 0%nat) with (Some first).
  assert ((first :: mid ++ [last]) !! (length (first :: mid ++ [last]) - 1)%nat
          = Some last) as ->.
  { rewrite length_cons, length_app. cbn [length].
    replace (S (length (mid) + 1) - 1)%nat with (S (length (mid) + 0)) by lia.
    cbn [lookup list_lookup]. apply list_lookup_middle. lia. }
  by rewrite slice_list_middle.
Qed.


Lemma prefill_stop_named (LocalTZA : Z) (engine_parse : string -> option Z)
    (l1 l2 : string) (s : RouteStopFinal) :
  is_Some (stop_name s) ->
  prefill_stop LocalTZA engine_parse l1 s = prefill_stop LocalTZA engine_parse l2 s.
Proof. intros [n Hn]. unfold prefill_stop. by rewrite Hn. Qed.

Lemma allDraft_prefill_named (LocalTZA : Z) (engine_parse : string -> option Z)
    (initial : list RouteStopFinal) :
  (2 <= length initial)%nat ->
  in_stop_order initial ->
  Forall (fun s => is_Some (stop_name s)) initial ->
  allDraft (prefill LocalTZA engine_parse (Some initial))
  = map (prefill_stop LocalTZA engine_parse "Stop") initial.
Proof.
  intros Hlen Hord Hnamed.
  destruct (allDraft_prefill LocalTZA engine_parse initial Hlen)
    as (first & mid & last & Hsorted & ->).
  rewrite (sort_by_order_sorted _ Hord) in Hsorted. subst initial.
  apply Forall_cons in Hnamed as [Hfirst Hnamed].
  apply Forall_app in Hnamed as [_ Hlast]. apply Forall_cons in Hlast as [Hlast _].
  cbn [map]. rewrite map_app. cbn [map].
  by rewrite (prefill_stop_named LocalTZA engine_parse "Collection" "Stop" first Hfirst),
    (prefill_stop_named LocalTZA engine_parse "Delivery" "Stop" last Hlast).
Qed.

Section Reopen.

Variable LocalTZA : Z.
Variable engine_parse : string -> option Z.
Variable range_error_message : string.
Variable geocode_service : list string -> fetched (response GeoJson).
Variable route_miles_service : list LatLng -> fetched (response MilesJson).

#[local] Abbreviation confirm_try :=
  (confirm_try LocalTZA engine_parse range_error_message geocode_service route_miles_service).
#[local] Abbreviation confirm :=
  (confirm LocalTZA engine_parse range_error_message geocode_service route_miles_service).
#[local] Abbreviation final_stop := (final_stop LocalTZA engine_parse range_error_message).
#[local] Abbreviation final_stops := (final_stops LocalTZA engine_parse range_error_message).
#[local] Abbreviation time_readable := (time_readable LocalTZA engine_parse).

Hypothesis offset_within_a_day : Z.abs LocalTZA < msPerDay.

(** The planned time that the prefill shows for a stop built from a
    draft is the planned time of the draft, trimmed. *)
Lemma prefill_stop_time (m : gmap string (option GeoHit)) (idx : Z) (label : string)
    (d : DraftStop) (s : RouteStopFinal) :
  entered_time d ->
  final_stop m idx d = inr s ->
  planned_time (prefill_stop LocalTZA engine_parse label s)
  = Some (Js.trim (default "" (planned_time d))).
Proof.
  intros Htime Hstop.
  destruct (final_stop_carries _ _ _ _ _ _ _ Hstop) as (_ & _ & _ & _ & Hiso).
  cbv zeta in Hiso. unfold prefill_stop. cbn [planned_time]. f_equal.
  unfold entered_time in Htime. cbv zeta in Htime.
  destruct Htime as [Hblank|(y & mo & dd & h & mi & Hw & Hwall & Hy)].
  - rewrite Hblank in *. cbn [Js.truthy] in Hiso. by rewrite Hiso.
  - rewrite Hw in *. rewrite datetime_local_truthy in Hiso.
    destruct (localDatetimeToIso_value LocalTZA engine_parse y mo dd h mi Hwall offset_within_a_day)
      as [Hvalue Hclip].
    cbv zeta in Hvalue, Hclip. rewrite Hvalue in Hiso. rewrite Hiso.
    cbn [truthy_field]. rewrite iso_string_truthy.
    destruct Hwall as (Hy0 & Hmo & Hd & Hh & Hmi).
    pose proof (fields_of_time y mo dd h mi 0 0 Hmo Hd Hh Hmi ltac:(lia) ltac:(lia))
      as Hfields.
    set (tl := time_of_fields (Fields y mo dd h mi 0 0)) in *.
    unfold utc_fields in Hfields. injection Hfields as Hfy Hfm Hfd Hfh Hfi _ _.
    rewrite isoToLocalDatetime_value; [| done |].
    + cbv zeta. replace (tl - LocalTZA + LocalTZA) with tl by lia.
      by rewrite Hfy, Hfm, Hfd, Hfh, Hfi.
    + replace (tl - LocalTZA + LocalTZA) with tl by lia. lia.
Qed.

Lemma trim_idem_entered (d : DraftStop) :
  entered_time d ->
  Js.trim (Js.trim (default "" (planned_time d))) = Js.trim (default "" (planned_time d)).
Proof.
  unfold entered_time. cbv zeta.
  intros [->|(y & mo & dd & h & mi & -> & _)]; [reflexivity | apply trim_datetime_local].
Qed.

(** A stop built from a draft and read back by the prefill builds the
    same stop again, with any answer of the geocoder. *)
Lemma final_stop_reopened (m0 m : gmap string (option GeoHit)) (i idx : Z)
    (label : string) (d : DraftStop) (s : RouteStopFinal) :
  is_Some (name d) ->
  entered_time d ->
  final_stop m0 i d = inr s ->
  final_stop m idx (prefill_stop LocalTZA engine_parse label s) = final_stop m idx d.
Proof.
  intros [n Hn] Htime Hstop.
  pose proof (prefill_stop_time m0 i label d s Htime Hstop) as Hpt.
  destruct (final_stop_carries _ _ _ _ _ _ _ Hstop) as (Hpc & Hname & _).
  unfold RouteModal.final_stop. rewrite Hpt.
  change (default "" (Some (Js.trim (default "" (planned_time d)))))
    with (Js.trim (default "" (planned_time d))).
  rewrite (trim_idem_entered d Htime).
  assert (formatUKPostcode (postcode (prefill_stop LocalTZA engine_parse label s))
          = formatUKPostcode (postcode d)) as ->.
  { cbn [prefill_stop postcode]. rewrite Hpc.
    apply formatUKPostcode_of_key, normKey_formatUKPostcode. }
  assert (name (prefill_stop LocalTZA engine_parse label s) = name d) as ->.
  { cbn [prefill_stop name]. by rewrite Hname, Hn. }
  reflexivity.
Qed.

Lemma final_stops_reopened (m : gmap string (option GeoHit))
    (drafts : list DraftStop) (built : list RouteStopFinal) :
  Forall (fun d => is_Some (name d) /\ entered_time d) drafts ->
  Forall2 (fun d s => exists m0 i, final_stop m0 i d = inr s) drafts built ->
  forall idx,
  final_stops m idx (map (prefill_stop LocalTZA engine_parse "Stop") built)
  = final_stops m idx drafts.
Proof.
  intros Hdrafts Hbuilt. induction Hbuilt as [|d s l l' (m0 & i & Hstop) _ IH]; [done |].
  apply Forall_cons in Hdrafts as [[Hname Htime] Hdrafts].
  intros idx. cbn [map final_stops].
  by rewrite (final_stop_reopened m0 m i idx "Stop" d s Hname Htime Hstop), IH.
Qed.

Lemma keys_reopened (drafts : list DraftStop) (built : list RouteStopFinal) :
  Forall2 (fun d s => exists m0 i, final_stop m0 i d = inr s) drafts built ->
  submitted_postcodes (map (prefill_stop LocalTZA engine_parse "Stop") built)
  = submitted_postcodes drafts.
Proof.
  intros Hbuilt. apply submitted_postcodes_keys.
  induction Hbuilt as [|d s l l' (m0 & i & Hstop) _ IH]; [done |].
  cbn [map]. rewrite IH. f_equal.
  destruct (final_stop_carries _ _ _ _ _ _ _ Hstop) as (Hpc & _).
  cbn [prefill_stop postcode]. rewrite Hpc. apply normKey_formatUKPostcode.
Qed.

(** What a successful submission went through. *)
Lemma confirm_success (allDraft : list DraftStop)
    (finalStops : list RouteStopFinal) (totalMiles : option Q) (log : list call) :
  confirm allDraft = (Confirmed finalStops totalMiles, log) ->
  (2 <= length (submitted_postcodes allDraft))%nat /\
  exists st body,
    geocode_service (submitted_postcodes allDraft) = Responded (Response true st body) /\
    Forall (fun pc => is_Some (lookup_coord (default ∅ (body ≫= geo_results)) pc))
           (submitted_postcodes allDraft) /\
    final_stops (default ∅ (body ≫= geo_results)) 0 allDraft = inr finalStops.
Proof.
  unfold RouteModal.confirm, RouteModal.confirm_try.
  destruct (Nat.ltb_spec (length (submitted_postcodes allDraft)) 2) as [|Hlen];
    [discriminate |].
  unfold bind, await, lift, throw, ret.
  destruct (geocode_service _) as [m|[isok st body]]; [discriminate |].
  cbn [app ok json status].
  destruct isok; cbn [negb]; [| discriminate].
  set (results := default ∅ (body ≫= geo_results)).
  destruct (filter _ (submitted_postcodes allDraft)) as [|q qs] eqn:Hmissing;
    cbn [length Nat.eqb negb]; [| discriminate].
  destruct (final_stops _ _ _) as [e|built] eqn:Hbuilt; [discriminate |].
  destruct (List.find _ built) eqn:Hfind; [discriminate |].
  destruct (route_miles_service _) as [m|milesResp]; cbn [app]; [discriminate |].
  destruct (negb (ok milesResp)); [discriminate |].
  intros [= <- <- <-]. split; [done |]. exists st, body. split; [done |]. split; [| done].
  apply Forall_forall. intros pc Hin.
  destruct (lookup_coord results pc) as [c|] eqn:Hc; [eauto |].
  assert (pc ∈ filter (fun pc => is_null (lookup_coord results pc) = true)
            (submitted_postcodes allDraft)) as Hpc.
  { apply list_elem_of_filter. split; [by rewrite Hc | done]. }
  rewrite Hmissing in Hpc. by apply not_elem_of_nil in Hpc.
Qed.

Lemma length_submitted_postcodes (allDraft : list DraftStop) :
  (length (submitted_postcodes allDraft) <= length allDraft)%nat.
Proof.
  unfold submitted_postcodes.
  etransitivity; [apply length_filter |]. by rewrite length_map.
Qed.

Lemma stops_in_order (l : list RouteStopFinal) :
  forall k, map stop_order l = map (fun i => k + Z.of_nat i) (seq 1 (length l)) ->
  in_stop_order l.
Proof.
  unfold in_stop_order.
  induction l as [|a l IH]; intros k Hord; [constructor |].
  cbn [length seq map] in Hord. injection Hord as Ha Hrest.
  rewrite <- (seq_shift (length l) 1), map_map in Hrest.
  constructor.
  - apply (IH (k + 1)). rewrite Hrest. apply map_ext. intros. lia.
  - destruct l as [|b l]; [constructor |].
    cbn [length seq map] in Hrest. injection Hrest as Hb _. constructor. lia.
Qed.

(** X10. Reopening a confirmed route and confirming it unchanged gives
    the same route: when every draft has a name and a planned time that
    is blank or a [datetime-local] value with a year from 1000 on, the
    form prefilled from the stops that [confirm] handed over submits the
    same keys and, with the same answers of the two services, [confirm]
    hands over the same stops, miles and calls. *)
Theorem reopened_route_confirms_same (allDraft : list DraftStop)
    (finalStops : list RouteStopFinal) (totalMiles : option Q) (log : list call) :
  Forall (fun d => is_Some (name d) /\ entered_time d) allDraft ->
  confirm allDraft = (Confirmed finalStops totalMiles, log) ->
  confirm (RouteEdit.allDraft (prefill LocalTZA engine_parse (Some finalStops)))
  = (Confirmed finalStops totalMiles, log).
Proof.
  intros Hdrafts Hconf.
  destruct (confirm_success _ _ _ _ Hconf) as (Hlen & st & body & Hgeo & Hall & Hbuilt).
  pose proof (final_stops_carry _ _ _ _ _ _ _ Hbuilt) as Hcarry.
  destruct (final_stops_shape _ _ _ _ _ _ _ Hbuilt) as [Hl Hord].
  pose proof (length_submitted_postcodes allDraft) as Hle.
  assert (Hcarry' : Forall2 (fun d s => exists m0 i, final_stop m0 i d = inr s)
                      allDraft finalStops).
  { eapply Forall2_impl; [exact Hcarry |]. intros d s [i Hs]. eauto. }
  assert (Hnamed : Forall (fun s => is_Some (stop_name s)) finalStops).
  { clear -Hcarry Hdrafts. induction Hcarry as [|d s l l' [i Hs] _ IH]; [constructor |].
    apply Forall_cons in Hdrafts as [[Hname _] Hdrafts]. constructor; [| by apply IH].
    destruct (final_stop_carries _ _ _ _ _ _ _ Hs) as (_ & -> & _). done. }
  rewrite allDraft_prefill_named;
    [| rewrite Hl; lia | rewrite <- Hl in Hord; exact (stops_in_order _ _ Hord) | done].
  pose proof (keys_reopened allDraft finalStops Hcarry') as Hkeys.
  revert Hconf. unfold RouteModal.confirm.
  rewrite (confirm_geocoded LocalTZA engine_parse range_error_message geocode_service
             route_miles_service allDraft st body Hlen Hgeo Hall).
  rewrite (confirm_geocoded LocalTZA engine_parse range_error_message geocode_service
             route_miles_service
             (map (prefill_stop LocalTZA engine_parse "Stop") finalStops) st body);
    rewrite ?Hkeys; [| done ..].
  by rewrite (final_stops_reopened _ allDraft finalStops Hdrafts Hcarry' 0).
Qed.

End Reopen.

(** X11. The prefill shows every stored stop once, in increasing order
    of [stop_order], whatever the order in which the stops are passed:
    the postcodes of the form are those of the sorted stops, the sorted
    stops are in order and a rearrangement of the stored ones; with
    fewer than two stops the form is blank. *)
Theorem prefill_in_stop_order (LocalTZA : Z) (engine_parse : string -> option Z)
    (initial : list RouteStopFinal) :
  let drafts := allDraft (prefill LocalTZA engine_parse (Some initial)) in
  if (2 <=? length initial)%nat then
    map postcode drafts = map stop_postcode (sort_by_order initial) /\
    in_stop_order (sort_by_order initial) /\
    sort_by_order initial ≡ₚ initial
  else map postcode drafts = [""; ""].
Proof.
  cbv zeta. destruct (Nat.leb_spec 2 (length initial)) as [Hlen|Hlen].
  - destruct (allDraft_prefill LocalTZA engine_parse initial Hlen)
      as (first & mid & last & Hsorted & ->).
    split; [| apply sort_by_order_spec].
    rewrite Hsorted. cbn [map]. rewrite !map_app, map_map. reflexivity.
  - unfold prefill. destruct (Nat.leb_spec 2 (length initial)); [lia | reflexivity].
Qed.

End ReopenFacts.

Section ReopenCases.

Import Json Http Postcode RouteModal RouteEdit Scenario Cases JsDate.

(** X10 at the scenario with planned times, one hour east of
    Greenwich. *)
Lemma reopened_route_confirms_same_scenario :
  confirm 3600000 strict_parse invalid_time geocoder route_miles_ok
    (RouteEdit.allDraft (prefill 3600000 Scenario.strict_parse (Some resolved_timed)))
  = (Confirmed resolved_timed (Some (RouteMiles.to_miles 321868.8%Q)), resolved_log).
Proof.
  apply (reopened_route_confirms_same 3600000 strict_parse invalid_time geocoder route_miles_ok
           ltac:(vm_compute; reflexivity) drafts_timed).
  - repeat (apply List.Forall_cons; [split; [eexists; reflexivity |] |]);
      [| | | apply List.Forall_nil].
    + right. exists 2025, 12, 21, 9, 30.
      split; [vm_compute; reflexivity |]. split; [| lia].
      unfold wall_clock. vm_compute. intuition discriminate.
    + left. reflexivity.
    + right. exists 2025, 12, 21, 17, 5.
      split; [vm_compute; reflexivity |]. split; [| lia].
      unfold wall_clock. vm_compute. intuition discriminate.
  - vm_compute. reflexivity.
Defined.

End ReopenCases.

(** ** The route-miles endpoint: replies *)

Section RouteMilesMore.

Import Json Http RouteMiles.

Variable number_to_string : number -> string.
Variable osrm : string -> fetched osrm_response.

(** X12. A longer route never shows fewer miles: the conversion to
    miles with one decimal is monotone in the metres. *)
Theorem to_miles_monotone (m1 m2 : Q) :
  (m1 <= m2)%Q -> (to_miles m1 <= to_miles m2)%Q.
Proof.
  intros Hm. unfold to_miles, Double.div, Double.mul.
  apply fl_monotone. unfold Qdiv.
  apply Qmult_le_compat_r; [| discriminate].
  apply Math_round_monotone, fl_monotone.
  apply Qmult_le_compat_r; [| discriminate].
  apply fl_monotone.
  apply Qmult_le_compat_r; [by apply fl_monotone |].
  rewrite meters_per_mile_double. discriminate.
Qed.

(** X13. Every reply of the endpoint is either status 200 with a body
    that holds [miles] and nothing else, the miles of a distance within
    the range of the doubles or null for a distance beyond it, or status
    400, 500 or 502 with a body that holds an [error] text and nothing
    else: miles come with 200 only, and a 200 never carries an error. *)
Theorem route_miles_reply_shape (request : option value) :
  let r := POST number_to_string osrm request in
  (exists meters,
     if isFinite (clamp meters) then r = Reply 200 (JObj [("miles", JNum (to_miles meters))])
     else r = Reply 200 (JObj [("miles", JNull)])) \/
  (exists st msg, r = error_reply st msg /\ (st = 400 \/ st = 500 \/ st = 502)%N).
Proof.
  cbv zeta. unfold POST.
  assert (Herr : forall st msg, (st = 400 \/ st = 500 \/ st = 502)%N ->
            (exists meters,
               if isFinite (clamp meters)
               then error_reply st msg = Reply 200 (JObj [("miles", JNum (to_miles meters))])
               else error_reply st msg = Reply 200 (JObj [("miles", JNull)])) \/
            (exists st' msg', error_reply st msg = error_reply st' msg' /\
                              (st' = 400 \/ st' = 500 \/ st' = 502)%N)).
  { intros st msg Hst. right. eauto. }
  destruct (validate request) as [rejection|coords] eqn:Hvalid.
  - unfold validate in Hvalid.
    destruct (get _ "coords") as [[| | | |coordsRaw|]|];
      try (injection Hvalid as <-; apply Herr; tauto).
    destruct (length coordsRaw <? 2)%nat; [injection Hvalid as <-; apply Herr; tauto |].
    destruct (length _ <? 2)%nat; [injection Hvalid as <-; apply Herr; tauto | discriminate].
  - unfold route.
    destruct (osrm _) as [m|resp]; [apply Herr; tauto |].
    destruct (negb (osrm_ok resp)); [apply Herr; tauto |].
    destruct (osrm_json resp) as [m|json]; [apply Herr; tauto |].
    destruct (distance_of json) as [[| | meters | | |]|]; try (apply Herr; tauto).
    left. exists meters. by destruct (isFinite (clamp meters)).
Qed.

(** X14. A request that is answered with 400 is answered without the
    routing service: the reply is the same whatever that service would
    have done. *)
Theorem rejected_request_ignores_routing (request : option value)
    (number_to_string' : number -> string) (osrm' : string -> fetched osrm_response) :
  reply_status (POST number_to_string osrm request) = 400%N ->
  POST number_to_string' osrm' request = POST number_to_string osrm request /\
  validate request = inl (POST number_to_string osrm request).
Proof.
  unfold POST. destruct (validate request) as [rejection|coords]; [done |].
  intros H. by apply route_status in H.
Qed.

End RouteMilesMore.

Section RouteMilesCases.

Import Json Http RouteMiles Scenario.

(** X12 at 100 and 200 kilometres. *)
Lemma to_miles_monotone_scenario : (to_miles 100000 <= to_miles 200000)%Q.
Proof. apply (to_miles_monotone 100000 200000). discriminate. Defined.

(** X14 at a request with one coordinate. *)
Lemma rejected_request_ignores_routing_scenario :
  let request := Some (JObj [("coords", JArr [entry (JNum 53.5%Q) (JNum (-2.7)%Q)])]) in
  POST show_number osrm_no_route request = POST show_number osrm_route request /\
  validate request = inl (POST show_number osrm_route request).
Proof.
  apply (rejected_request_ignores_routing show_number osrm_route
           (Some (JObj [("coords", JArr [entry (JNum 53.5%Q) (JNum (-2.7)%Q)])]))
           show_number osrm_no_route).
  reflexivity.
Defined.

End RouteMilesCases.

(** ** Weekly pay of a driver paid by the hour *)

Section HourlyPay.

Import DriverPay DayActions.

Variable entries : list DayEntry.
Variable d : DriverRow.
Hypothesis paid_by_the_hour : pay_type d = hourly.

Lemma week_step_hourly (acc : totals) (day : string) :
  let acc' := week_step entries d acc day in
  let add (p : DayStatus -> bool) :=
    match getEntry entries (id d) day with
    | Some entry => if p (status entry) then default 0%Q (hours entry) else 0%Q
    | None => 0%Q
    end in
  t_workUnits acc' = t_workUnits acc /\
  t_leaveUnits acc' = t_leaveUnits acc /\
  t_unpaidUnits acc' = t_unpaidUnits acc /\
  (t_hoursWork acc' == t_hoursWork acc + add is_work /\
   t_hoursLeave acc' == t_hoursLeave acc + add is_leave /\
   t_hoursUnpaid acc' == t_hoursUnpaid acc + add is_unpaid)%Q.
Proof.
  cbv zeta. unfold week_step.
  destruct (getEntry entries (id d) day) as [entry|].
  2:{ rewrite !Qplus_0_r. repeat split; reflexivity. }
  destruct acc as [wu lu uu hw hl hu].
  destruct (decide (pay_type d = shift)) as [e|_]; [congruence |].
  destruct (status entry); cbn; rewrite ?Qplus_0_r; repeat split; reflexivity.
Qed.

Lemma week_loop_hourly (weekDates : list string) :
  forall acc,
  let acc' := foldl (week_step entries d) acc weekDates in
  t_workUnits acc' = t_workUnits acc /\
  t_leaveUnits acc' = t_leaveUnits acc /\
  t_unpaidUnits acc' = t_unpaidUnits acc /\
  (t_hoursWork acc' == t_hoursWork acc + hours_with entries d is_work weekDates /\
   t_hoursLeave acc' == t_hoursLeave acc + hours_with entries d is_leave weekDates /\
   t_hoursUnpaid acc' == t_hoursUnpaid acc + hours_with entries d is_unpaid weekDates)%Q.
Proof.
  induction weekDates as [|day l IH]; intros acc; cbv zeta.
  { cbn. rewrite !Qplus_0_r. repeat split; reflexivity. }
  destruct (IH (week_step entries d acc day)) as (Hwu & Hlu & Huu & Hw & Hl & Hu).
  destruct (week_step_hourly acc day) as (Hwu1 & Hlu1 & Huu1 & Hw1 & Hl1 & Hu1).
  cbv zeta in *. cbn [foldl].
  rewrite Hwu, Hlu, Huu, Hwu1, Hlu1, Huu1, Hw, Hl, Hu, Hw1, Hl1, Hu1.
  repeat split; try reflexivity; unfold hours_with; cbn [foldr];
    destruct (getEntry entries (id d) day) as [entry|]; try ring;
    destruct (is_work (status entry)), (is_leave (status entry)),
      (is_unpaid (status entry)); ring.
Qed.

(** X15. For a driver paid by the hour, the week counts hours and no
    units: the work, leave and unpaid hours are the recorded hours of
    the work, leave, and off or sick days (none for an entry without
    hours), days without an entry count for nothing, and the amount is
    the work and leave hours times the rate; the hours of off and sick
    days are not paid. *)
Theorem hourly_week_pay (weekDates : list string) :
  let w := computeDriverWeek entries weekDates d in
  workUnits w = 0%Q /\ leaveUnits w = 0%Q /\ unpaidUnits w = 0%Q /\
  (hoursWork w == hours_with entries d is_work weekDates /\
   hoursLeave w == hours_with entries d is_leave weekDates /\
   hoursUnpaid w == hours_with entries d is_unpaid weekDates /\
   amount w == (hours_with entries d is_work weekDates
                + hours_with entries d is_leave weekDates) * default 0 (pay_rate d))%Q.
Proof.
  cbv zeta.
  destruct (week_loop_hourly weekDates (Totals 0 0 0 0 0 0))
    as (Hwu & Hlu & Huu & Hw & Hl & Hu).
  unfold computeDriverWeek.
  destruct (foldl _ _ weekDates) as [wu lu uu hw hl hu].
  cbn [t_workUnits t_leaveUnits t_unpaidUnits t_hoursWork t_hoursLeave t_hoursUnpaid] in *.
  destruct (decide (pay_type d = shift)) as [e|_]; [congruence |].
  cbn [workUnits leaveUnits unpaidUnits hoursWork hoursLeave hoursUnpaid amount].
  rewrite Hw, Hl, Hu, !Qplus_0_l. repeat split; done.
Qed.

End HourlyPay.

Section HourlyPayCases.

Import DriverPay DayActions Scenario Cases.

(** X15 at the hourly week of the specification: 16 paid hours. *)
Lemma hourly_week_pay_scenario :
  let w := computeDriverWeek hourly_entries week hourly_driver in
  workUnits w = 0%Q /\ leaveUnits w = 0%Q /\ unpaidUnits w = 0%Q /\
  (hoursWork w == hours_with hourly_entries hourly_driver is_work week /\
   hoursLeave w == hours_with hourly_entries hourly_driver is_leave week /\
   hoursUnpaid w == hours_with hourly_entries hourly_driver is_unpaid week /\
   amount w == (hours_with hourly_entries hourly_driver is_work week
                + hours_with hourly_entries hourly_driver is_leave week)
               * default 0 (pay_rate hourly_driver))%Q.
Proof. exact (hourly_week_pay hourly_entries hourly_driver eq_refl week). Defined.

Example hourly_week_amount :
  (amount (computeDriverWeek hourly_entries week hourly_driver) == 320)%Q /\
  (hoursUnpaid (computeDriverWeek hourly_entries week hourly_driver) == 3)%Q.
Proof. split; vm_compute; reflexivity. Qed.

End HourlyPayCases.

(** ** Notes of days marked by hand *)

Section ManualNotes.

Import DriverPay DayActions.

Lemma drop_while_app_stop {A} (p : A -> bool) (a b : list A) (c : A) :
  p c = false -> Js.drop_while p (a ++ c :: b) = (Js.drop_while p a ++ c :: b)%list.
Proof.
  intros Hc. induction a as [|x a IH]; cbn [app Js.drop_while].
  - by rewrite Hc.
  - destruct (p x); [exact IH | reflexivity].
Qed.

(** Trimming a text that starts with a visible character and holds
    another one keeps everything up to the latter. *)
Lemma trim_chars_keeps_prefix (c0 c : ascii) (p r : list ascii) :
  Js.is_white_space c0 = false -> Js.is_white_space c = false ->
  Js.trim_chars (c0 :: p ++ c :: r)
  = (c0 :: p ++ c :: rev (Js.drop_while Js.is_white_space (rev r)))%list.
Proof.
  intros H0 Hc. unfold Js.trim_chars. cbn [Js.drop_while]. rewrite H0.
  change (c0 :: p ++ c :: r)%list with ((c0 :: p) ++ c :: r)%list.
  rewrite rev_app_distr. cbn [rev]. rewrite <- app_assoc. cbn [app].
  rewrite drop_while_app_stop by done.
  rewrite rev_app_distr. cbn [rev]. rewrite rev_app_distr, rev_involutive.
  cbn [rev app]. by rewrite <- app_assoc.
Qed.

(** Whatever follows [Manual:], the check of the reconciler sees the
    marker. *)
Lemma manual_marker_seen (rest : string) :
  Js.startsWith (Js.toLowerCase (Js.trim ("Manual:" ++ rest))) "manual:" = true.
Proof.
  unfold Js.trim, Js.toLowerCase. rewrite chars_str.
  change (Js.chars ("Manual:" ++ rest))
    with ("M"%char :: ["a"; "n"; "u"; "a"; "l"]%char ++ ":"%char :: Js.chars rest)%list.
  rewrite trim_chars_keeps_prefix by reflexivity.
  cbn [app map Js.str string_of_list_ascii].
  destruct (string_of_list_ascii _); reflexivity.
Qed.

Lemma buildManualNote_marker (kind : ManualKind) (reason free : string) :
  exists rest, buildManualNote kind reason free = "Manual:" ++ rest.
Proof.
  unfold buildManualNote. cbv zeta.
  destruct (Js.truthy (Js.trim reason) && negb (String.eqb (Js.trim reason) "Other"));
    destruct (String.eqb (Js.trim reason) "Other" && Js.truthy (Js.trim free));
    try destruct (Js.truthy (Js.trim free)); cbn; eauto.
Qed.

(** X16. Every note that the page writes for a day marked by hand is
    recognised as manual by the reconciler's check, whatever the kind,
    the reason and the free text; so are the default notes of leave, off
    and sick days. The note of an automatic work entry is not. *)
Theorem manual_notes_recognised (kind : ManualKind) (reason free : string)
    (e : DayEntry) :
  notes e = Some (buildManualNote kind reason free) \/
  notes e = Some "Manual: Annual leave" \/
  notes e = Some "Manual: Off (unpaid)" \/
  notes e = Some "Manual: Sick (unpaid)" ->
  is_manual (Some e) = true /\
  is_manual (Some {| entry_id := entry_id e; driver_id := driver_id e;
                     entry_date := entry_date e; status := status e;
                     shifts := shifts e; hours := hours e;
                     notes := Some "Auto: from completed job" |}) = false.
Proof.
  intros Hnote. split; [| reflexivity].
  unfold is_manual. cbn [mbind option_bind].
  destruct Hnote as [-> | [-> | [-> | ->]]]; try reflexivity.
  destruct (buildManualNote_marker kind reason free) as [rest ->].
  apply manual_marker_seen.
Qed.

End ManualNotes.

Section ManualNotesCases.

Import DriverPay DayActions Scenario.

(** X16 at a standby day. *)
Lemma manual_notes_recognised_scenario :
  let e := {| entry_id := "r2"; driver_id := "d1"; entry_date := "2025-01-07";
              status := work; shifts := Some 1%Q; hours := None;
              notes := Some (buildManualNote Work "Standby" "  yard  ") |} in
  is_manual (Some e) = true /\
  is_manual (Some {| entry_id := entry_id e; driver_id := driver_id e;
                     entry_date := entry_date e; status := status e;
                     shifts := shifts e; hours := hours e;
                     notes := Some "Auto: from completed job" |}) = false.
Proof.
  apply (manual_notes_recognised Work "Standby" "  yard  ").
  left. reflexivity.
Defined.

End ManualNotesCases.

(** ** The day entries on the page *)

Section EntryLookup.

Import DriverPay DayActions.

Lemma chars_app (a b : string) : Js.chars (a ++ b) = (Js.chars a ++ Js.chars b)%list.
Proof.
  unfold Js.chars. induction a as [|c a IH]; simpl; [done | by rewrite IH].
Qed.

Lemma length_chars (s : string) : length (Js.chars s) = String.length s.
Proof. by rewrite <- (str_chars s) at 2; rewrite length_str. Qed.

Lemma chars_inj (a b : string) : Js.chars a = Js.chars b -> a = b.
Proof. intros H. by rewrite <- (str_chars a), H, str_chars. Qed.

(** Two keys of the entry map with dates of the same length are equal
    only for the same driver and date. *)
Lemma entry_key_inj (d1 d2 e1 e2 : string) :
  String.length e1 = String.length e2 ->
  entry_key d1 e1 = entry_key d2 e2 -> d1 = d2 /\ e1 = e2.
Proof.
  intros Hlen Hkey. apply (f_equal Js.chars) in Hkey.
  unfold entry_key in Hkey. rewrite !chars_app in Hkey.
  apply app_inj_2 in Hkey as [Hd He].
  - apply chars_inj in Hd. apply app_inj_2 in He as [_ He]; [| by rewrite !length_chars].
    apply chars_inj in He. done.
  - rewrite !length_app, !length_chars. by rewrite Hlen.
Qed.

Lemma snapshot_snoc (l : list DayEntry) (x : DayEntry) :
  entriesByDriverDate (l ++ [x]) = <[key_of x := x]> (entriesByDriverDate l).
Proof. unfold entriesByDriverDate. by rewrite foldl_app. Qed.

(** The entry map holds, under a key, the last entry of that key. *)
Lemma snapshot_unique (l : list DayEntry) (e : DayEntry) :
  e ∈ l ->
  (forall e', e' ∈ l -> key_of e' = key_of e -> e' = e) ->
  entriesByDriverDate l !! key_of e = Some e.
Proof.
  induction l as [|x l IH] using rev_ind; intros Hin Huniq.
  { by apply not_elem_of_nil in Hin. }
  rewrite snapshot_snoc.
  destruct (decide (key_of x = key_of e)) as [Heq|Hne].
  - assert (x = e) as ->.
    { apply Huniq; [| done]. apply elem_of_app. right. by apply list_elem_of_singleton. }
    by rewrite lookup_insert_eq.
  - rewrite lookup_insert_ne by done. apply IH.
    + apply elem_of_app in Hin as [Hin|Hin]; [done |].
      apply list_elem_of_singleton in Hin. congruence.
    + intros e' He'. apply Huniq. apply elem_of_app. by left.
Qed.

(** X17. The lookup of the page finds the entry of a driver and a date:
    when the dates of the entries have the same length (they are
    YYYY-MM-DD) and no two entries share driver and date, [getEntry]
    returns an entry exactly for its own driver and date. *)
Theorem getEntry_finds (entries : list DayEntry) (driver date : string) (e : DayEntry) :
  (forall e', e' ∈ entries -> String.length (entry_date e') = String.length date) ->
  (forall e1 e2, e1 ∈ entries -> e2 ∈ entries ->
                 driver_id e1 = driver_id e2 -> entry_date e1 = entry_date e2 -> e1 = e2) ->
  getEntry entries driver date = Some e <->
  e ∈ entries /\ driver_id e = driver /\ entry_date e = date.
Proof.
  intros Hlen Huniq. unfold getEntry. split.
  - intros Hget.
    assert (is_Some (entriesByDriverDate entries !! entry_key driver date)) as Hsome by eauto.
    assert (exists e', e' ∈ entries /\ key_of e' = entry_key driver date)
      as (e' & He' & Hk).
    { by apply snapshot_is_Some. }
    destruct (entry_key_inj _ _ _ _ (Hlen e' He') Hk) as [Hd Hdt].
    assert (entriesByDriverDate entries !! key_of e' = Some e') as Hfound.
    { apply snapshot_unique; [done |]. intros e'' He'' Hk''.
      assert (String.length (entry_date e'') = String.length (entry_date e')) as Hl
        by (rewrite (Hlen e'' He''), (Hlen e' He'); done).
      destruct (entry_key_inj _ _ _ _ Hl Hk''). by apply Huniq. }
    rewrite Hk, Hget in Hfound. injection Hfound as ->. done.
  - intros (He & <- & <-). apply (snapshot_unique entries e He).
    intros e' He' Hk.
    assert (String.length (entry_date e') = String.length (entry_date e)) as Hl
      by (rewrite (Hlen e' He'); done).
    destruct (entry_key_inj _ _ _ _ Hl Hk). by apply Huniq.
Qed.

End EntryLookup.

Section EntryLookupCases.

Import DriverPay DayActions Scenario.

(** X17 at the Monday of the week of the specification. *)
Lemma getEntry_finds_scenario :
  let e := day_entry "2025-01-06" work (Some 1%Q) (Some 12%Q) in
  getEntry week_entries "d1" "2025-01-06" = Some e <->
  e ∈ week_entries /\ driver_id e = "d1" /\ entry_date e = "2025-01-06".
Proof.
  apply (getEntry_finds week_entries "d1" "2025-01-06").
  - intros e' H. unfold week_entries in H.
    repeat (apply elem_of_cons in H as [->|H]; [reflexivity |]).
    by apply not_elem_of_nil in H.
  - intros e1 e2 H1 H2. unfold week_entries in H1, H2.
    repeat (apply elem_of_cons in H1 as [->|H1];
            [repeat (apply elem_of_cons in H2 as [->|H2];
                     [first [reflexivity | intros _ Hd; discriminate Hd] |]);
             by apply not_elem_of_nil in H2 |]).
    by apply not_elem_of_nil in H1.
Defined.

End EntryLookupCases.

(** ** Marking a day, and what the page shows afterwards *)

Section ActionFacts.

Import Json Http DriverPay DayActions.

Variable in_week : string -> bool.
Variable new_id : gmap row_key stored -> string.

#[local] Abbreviation upsert := (upsert new_id).
#[local] Abbreviation load_entries := (load_entries in_week).
#[local] Abbreviation load := (load in_week).

(** The row of an upsert is the entry that the reloaded page shows for
    its driver and date. *)
Lemma saved_row_is_shown (p : payload) (t : gmap row_key stored) :
  in_week (p_entry_date p) = true ->
  rows_of (p_owner_id p) (p_entry_date p) t ->
  exists row_id,
    getEntry (load_entries (upsert p t)) (p_driver_id p) (p_entry_date p)
    = Some {| entry_id := row_id; driver_id := p_driver_id p;
              entry_date := p_entry_date p; status := p_status p;
              shifts := p_shifts p; hours := p_hours p; notes := p_notes p |}.
Proof.
  intros Hweek Hrows.
  set (k := (p_owner_id p, p_driver_id p, p_entry_date p)).
  set (row_id := match t !! k with Some old => st_id old | None => new_id t end).
  set (row := Stored row_id (p_status p) (p_shifts p) (p_hours p) (p_notes p)).
  assert (Hup : upsert p t = <[k := row]> t) by reflexivity.
  exists row_id.
  change (getEntry (load_entries (upsert p t)) (p_driver_id p) (p_entry_date p)
          = Some (to_entry (k, row))).
  unfold getEntry.
  change (entry_key (p_driver_id p) (p_entry_date p)) with (key_of (to_entry (k, row))).
  apply snapshot_unique.
  - apply load_entries_elem. exists k, row. rewrite Hup, lookup_insert_eq. done.
  - intros e' He' Hkey.
    apply load_entries_elem in He' as ([[o d] dt] & v & Hlook & <- & _).
    rewrite Hup in Hlook.
    destruct (decide (k = (o, d, dt))) as [Heq|Hne].
    { rewrite <- Heq in *. rewrite lookup_insert_eq in Hlook. by injection Hlook as <-. }
    rewrite lookup_insert_ne in Hlook by done.
    destruct (Hrows o d dt v Hlook) as [-> Hlen].
    change (entry_key d dt = entry_key (p_driver_id p) (p_entry_date p)) in Hkey.
    apply entry_key_inj in Hkey as [Hd Hdt]; [| done].
    destruct Hne. unfold k. by rewrite Hd, Hdt.
Qed.


Lemma Math_max0_nonneg (x : Q) : (0 <= Math_max0 x)%Q.
Proof.
  unfold Math_max0. destruct (Qle_bool 0 x) eqn:E; [by apply Qle_bool_iff | apply Qle_refl].
Qed.

(** X18. Marking a day is seen on the reloaded page: for a date of the
    week and a table that holds the user's rows, [upsertDayEntry] leaves
    no error and an entry for the driver and the date with the chosen
    status; a work or leave day records one shift, whatever the pay
    type; a shift driver records no hours, a driver paid by the hour
    records 0 hours for an off or sick day; and a day marked by hand
    carries a note that the reconciler recognises as manual. *)
Theorem marked_day_is_shown (user_id : string) (ui : Controls) (driver : DriverRow)
    (date : string) (st : DayStatus) (opts : option Opts) (pg : page) :
  in_week date = true ->
  rows_of user_id date (table pg) ->
  let pg' := upsertDayEntry in_week new_id (User user_id) ui driver date st opts pg in
  error pg' = None /\
  exists e,
    getEntry (entries pg') (id driver) date = Some e /\
    status e = st /\
    (st = work \/ st = leave -> shifts e = Some 1%Q) /\
    (pay_type driver = shift -> hours e = None) /\
    (pay_type driver = hourly -> st = off \/ st = sick -> hours e = Some 0%Q) /\
    (default false (manual <$> opts) = true -> is_manual (Some e) = true).
Proof.
  intros Hweek Hrows. cbv zeta. split; [reflexivity |].
  unfold upsertDayEntry, save. cbn [entries DriverPay.load].
  set (p := day_payload ui (entries pg) user_id driver date st opts).
  destruct (saved_row_is_shown p (table pg) Hweek Hrows) as [row_id Hshown].
  eexists. split; [exact Hshown |].
  cbn [status shifts hours notes p_status p_shifts p_hours p_notes p day_payload].
  split; [reflexivity |]. split; [| split; [| split]].
  - intros [-> | ->]; by destruct (decide (pay_type driver = shift)).
  - intros Hshift. destruct (decide (pay_type driver = hourly)); [congruence | done].
  - intros Hhourly Hst. destruct (decide (pay_type driver = hourly)); [| done].
    by destruct Hst as [-> | ->].
  - intros Hmanual. rewrite Hmanual.
    unfold is_manual. cbn [mbind option_bind notes].
    destruct (buildManualNote_marker (default Work (opts ≫= manualKindLabel))
                (manualReason ui) (manualFreeText ui)) as [rest ->].
    apply manual_marker_seen.
Qed.

(** X19. Typing the hours of a work day: for a driver paid by the hour
    with a work entry on the date, [updateWorkHours] keeps the status
    and the note of the entry and records one shift and hours that are
    never negative: the typed number when it reads as a number that is
    not negative, and 0 for a negative number and for a text that is no
    finite number. *)
Theorem work_hours_update (user_id : string) (driver : DriverRow)
    (date hoursStr : string) (pg : page) (entry : DayEntry) :
  pay_type driver = hourly ->
  getEntry (entries pg) (id driver) date = Some entry ->
  status entry = work ->
  in_week date = true ->
  rows_of user_id date (table pg) ->
  let pg' := updateWorkHours in_week new_id (User user_id) driver date hoursStr pg in
  exists e h,
    getEntry (entries pg') (id driver) date = Some e /\
    status e = work /\ notes e = notes entry /\ shifts e = Some 1%Q /\
    hours e = Some h /\ (0 <= h)%Q /\
    h = match StringToNumber hoursStr with
        | Fin q => if Qle_bool 0 q then q else 0%Q
        | _ => 0%Q
        end.
Proof.
  intros Hhourly Hentry Hwork Hweek Hrows. cbv zeta.
  unfold updateWorkHours.
  destruct (decide (pay_type driver <> hourly)) as [Hne|_]; [by destruct Hne |].
  rewrite Hentry.
  destruct (decide (status entry <> work)) as [Hne|_]; [by destruct Hne |].
  unfold save. cbn [entries DriverPay.load].
  destruct (saved_row_is_shown (hours_payload user_id driver date hoursStr entry)
              (table pg) Hweek Hrows) as [row_id Hshown].
  eexists. eexists. split; [exact Hshown |].
  cbn [status shifts hours notes p_status p_shifts p_hours p_notes hours_payload].
  repeat split; [apply Math_max0_nonneg |].
  unfold Math_max0, clampNum. destruct (StringToNumber hoursStr); reflexivity.
Qed.

(** X20. Clearing a day removes it from the page and touches nothing
    else: when the dates of the table are written like the date, the
    reloaded page has no entry for the driver and the date, and the rows
    of other drivers or dates are as they were. *)
Theorem cleared_day_is_gone (driver date : string) (pg : page) :
  (forall o d dt v, table pg !! (o, d, dt) = Some v ->
                    String.length dt = String.length date) ->
  let pg' := clearDayEntry in_week driver date pg in
  getEntry (entries pg') driver date = None /\
  (forall o, table pg' !! (o, driver, date) = None) /\
  (forall o d dt, ~ (d = driver /\ dt = date) ->
                  table pg' !! (o, d, dt) = table pg !! (o, d, dt)).
Proof.
  intros Hlen. cbv zeta. unfold clearDayEntry. cbn [table entries DriverPay.load].
  set (t' := filter _ (table pg)).
  assert (Hgone : forall o, t' !! (o, driver, date) = None).
  { intros o. unfold t'. apply map_lookup_filter_None. right. intros v _ Hkeep.
    apply Hkeep. done. }
  assert (Hkept : forall o d dt, ~ (d = driver /\ dt = date) ->
            t' !! (o, d, dt) = table pg !! (o, d, dt)).
  { intros o d dt Hne. unfold t'.
    destruct (table pg !! (o, d, dt)) as [v|] eqn:E.
    - apply map_lookup_filter_Some. split; [done |]. exact Hne.
    - apply map_lookup_filter_None. by left. }
  split; [| split; [exact Hgone | exact Hkept]].
  unfold getEntry.
  destruct (entriesByDriverDate (load_entries t') !! entry_key driver date) as [e|] eqn:E;
    [| done].
  exfalso.
  destruct (snapshot_sound in_week t' (entry_key driver date) ltac:(eauto))
    as (o & d & dt & v & Hrow & _ & Hkey).
  assert (table pg !! (o, d, dt) = Some v) as Hold.
  { unfold t' in Hrow. by apply map_lookup_filter_Some in Hrow as [? _]. }
  apply entry_key_inj in Hkey as [-> ->]; [| by apply (Hlen o d dt v)].
  by rewrite Hgone in Hrow.
Qed.

End ActionFacts.

Section ActionCases.

Import Json Http DriverPay DayActions Scenario Cases.

Lemma store_rows (date : string) :
  String.length date = 10%nat -> rows_of "u1" date store.
Proof.
  intros Hlen o d dt v H. unfold store in H. rewrite Hlen.
  apply lookup_insert_Some in H as [[[= <- <- <-] _]|[_ H]]; [done |].
  apply lookup_insert_Some in H as [[[= <- <- <-] _]|[_ H]]; [done |].
  by rewrite lookup_empty in H.
Qed.

(** X18 at an off day marked by hand on the Thursday of the scenario. *)
Lemma marked_day_is_shown_scenario :
  let pg' := upsertDayEntry in_week new_id (User "u1") controls driver "2025-01-09" off
               (by_hand Off) (load in_week store) in
  error pg' = None /\
  exists e,
    getEntry (entries pg') (id driver) "2025-01-09" = Some e /\
    status e = off /\
    (off = work \/ off = leave -> shifts e = Some 1%Q) /\
    (pay_type driver = shift -> hours e = None) /\
    (pay_type driver = hourly -> off = off \/ off = sick -> hours e = Some 0%Q) /\
    (default false (manual <$> by_hand Off) = true -> is_manual (Some e) = true).
Proof.
  apply (marked_day_is_shown in_week new_id "u1" controls driver "2025-01-09" off
           (by_hand Off) (load in_week store)).
  - reflexivity.
  - apply store_rows. reflexivity.
Defined.

(** X19 at the work day of the hourly table, with seven and a half
    hours typed. *)
Lemma work_hours_update_scenario :
  let pg' := updateWorkHours in_week new_id (User "u1") hourly_driver "2025-01-06" "7.5"
               (load in_week hourly_store) in
  exists e h,
    getEntry (entries pg') (id hourly_driver) "2025-01-06" = Some e /\
    status e = work /\ notes e = None /\ shifts e = Some 1%Q /\
    hours e = Some h /\ (0 <= h)%Q /\
    h = match StringToNumber "7.5" with
        | Fin q => if Qle_bool 0 q then q else 0%Q
        | _ => 0%Q
        end.
Proof.
  apply (work_hours_update in_week new_id "u1" hourly_driver "2025-01-06" "7.5"
           (load in_week hourly_store)
           {| entry_id := "r1"; driver_id := "d1"; entry_date := "2025-01-06";
              status := work; shifts := Some 1%Q; hours := Some 8%Q; notes := None |}).
  - reflexivity.
  - vm_compute. reflexivity.
  - reflexivity.
  - reflexivity.
  - intros o d dt v H. unfold DriverPay.load in H. cbn [table] in H.
    unfold hourly_store in H.
    apply lookup_insert_Some in H as [[[= <- <- <-] _]|[_ H]]; [done |].
    by rewrite lookup_empty in H.
Defined.

(** X20 at the leave day of the scenario. *)
Lemma cleared_day_is_gone_scenario :
  let pg' := clearDayEntry in_week "d1" "2025-01-08" (load in_week store) in
  getEntry (entries pg') "d1" "2025-01-08" = None /\
  (forall o, table pg' !! (o, "d1", "2025-01-08") = None) /\
  (forall o d dt, ~ (d = "d1" /\ dt = "2025-01-08") ->
                  table pg' !! (o, d, dt) = table (load in_week store) !! (o, d, dt)).
Proof.
  apply (cleared_day_is_gone in_week "d1" "2025-01-08" (load in_week store)).
  intros o d dt v H. by apply (store_rows "2025-01-08" eq_refl o d dt v).
Defined.

End ActionCases.

(** ** What the reconciler adds *)

Section SyncMore.

Import DriverPay.

Variable in_week : string -> bool.
Variable new_id : gmap row_key stored -> string.

#[local] Abbreviation upsert := (upsert new_id).
#[local] Abbreviation load_entries := (load_entries in_week).
#[local] Abbreviation load := (load in_week).
#[local] Abbreviation sync_step := (sync_step new_id).
#[local] Abbreviation selected := (selected in_week).
#[local] Abbreviation syncFromCompletedJobs := (syncFromCompletedJobs in_week new_id).

(** X21. After a run of the reconciler every completed-job day of the
    user in the week, with a driver and a date, has an entry on the
    reloaded page: the entry that was there, or a new one. *)
Theorem completed_days_have_entries (user_id : string) (view : list CompletedJobDay)
    (t : gmap row_key stored) (r : CompletedJobDay) :
  r ∈ view ->
  job_owner_id r = user_id ->
  in_week (job_entry_date r) = true ->
  job_driver_id r <> "" -> job_entry_date r <> "" ->
  is_Some (getEntry (entries (syncFromCompletedJobs (User user_id) view (load t)))
                    (job_driver_id r) (job_entry_date r)).
Proof.
  intros Hin Howner Hweek Hdriver Hdate.
  assert (Hsel : r ∈ selected user_id view).
  { unfold DriverPay.selected. apply list_elem_of_filter. done. }
  unfold DriverPay.syncFromCompletedJobs, DriverPay.load, getEntry. cbn [table entries].
  set (snapshot0 := entriesByDriverDate (load_entries t)).
  set (t1 := foldl (sync_step user_id snapshot0) t (selected user_id view)).
  destruct (sync_loop_covers new_id user_id snapshot0 r _ Hsel t) as [Hsnap|[Hrow|Hinv]].
  - apply snapshot_sound in Hsnap as (o & dr & dt & v & Hrow & Hwk & Hk).
    rewrite <- Hk. apply (snapshot_covers in_week t1 o dr dt v); [| done].
    apply sync_loop_keeps_rows; [done | | done].
    apply Forall_forall. intros r'. apply selected_in_week.
  - destruct Hrow as [v Hv]. by apply (snapshot_covers in_week t1 user_id _ _ v).
  - exfalso. destruct (job_driver_id r); [done |]. destruct (job_entry_date r); [done |].
    discriminate Hinv.
Qed.

(** X22. Run on a page whose entries are those of the table for the
    week (a page just loaded), the reconciler only adds: every row of the
    table after the run is a row of the table before it, unchanged, or a
    new row for a completed-job day of the user in the week for which the
    page showed no entry, and then it is an automatic work entry of one
    shift without hours. *)
Theorem sync_adds_only_automatic_work (user_id : string) (view : list CompletedJobDay)
    (pg : page) (k : row_key) (v : stored) :
  let t := table pg in
  entries pg = load_entries t ->
  table (syncFromCompletedJobs (User user_id) view pg) !! k = Some v ->
  t !! k = Some v \/
  (t !! k = None /\
   exists r, r ∈ view /\ job_owner_id r = user_id /\ in_week (job_entry_date r) = true /\
     k = (user_id, job_driver_id r, job_entry_date r) /\
     getEntry (load_entries t) (job_driver_id r) (job_entry_date r) = None /\
     st_status v = work /\ st_shifts v = Some 1%Q /\ st_hours v = None /\
     st_notes v = Some "Auto: from completed job").
Proof.
  destruct pg as [t es err]. cbn [table entries]. cbv zeta. intros ->.
  unfold DriverPay.syncFromCompletedJobs, DriverPay.load. cbn [table entries].
  set (snapshot0 := entriesByDriverDate (load_entries t)).
  set (Inv := fun t' : gmap row_key stored => forall k v,
    t' !! k = Some v ->
    t !! k = Some v \/
    (t !! k = None /\
     exists r, r ∈ view /\ job_owner_id r = user_id /\ in_week (job_entry_date r) = true /\
       k = (user_id, job_driver_id r, job_entry_date r) /\
       getEntry (load_entries t) (job_driver_id r) (job_entry_date r) = None /\
       st_status v = work /\ st_shifts v = Some 1%Q /\ st_hours v = None /\
       st_notes v = Some "Auto: from completed job")).
  assert (Hloop : forall l, l ⊆ selected user_id view ->
            forall t', Inv t' -> Inv (foldl (sync_step user_id snapshot0) t' l)).
  { induction l as [|r l IH]; intros Hsub t' Hinv; [done |].
    cbn [foldl]. apply IH; [intros x Hx; apply Hsub; by right |].
    assert (r ∈ selected user_id view) as Hr by (apply Hsub; by left).
    unfold DriverPay.selected in Hr. apply list_elem_of_filter in Hr as [[Howner Hweek] Hview].
    destruct (sync_step_cases new_id user_id snapshot0 t' r) as [->|[Hnone ->]]; [done |].
    intros k' v' Hlook.
    destruct (decide (k' = (user_id, job_driver_id r, job_entry_date r))) as [->|Hne].
    - right.
      assert (t !! (user_id, job_driver_id r, job_entry_date r) = None) as Hfresh.
      { destruct (t !! (user_id, job_driver_id r, job_entry_date r)) as [v0|] eqn:E; [| done].
        destruct (snapshot_covers in_week t _ _ _ _ E Hweek) as [e He].
        fold snapshot0 in He. congruence. }
      split; [done |]. exists r.
      unfold DriverPay.upsert in Hlook. rewrite lookup_insert_eq in Hlook.
      injection Hlook as <-. by repeat split.
    - rewrite upsert_other in Hlook by (cbn; congruence). by apply Hinv. }
  apply (Hloop (selected user_id view)); [done |].
  intros k' v' H. by left.
Qed.

End SyncMore.

Section SyncMoreCases.

Import DriverPay Scenario.

(** X21 at the Monday of the scenario, a completed job without entry. *)
Lemma completed_days_have_entries_scenario :
  is_Some (getEntry (entries (syncFromCompletedJobs in_week new_id (User "u1") view
                                (load in_week store)))
                    "d1" "2025-01-06").
Proof.
  apply (completed_days_have_entries in_week new_id "u1" view store (completed "2025-01-06")).
  - apply list_elem_of_In. left. reflexivity.
  - reflexivity.
  - reflexivity.
  - discriminate.
  - discriminate.
Defined.

(** X22 at the row that the run of the scenario adds for Monday. *)
Lemma sync_adds_only_automatic_work_scenario :
  let k := ("u1", "d1", "2025-01-06") in
  let v := Stored "row-2" work (Some 1%Q) None (Some "Auto: from completed job") in
  store !! k = Some v \/
  (store !! k = None /\
   exists r, r ∈ view /\ job_owner_id r = "u1" /\ in_week (job_entry_date r) = true /\
     k = ("u1", job_driver_id r, job_entry_date r) /\
     getEntry (load_entries in_week store) (job_driver_id r) (job_entry_date r) = None /\
     st_status v = work /\ st_shifts v = Some 1%Q /\ st_hours v = None /\
     st_notes v = Some "Auto: from completed job").
Proof.
  apply (sync_adds_only_automatic_work in_week new_id "u1" view (load in_week store)
           ("u1", "d1", "2025-01-06")
           (Stored "row-2" work (Some 1%Q) None (Some "Auto: from completed job"))).
  - reflexivity.
  - vm_compute. reflexivity.
Defined.

End SyncMoreCases.

(** ** The geocode endpoint *)

Section GeocodeFacts.

Import Json Http Postcode Geocode.

Variable number_to_string : number -> string.
Variable not_iterable : string.
Variable postcodes_io : list string -> fetched upstream.

#[local] Abbreviation text_of := (text_of number_to_string).
#[local] Abbreviation result_step := (result_step number_to_string).
#[local] Abbreviation forwarded := (forwarded number_to_string).

Lemma assign_elem (k : string) (v : value) (fields : list (string * value)) (kv : string * value) :
  kv ∈ assign k v fields -> kv = (k, v) \/ kv ∈ fields.
Proof.
  induction fields as [|[k' v'] rest IH]; cbn [assign].
  - intros H. apply list_elem_of_singleton in H. by left.
  - destruct (String.eqb k k').
    + intros H. apply elem_of_cons in H as [->|H]; [by left | right; by right].
    + intros H. apply elem_of_cons in H as [->|H]; [right; by left |].
      destruct (IH H) as [->|Hin]; [by left | right; by right].
Qed.

Lemma assign_keys (k : string) (v : value) (fields : list (string * value)) (k0 : string) :
  k0 ∈ (assign k v fields).*1 -> k0 = k \/ k0 ∈ fields.*1.
Proof.
  intros H. apply list_elem_of_fmap in H as (kv & -> & Hkv).
  destruct (assign_elem _ _ _ _ Hkv) as [->|Hin]; [by left |].
  right. apply list_elem_of_fmap. eauto.
Qed.

Lemma assign_NoDup (k : string) (v : value) (fields : list (string * value)) :
  NoDup fields.*1 -> NoDup (assign k v fields).*1.
Proof.
  induction fields as [|[k' v'] rest IH]; cbn [assign].
  - intros _. cbn. apply NoDup_singleton.
  - intros Hnd. cbn [fmap list_fmap] in Hnd. apply NoDup_cons in Hnd as [Hnotin Hnd].
    destruct (String.eqb_spec k k') as [->|Hne].
    + cbn [fmap list_fmap]. by apply NoDup_cons.
    + cbn [fmap list_fmap]. apply NoDup_cons. split; [| by apply IH].
      intros Hin. destruct (assign_keys _ _ _ _ Hin) as [Heq|Hold]; [by subst | done].
Qed.

(** What the loop leaves in [results]. *)
Lemma results_invariant (items : list value) :
  forall fields,
  NoDup fields.*1 ->
  Forall (fun kv : string * value =>
            kv.1 <> "" /\ normKey kv.1 = kv.1 /\
            (kv.2 = JNull \/
             exists lat lng, kv.2 = object_of [("lat", lat); ("lng", lng)])) fields ->
  let fields' := foldl result_step fields items in
  NoDup fields'.*1 /\
  Forall (fun kv : string * value =>
            kv.1 <> "" /\ normKey kv.1 = kv.1 /\
            (kv.2 = JNull \/
             exists lat lng, kv.2 = object_of [("lat", lat); ("lng", lng)])) fields'.
Proof.
  induction items as [|item items IH]; intros fields Hnd Hall; [done |].
  cbn [foldl]. apply IH; unfold Geocode.result_step; cbv zeta.
  - destruct (negb (Js.truthy _)); [done |].
    destruct (negb (truthy_value _)); by apply assign_NoDup.
  - destruct (Js.truthy (normKey _)) eqn:Hq; cbn [negb]; [| done].
    assert (forall v,
              (v = JNull \/ exists lat lng, v = object_of [("lat", lat); ("lng", lng)]) ->
              Forall (fun kv : string * value =>
                        kv.1 <> "" /\ normKey kv.1 = kv.1 /\
                        (kv.2 = JNull \/
                         exists lat lng, kv.2 = object_of [("lat", lat); ("lng", lng)]))
                     (assign (normKey (text_of (get (Some item) "query")))
                             v fields)) as Hassign.
    { intros v Hv. apply Forall_forall. intros kv Hkv.
      destruct (assign_elem _ _ _ _ Hkv) as [->|Hold].
      - cbn [fst snd]. split; [| split; [apply normKey_idem | done]].
        intros Hempty. rewrite Hempty in Hq. discriminate.
      - rewrite Forall_forall in Hall. by apply Hall. }
    destruct (negb (truthy_value _)); apply Hassign; eauto.
Qed.

Lemma assoc_last_absent (k : string) (fields : list (string * value)) :
  k ∉ fields.*1 -> assoc_last k fields = None.
Proof.
  induction fields as [|[k' v'] rest IH]; [done |].
  cbn [fmap list_fmap assoc_last]. intros Hnotin.
  apply not_elem_of_cons in Hnotin as [Hne Hrest].
  rewrite (IH Hrest). by destruct (String.eqb_spec k k').
Qed.

(** X23. The results of a successful geocoding are keyed by canonical,
    non-empty postcodes, each once: the body of a 200 reply is an object
    [results] whose keys are non-empty and canonical and pairwise
    different, and whose values are [null] or an object with at most
    [lat] and [lng]; nothing is ever filed under the empty key. *)
Theorem geocode_results_keys (request : option value) (body : value) :
  Geocode.POST number_to_string not_iterable postcodes_io request
    = RouteMiles.Reply 200 body ->
  exists fields,
    body = JObj [("results", JObj fields)] /\
    NoDup fields.*1 /\
    Forall (fun kv : string * value =>
              kv.1 <> "" /\ normKey kv.1 = kv.1 /\
              (kv.2 = JNull \/
               exists lat lng, kv.2 = object_of [("lat", lat); ("lng", lng)])) fields /\
    get (get (Some body) "results") "" = None.
Proof.
  unfold Geocode.POST.
  destruct (forwarded request) as [rejection|postcodes] eqn:Hfw.
  { unfold Geocode.forwarded in Hfw.
    destruct (get _ "postcodes") as [[| | | |raw|]|]; try (injection Hfw as <-; discriminate).
    destruct (length raw =? 0)%nat; [injection Hfw as <-; discriminate |].
    destruct (length _ =? 0)%nat; [injection Hfw as <-; discriminate | discriminate]. }
  destruct (postcodes_io postcodes) as [m|resp]; [discriminate |].
  destruct (negb (up_ok resp)); [discriminate |].
  destruct (up_json resp) as [m|json]; [discriminate |].
  destruct (items_of not_iterable json) as [m|items]; [discriminate |].
  intros [= <-].
  destruct (results_invariant items [] ltac:(constructor) ltac:(constructor)) as [Hnd Hall].
  cbv zeta in Hnd, Hall.
  exists (foldl (result_step) [] items).
  split; [reflexivity |]. split; [exact Hnd |]. split; [exact Hall |].
  change (assoc_last "" (foldl (result_step) [] items) = None).
  apply assoc_last_absent. intros Hin.
  apply list_elem_of_fmap in Hin as (kv & Hk & Hkv).
  rewrite Forall_forall in Hall. destruct (Hall kv Hkv) as [Hne _]. by rewrite <- Hk in Hne.
Qed.

(** X24. The endpoint passes the batch of [confirm] on as it is: for
    every draft list that reaches the geocoding call, the batch sent to
    postcodes.io is the list of submitted keys, in order and with its
    repetitions; and the reply to that request is never a 400. *)
Theorem geocode_forwards_batch (allDraft : list RouteModal.DraftStop) :
  (2 <= length (RouteModal.submitted_postcodes allDraft))%nat ->
  forwarded (Some (request_of (RouteModal.submitted_postcodes allDraft)))
  = inr (RouteModal.submitted_postcodes allDraft).
Proof.
  intros Hlen. set (batch := RouteModal.submitted_postcodes allDraft) in *.
  assert (Hcanon : Forall (fun k => k <> "" /\ normKey k = k) batch).
  { unfold batch. rewrite submitted_postcodes_spec.
    apply Forall_forall. intros k Hk.
    apply list_elem_of_In, in_map_iff in Hk as (d & <- & Hd).
    apply list_elem_of_In, list_elem_of_filter in Hd as [Hne _].
    split; [done | apply normKey_idem]. }
  unfold Geocode.forwarded.
  change (get (Some (default (JObj []) (Some (request_of batch)))) "postcodes")
    with (Some (JArr (map JStr batch))).
  cbv iota. rewrite length_map.
  destruct (Nat.eqb_spec (length batch) 0) as [|_]; [lia |].
  assert (filter (fun p => Js.truthy p = true)
            (map (fun p => normKey (text_of (Some p))) (map JStr batch))
          = batch) as ->.
  { clear Hlen. rewrite map_map.
    induction Hcanon as [|k l [Hne Hk] _ IH]; [done |].
    cbn [map]. rewrite filter_cons, IH.
    change (text_of (Some (JStr k))) with k. rewrite Hk.
    destruct (decide (Js.truthy k = true)) as [_|Hf]; [done |].
    destruct k; [done | by destruct Hf]. }
  destruct (Nat.eqb_spec (length batch) 0); [lia | done].
Qed.

End GeocodeFacts.

Section GeocodeCases.

Import Json Http Postcode Geocode Scenario Cases.

(** X23 at a batch with a repeated and an unknown postcode. *)
Lemma geocode_results_keys_scenario :
  exists fields,
    geocode_body = JObj [("results", JObj fields)] /\
    NoDup fields.*1 /\
    Forall (fun kv : string * value =>
              kv.1 <> "" /\ normKey kv.1 = kv.1 /\
              (kv.2 = JNull \/
               exists lat lng, kv.2 = object_of [("lat", lat); ("lng", lng)])) fields /\
    get (get (Some geocode_body) "results") "" = None.
Proof.
  apply (geocode_results_keys show_number "json.result is not iterable" postcodes_io
           (Some (request_of ["WN50LR"; "XX11XX"; "WN50LR"])) geocode_body).
  vm_compute. reflexivity.
Defined.

(** X24 at the scenario of the specification. *)
Lemma geocode_forwards_batch_scenario :
  forwarded show_number (Some (request_of (RouteModal.submitted_postcodes drafts)))
  = inr (RouteModal.submitted_postcodes drafts).
Proof.
  apply (geocode_forwards_batch show_number drafts). vm_compute. lia.
Defined.

End GeocodeCases.

(** ** The calendar of the pay week *)

Section CalendarFacts.

Import Json JsDate Calendar.

Ltac day_lia := Z.to_euclidean_division_equations; lia.

Variable LocalTZA : Z.
Hypothesis offset_within_a_day : Z.abs LocalTZA < msPerDay.

(** The time value of the local day [n], [w] milliseconds into it. *)
#[local] Abbreviation at_day n w := (n * msPerDay + w - LocalTZA).

Lemma Day_at (n w : Z) : 0 <= w < msPerDay -> Day (n * msPerDay + w) = n.
Proof. unfold Day, msPerDay. intros. day_lia. Qed.

Lemma TimeWithinDay_at (n w : Z) :
  0 <= w < msPerDay -> TimeWithinDay (n * msPerDay + w) = w.
Proof. unfold TimeWithinDay, msPerDay. intros. day_lia. Qed.

Lemma TimeClip_at (n w : Z) :
  0 <= w < msPerDay -> Z.abs n <= 99000000 ->
  TimeClip (at_day n w) = Some (at_day n w).
Proof.
  intros Hw Hn. unfold TimeClip. unfold msPerDay in *.
  destruct (Z.leb_spec (Z.abs (n * 86400000 + w - LocalTZA)) 8640000000000000); [done | lia].
Qed.

(** Every time value is some local day and a time within it. *)
Lemma local_day (t : Z) :
  t = at_day (Day (t + LocalTZA)) (TimeWithinDay (t + LocalTZA)) /\
  0 <= TimeWithinDay (t + LocalTZA) < msPerDay.
Proof. unfold Day, TimeWithinDay, msPerDay. day_lia. Qed.

Lemma MakeDay_date (y m d k : Z) : MakeDay y m (d + k) = MakeDay y m d + k.
Proof. unfold MakeDay. lia. Qed.

Lemma getDay_at (n w : Z) :
  0 <= w < msPerDay -> getDay LocalTZA (Some (at_day n w)) = Some ((n + 4) mod 7).
Proof.
  intros Hw. unfold getDay, WeekDay, LocalTime. cbn [fmap option_fmap option_map compose].
  replace (at_day n w + LocalTZA) with (n * msPerDay + w) by lia.
  by rewrite Day_at.
Qed.

Lemma setDate_at (n w k : Z) :
  0 <= w < msPerDay -> Z.abs (n + k) <= 99000000 ->
  setDate LocalTZA (Some (at_day n w)) (date_plus LocalTZA (Some (at_day n w)) k)
  = Some (at_day (n + k) w).
Proof.
  intros Hw Hn. unfold setDate, date_plus, getDate, LocalTime, UTC.
  cbn [fmap option_fmap option_map compose mbind option_bind].
  replace (at_day n w + LocalTZA) with (n * msPerDay + w) by lia.
  rewrite MakeDay_date, MakeDay_fields, Day_at, TimeWithinDay_at by done.
  unfold MakeDate. by apply TimeClip_at.
Qed.

Lemma setHours0_at (n w : Z) :
  0 <= w < msPerDay -> Z.abs n <= 99000000 ->
  setHours0 LocalTZA (Some (at_day n w)) = Some (at_day n 0).
Proof.
  intros Hw Hn. unfold setHours0, LocalTime, UTC.
  cbn [mbind option_bind].
  replace (at_day n w + LocalTZA) with (n * msPerDay + w) by lia.
  rewrite Day_at by done. unfold MakeDate, MakeTime.
  replace (0 * msPerHour + 0 * msPerMinute + 0 * msPerSecond + 0) with 0 by reflexivity.
  apply TimeClip_at; [unfold msPerDay; lia | done].
Qed.

Lemma getFullYear_at (n w : Z) :
  0 <= w < msPerDay -> getFullYear LocalTZA (Some (at_day n w)) = Some (year_of_day n).
Proof.
  intros Hw. unfold getFullYear, LocalTime, YearFromTime.
  cbn [fmap option_fmap option_map compose].
  replace (at_day n w + LocalTZA) with (n * msPerDay + w) by lia.
  by rewrite Day_at.
Qed.

(** The day of the week of the Monday on or before a day. *)
Lemma monday_before (n : Z) :
  let m := n - (n + 3) mod 7 in
  (m + 4) mod 7 = 1 /\ 0 <= n - m <= 6.
Proof. cbv zeta. day_lia. Qed.

Lemma start_of_week_at (n w : Z) :
  0 <= w < msPerDay -> Z.abs n <= 98000000 ->
  startOfWeekMonday LocalTZA (Some (at_day n w)) = Some (at_day (n - (n + 3) mod 7) 0).
Proof.
  intros Hw Hn. unfold startOfWeekMonday. cbv zeta.
  rewrite getDay_at by done. cbn [fmap option_fmap option_map].
  set (diff := (if (n + 4) mod 7 =? 0 then -6 else 1) - (n + 4) mod 7).
  assert (Hdiff : n + diff = n - (n + 3) mod 7).
  { unfold diff. destruct (Z.eqb_spec ((n + 4) mod 7) 0); day_lia. }
  assert (Hdate : (a ← getDate LocalTZA (Some (at_day n w)); b ← Some diff; Some (a + b))
                  = date_plus LocalTZA (Some (at_day n w)) diff) by reflexivity.
  rewrite Hdate, setDate_at by (try done; rewrite Hdiff; day_lia).
  rewrite setHours0_at by (try done; rewrite Hdiff; day_lia).
  by rewrite Hdiff.
Qed.

(** X25. [startOfWeekMonday] gives the Monday on or before a date, at
    the start of the day: for a valid date, the result is a valid date
    that falls on a Monday at local midnight, not after the date and at
    most six days before it. *)
Theorem startOfWeekMonday_spec (t : Z) :
  Z.abs t <= 8000000000000000 ->
  exists m,
    startOfWeekMonday LocalTZA (Some t) = Some m /\
    getDay LocalTZA (Some m) = Some 1 /\
    TimeWithinDay (LocalTime LocalTZA m) = 0 /\
    0 <= Day (LocalTime LocalTZA t) - Day (LocalTime LocalTZA m) <= 6.
Proof.
  intros Ht. destruct (local_day t) as [Heq Hw].
  set (n := Day (t + LocalTZA)) in *. set (w := TimeWithinDay (t + LocalTZA)) in *.
  assert (Hn : Z.abs n <= 98000000).
  { unfold n, Day. unfold msPerDay in *. day_lia. }
  destruct (monday_before n) as [Hmon Hrange]. cbv zeta in Hmon, Hrange.
  exists (at_day (n - (n + 3) mod 7) 0).
  rewrite Heq at 1. rewrite start_of_week_at by done.
  split; [done |]. split; [| split].
  - rewrite getDay_at by (unfold msPerDay; lia). by rewrite Hmon.
  - unfold LocalTime.
    replace (at_day (n - (n + 3) mod 7) 0 + LocalTZA)
      with ((n - (n + 3) mod 7) * msPerDay + 0) by lia.
    apply TimeWithinDay_at. unfold msPerDay. lia.
  - unfold LocalTime. fold n.
    replace (at_day (n - (n + 3) mod 7) 0 + LocalTZA)
      with ((n - (n + 3) mod 7) * msPerDay + 0) by lia.
    rewrite Day_at by (unfold msPerDay; lia). lia.
Qed.


Lemma MakeDay_jan4 (y : Z) : MakeDay y 0 4 = DayFromYear y + 3.
Proof.
  unfold MakeDay. change (0 / 12) with 0. change (0 mod 12) with 0.
  replace (y + 0) with y by lia.
  replace (days_before_month (is_leap y) 0) with 0 by (by destruct (is_leap y)).
  lia.
Qed.

Lemma week1Monday_at (y : Z) :
  ~ 0 <= y <= 99 -> Z.abs (DayFromYear y) <= 98000000 ->
  let jan4 := DayFromYear y + 3 in
  week1Monday LocalTZA (Some y) = Some (at_day (jan4 - (jan4 + 3) mod 7) 0).
Proof.
  intros Hy Hd. cbv zeta. unfold week1Monday. cbv zeta.
  assert (Hjan4 : new_Date_of LocalTZA (Some y) (Some 0) (Some 4)
                  = Some (at_day (DayFromYear y + 3) 0)).
  { unfold new_Date_of. cbn [mbind option_bind].
    assert ((if (0 <=? y) && (y <=? 99) then 1900 + y else y) = y) as ->.
    { destruct (Z.leb_spec 0 y), (Z.leb_spec y 99); cbn [andb]; try done. lia. }
    rewrite MakeDay_jan4. unfold MakeDate, MakeTime, UTC.
    replace (0 * msPerHour + 0 * msPerMinute + 0 * msPerSecond + 0) with 0 by reflexivity.
    apply TimeClip_at; unfold msPerDay; lia. }
  rewrite Hjan4, getDay_at by (unfold msPerDay; lia).
  set (jan4 := DayFromYear y + 3).
  assert (Hback : - (or7 (Some ((jan4 + 4) mod 7)) - 1) = - ((jan4 + 3) mod 7)).
  { unfold or7. destruct (Z.eqb_spec ((jan4 + 4) mod 7) 0); day_lia. }
  rewrite Hback, setDate_at by (unfold msPerDay; unfold jan4; day_lia).
  do 2 f_equal.
Qed.

Lemma year_near (n k : Z) :
  -6 <= k <= 6 -> year_of_day n - 1 <= year_of_day (n + k) <= year_of_day n + 1.
Proof.
  intros Hk.
  pose proof (year_of_day_bounds n) as Hn.
  pose proof (year_of_day_bounds (n + k)) as Hnk.
  pose proof (DayFromYear_succ (year_of_day n)) as H1.
  pose proof (DayFromYear_succ (year_of_day n - 1)) as H0.
  replace (year_of_day n - 1 + 1) with (year_of_day n) in H0 by lia.
  pose proof (DayFromYear_succ (year_of_day n + 1)) as H2.
  assert (forall y, 365 <= DaysInYear y <= 366) as Hlen
    by (intros y; unfold DaysInYear; destruct (is_leap y); lia).
  pose proof (Hlen (year_of_day n)). pose proof (Hlen (year_of_day n - 1)).
  pose proof (Hlen (year_of_day n + 1)).
  split.
  - destruct (Z.le_gt_cases (year_of_day n - 1) (year_of_day (n + k))); [done |].
    pose proof (DayFromYear_mono (year_of_day (n + k) + 1) (year_of_day n - 1) ltac:(lia)).
    lia.
  - destruct (Z.le_gt_cases (year_of_day (n + k)) (year_of_day n + 1)); [done |].
    pose proof (DayFromYear_mono (year_of_day n + 1 + 1) (year_of_day (n + k)) ltac:(lia)).
    lia.
Qed.

(** X26. The ISO week of a date leads back to its week: for a valid
    date whose local year is from 101 on, [getISOWeekInfo] gives an ISO
    year, within one of the local year, and a week from 1 to 53;
    [mondayFromISOWeek] of that year and week is the Monday that
    [startOfWeekMonday] gives for the date, and [jumpToWeek] sets the
    text of that Monday. *)
Theorem iso_week_roundtrip (t : Z) :
  Z.abs t <= 8000000000000000 ->
  101 <= YearFromTime (LocalTime LocalTZA t) ->
  exists isoYear week,
    getISOWeekInfo LocalTZA (Some t) = (Some isoYear, Some week) /\
    1 <= week <= 53 /\
    YearFromTime (LocalTime LocalTZA t) - 1 <= isoYear
      <= YearFromTime (LocalTime LocalTZA t) + 1 /\
    mondayFromISOWeek LocalTZA isoYear week = startOfWeekMonday LocalTZA (Some t) /\
    jumpToWeek LocalTZA isoYear week
    = toISODate LocalTZA (startOfWeekMonday LocalTZA (Some t)).
Proof.
  intros Ht Hyear. destruct (local_day t) as [Heq Hw].
  unfold LocalTime, YearFromTime in *.
  set (n := Day (t + LocalTZA)) in *. set (w := TimeWithinDay (t + LocalTZA)) in *.
  assert (Hn : Z.abs n <= 93000000).
  { unfold n, Day. unfold msPerDay in *. day_lia. }
  set (day7 := or7 (Some ((n + 4) mod 7))).
  assert (Hday7 : 4 - day7 = 3 - (n + 3) mod 7).
  { unfold day7, or7. destruct (Z.eqb_spec ((n + 4) mod 7) 0); day_lia. }
  set (th := n + (3 - (n + 3) mod 7)).
  set (y := year_of_day th).
  destruct (year_near n (3 - (n + 3) mod 7) ltac:(day_lia)) as [Hy1 Hy2]. fold th y in Hy1, Hy2.
  pose proof (year_of_day_bounds th) as Hth. fold y in Hth.
  pose proof (DayFromYear_succ y) as Hsucc.
  assert (365 <= DaysInYear y <= 366) as Hlen
    by (unfold DaysInYear; destruct (is_leap y); lia).
  assert (Hdfy : Z.abs (DayFromYear y) <= 98000000) by (unfold th in Hth; day_lia).
  set (jan4 := DayFromYear y + 3) in *.
  set (w1 := jan4 - (jan4 + 3) mod 7).
  set (week := 1 + Math_round_ratio ((th - w1) * msPerDay) (7 * 24 * 60 * 60 * 1000)).
  assert (Hweek : th - 3 = w1 + (week - 1) * 7 /\ 1 <= week <= 53).
  { unfold week, Math_round_ratio, w1, th, jan4, msPerDay in *. day_lia. }
  assert (Hinfo : getISOWeekInfo LocalTZA (Some t) = (Some y, Some week)).
  { unfold getISOWeekInfo. cbv zeta. rewrite Heq.
    rewrite setHours0_at by (try done; lia).
    rewrite getDay_at by (unfold msPerDay; lia). fold day7. rewrite Hday7.
    rewrite setDate_at by (unfold msPerDay; try lia; day_lia). fold th.
    rewrite getFullYear_at by (unfold msPerDay; lia). fold y.
    pose proof (week1Monday_at y ltac:(lia) Hdfy) as Hw1. cbv zeta in Hw1.
    fold jan4 w1 in Hw1. rewrite Hw1.
    cbn [mbind option_bind fmap option_fmap option_map]. do 3 f_equal.
    unfold week. f_equal. lia. }
  exists y, week. split; [exact Hinfo |]. split; [tauto |]. split; [lia |].
  enough (mondayFromISOWeek LocalTZA y week = startOfWeekMonday LocalTZA (Some t)) as Hmon.
  { split; [exact Hmon |]. unfold jumpToWeek. cbv zeta.
    replace (Z.max 1 (Z.min 53 week)) with week by lia. by rewrite Hmon. }
  rewrite Heq. rewrite start_of_week_at by (try done; lia).
  unfold mondayFromISOWeek. cbv zeta.
  pose proof (week1Monday_at y ltac:(lia) Hdfy) as Hw1. cbv zeta in Hw1.
  fold jan4 w1 in Hw1. rewrite Hw1.
  rewrite setDate_at by (unfold msPerDay; try lia; unfold w1, jan4 in *; day_lia).
  rewrite setHours0_at by (unfold msPerDay; try lia; unfold w1, jan4 in *; day_lia).
  do 2 f_equal. unfold th in Hweek. lia.
Qed.


(** *** Dates as text *)

Lemma digit_char_not_dash (x : Z) : Ascii.eqb (digit_char x) "-" = false.
Proof.
  destruct (digit_char_cases x) as (r & Hr & _ & ->).
  assert (r = 0 \/ r = 1 \/ r = 2 \/ r = 3 \/ r = 4 \/ r = 5 \/ r = 6 \/ r = 7 \/
          r = 8 \/ r = 9) as Hcases by lia.
  decompose [or] Hcases; subst r; reflexivity.
Qed.

Lemma split_date_string (y mo d : Z) :
  split (date_string y mo d) "-"
  = [Js.str (digits 4 y); Js.str (digits 2 mo); Js.str (digits 2 d)].
Proof.
  unfold split, date_string. rewrite chars_str.
  cbn [digits app split_chars]. rewrite !digit_char_not_dash. reflexivity.
Qed.

(** [Number] of a field of four and of two digits, checked on every
    value. *)
Lemma number_four_digits_checked :
  forallb (fun y => bool_decide (to_integer (StringToNumber (Js.str (digits 4 y))) = Some y))
          (map Z.of_nat (seq 0 (Z.to_nat 10000))) = true.
Proof. vm_compute. reflexivity. Qed.

Lemma number_two_digits_checked :
  forallb (fun n =>
             bool_decide (to_integer (StringToNumber (Js.str (digits 2 n))) = Some n) &&
             bool_decide (to_integer (minus (StringToNumber (Js.str (digits 2 n))) 1)
                          = Some (n - 1)))
          (map Z.of_nat (seq 0 100)) = true.
Proof. vm_compute. reflexivity. Qed.

Lemma number_four_digits (y : Z) :
  0 <= y <= 9999 -> to_integer (StringToNumber (Js.str (digits 4 y))) = Some y.
Proof.
  intros Hy. pose proof number_four_digits_checked as H.
  rewrite forallb_forall in H.
  eapply bool_decide_eq_true_1, (H y).
  apply in_map_iff. exists (Z.to_nat y). split; [lia | apply in_seq; lia].
Qed.

Lemma number_two_digits (n : Z) :
  0 <= n <= 99 ->
  to_integer (StringToNumber (Js.str (digits 2 n))) = Some n /\
  to_integer (minus (StringToNumber (Js.str (digits 2 n))) 1) = Some (n - 1).
Proof.
  intros Hn. pose proof number_two_digits_checked as H.
  rewrite forallb_forall in H.
  assert (In n (map Z.of_nat (seq 0 100))) as Hin
    by (apply in_map_iff; exists (Z.to_nat n); split; [lia | apply in_seq; lia]).
  apply H, andb_prop in Hin as [H1 H2].
  split; by eapply bool_decide_eq_true_1.
Qed.

(** The text of a date reads as the local midnight of that day. *)
Lemma parseISODate_date_string (y mo d : Z) :
  100 <= y <= 9999 -> 0 <= mo <= 99 -> 0 <= d <= 99 ->
  parseISODate LocalTZA (date_string y mo d)
  = Some (at_day (MakeDay y (mo - 1) d) 0).
Proof.
  intros Hy Hmo Hd. unfold parseISODate. cbv zeta.
  rewrite split_date_string. cbn [map lookup list_lookup default].
  unfold new_Date_ymd, id.
  rewrite number_four_digits by lia.
  destruct (number_two_digits mo Hmo) as [_ ->].
  destruct (number_two_digits d Hd) as [-> _].
  unfold new_Date_of. cbn [mbind option_bind].
  assert ((if (0 <=? y) && (y <=? 99) then 1900 + y else y) = y) as ->.
  { destruct (Z.leb_spec 0 y), (Z.leb_spec y 99); cbn [andb]; try done. lia. }
  unfold MakeDate, MakeTime, UTC.
  replace (0 * msPerHour + 0 * msPerMinute + 0 * msPerSecond + 0) with 0 by reflexivity.
  apply TimeClip_at; [unfold msPerDay; lia |].
  pose proof (days_before_month_bounds (is_leap (y + (mo - 1) / 12)) ((mo - 1) mod 12)
                ltac:(day_lia)) as [Hb0 Hb1].
  unfold MakeDay, DayFromYear.
  destruct (is_leap (y + (mo - 1) / 12)); cbv iota in Hb1; day_lia.
Qed.

(** The text [toISODate] writes for a day with a year of four digits. *)
Lemma toISODate_at (n w : Z) :
  0 <= w < msPerDay -> 1000 <= year_of_day n <= 9999 ->
  toISODate LocalTZA (Some (at_day n w)) = date_of_day n.
Proof.
  intros Hw Hy. unfold toISODate, date_of_day. cbv zeta.
  unfold getFullYear, getMonth, getDate, LocalTime.
  cbn [fmap option_fmap option_map compose number_string].
  replace (at_day n w + LocalTZA) with (n * msPerDay + w) by lia.
  assert (Hsame : forall f : Z -> Z,
            (forall t1 t2, Day t1 = Day t2 -> f t1 = f t2) ->
            f (n * msPerDay + w) = f (n * msPerDay)).
  { intros f Hf. apply Hf. rewrite Day_at by done.
    replace (n * msPerDay) with (n * msPerDay + 0) by lia.
    rewrite Day_at; [done | unfold msPerDay; lia]. }
  assert (HY : YearFromTime (n * msPerDay + w) = YearFromTime (n * msPerDay)).
  { apply (Hsame YearFromTime). unfold YearFromTime. by intros t1 t2 ->. }
  assert (HM : MonthFromTime (n * msPerDay + w) = MonthFromTime (n * msPerDay)).
  { apply (Hsame MonthFromTime).
    unfold MonthFromTime, InLeapYear, DayWithinYear, YearFromTime. by intros t1 t2 ->. }
  assert (HD : DateFromTime (n * msPerDay + w) = DateFromTime (n * msPerDay)).
  { apply (Hsame DateFromTime).
    unfold DateFromTime, MonthFromTime, InLeapYear, DayWithinYear, YearFromTime.
    by intros t1 t2 ->. }
  rewrite HY, HM, HD.
  set (t0 := n * msPerDay).
  assert (YearFromTime t0 = year_of_day n) as Hyear.
  { unfold YearFromTime, t0. replace (n * msPerDay) with (n * msPerDay + 0) by lia.
    rewrite Day_at; [done | unfold msPerDay; lia]. }
  destruct (local_fields_wall_clock t0 ltac:(lia)) as (_ & Hmo & Hd & _).
  pose proof (days_in_month_bounds (YearFromTime t0) _ Hmo) as Hdim.
  rewrite pretty_year, !pad_two_digits by lia.
  unfold date_string. rewrite !str_app_cons. reflexivity.
Qed.

Lemma parseISODate_date_of_day (n : Z) :
  1000 <= year_of_day n <= 9999 ->
  parseISODate LocalTZA (date_of_day n) = Some (at_day n 0).
Proof.
  intros Hy. unfold date_of_day. cbv zeta. set (t0 := n * msPerDay).
  assert (Day t0 = n) as Hday.
  { unfold t0. replace (n * msPerDay) with (n * msPerDay + 0) by lia.
    rewrite Day_at; [done | unfold msPerDay; lia]. }
  assert (YearFromTime t0 = year_of_day n) as Hyear by (unfold YearFromTime; by rewrite Hday).
  destruct (local_fields_wall_clock t0 ltac:(lia)) as (_ & Hmo & Hd & _).
  pose proof (days_in_month_bounds (YearFromTime t0) _ Hmo) as Hdim.
  rewrite parseISODate_date_string by lia.
  replace (MonthFromTime t0 + 1 - 1) with (MonthFromTime t0) by lia.
  by rewrite MakeDay_fields, Hday.
Qed.

(** A date of the calendar moved by some days. *)
Lemma shifted_date (n k : Z) :
  1000 <= year_of_day n <= 9999 -> 1000 <= year_of_day (n + k) <= 9999 ->
  toISODate LocalTZA (addDays LocalTZA (parseISODate LocalTZA (date_of_day n)) k)
  = date_of_day (n + k).
Proof.
  intros Hy Hyk. rewrite parseISODate_date_of_day by done.
  assert (Hbound : forall m, 1000 <= year_of_day m <= 9999 -> Z.abs m <= 99000000).
  { intros m Hm. pose proof (year_of_day_bounds m) as Hb. unfold DayFromYear in Hb. day_lia. }
  unfold addDays. rewrite setDate_at by (unfold msPerDay; try lia; by apply Hbound).
  apply toISODate_at; [unfold msPerDay; lia | done].
Qed.

(** X27. The dates of the pay week: for a week start that is the text of
    a date, with years of four digits around it, [weekDates] lists that
    date and the six days after it, in order; [nextWeek] is the date
    seven days later and [prevWeek] the date seven days earlier, so each
    undoes the other. *)
Theorem week_dates_consecutive (n : Z) :
  1000 <= year_of_day (n - 7) -> year_of_day (n + 7) <= 9999 ->
  let weekStart := date_of_day n in
  weekDates LocalTZA weekStart = map (fun i => date_of_day (n + Z.of_nat i)) (seq 0 7) /\
  nextWeek LocalTZA weekStart = date_of_day (n + 7) /\
  prevWeek LocalTZA weekStart = date_of_day (n - 7) /\
  prevWeek LocalTZA (nextWeek LocalTZA weekStart) = weekStart /\
  nextWeek LocalTZA (prevWeek LocalTZA weekStart) = weekStart.
Proof.
  intros Hlo Hhi. cbv zeta.
  assert (Hmono : forall a b, a <= b -> year_of_day a <= year_of_day b).
  { intros a b Hab.
    pose proof (year_of_day_bounds a) as Ha. pose proof (year_of_day_bounds b) as Hb.
    destruct (Z.le_gt_cases (year_of_day a) (year_of_day b)); [done |].
    pose proof (DayFromYear_mono (year_of_day b + 1) (year_of_day a) ltac:(lia)). lia. }
  assert (Hyear : forall k, -7 <= k <= 7 -> 1000 <= year_of_day (n + k) <= 9999).
  { intros k Hk. pose proof (Hmono (n - 7) (n + k) ltac:(lia)).
    pose proof (Hmono (n + k) (n + 7) ltac:(lia)). lia. }
  assert (Hn : 1000 <= year_of_day n <= 9999).
  { replace n with (n + 0) by lia. apply Hyear. lia. }
  assert (Hshift : forall k, -7 <= k <= 7 ->
            toISODate LocalTZA (addDays LocalTZA (parseISODate LocalTZA (date_of_day n)) k)
            = date_of_day (n + k)).
  { intros k Hk. apply shifted_date; [done | by apply Hyear]. }
  split; [| split; [| split; [| split]]].
  - unfold weekDates. cbv zeta. apply map_ext_in. intros i Hi. apply in_seq in Hi.
    apply Hshift. lia.
  - apply Hshift. lia.
  - apply (Hshift (-7)). lia.
  - unfold prevWeek at 1, nextWeek. rewrite (Hshift 7) by lia.
    rewrite shifted_date; [f_equal; lia | by apply Hyear |].
    replace (n + 7 + -7) with (n + 0) by lia. apply Hyear. lia.
  - unfold nextWeek at 1, prevWeek. rewrite (Hshift (-7)) by lia.
    rewrite shifted_date; [f_equal; lia | by apply Hyear |].
    replace (n + -7 + 7) with (n + 0) by lia. apply Hyear. lia.
Qed.

End CalendarFacts.

Section CalendarCases.

Import Json JsDate Calendar.

(** X25 on Sunday 21 December 2025, 08:30:12 UTC, one hour east of
    Greenwich: the Monday is 15 December. *)
Lemma startOfWeekMonday_spec_scenario :
  exists m,
    startOfWeekMonday 3600000 (Some 1766305812345) = Some m /\
    getDay 3600000 (Some m) = Some 1 /\
    TimeWithinDay (LocalTime 3600000 m) = 0 /\
    0 <= Day (LocalTime 3600000 1766305812345) - Day (LocalTime 3600000 m) <= 6.
Proof.
  apply (startOfWeekMonday_spec 3600000 ltac:(vm_compute; reflexivity) 1766305812345).
  vm_compute. discriminate.
Defined.

Example startOfWeekMonday_text :
  toISODate 3600000 (startOfWeekMonday 3600000 (Some 1766305812345)) = "2025-12-15".
Proof. vm_compute. reflexivity. Qed.

(** X26 on the same day: week 51 of 2025. *)
Lemma iso_week_roundtrip_scenario :
  exists isoYear week,
    getISOWeekInfo 3600000 (Some 1766305812345) = (Some isoYear, Some week) /\
    1 <= week <= 53 /\
    YearFromTime (LocalTime 3600000 1766305812345) - 1 <= isoYear
      <= YearFromTime (LocalTime 3600000 1766305812345) + 1 /\
    mondayFromISOWeek 3600000 isoYear week
    = startOfWeekMonday 3600000 (Some 1766305812345) /\
    jumpToWeek 3600000 isoYear week
    = toISODate 3600000 (startOfWeekMonday 3600000 (Some 1766305812345)).
Proof.
  apply (iso_week_roundtrip 3600000 ltac:(vm_compute; reflexivity) 1766305812345).
  - vm_compute. discriminate.
  - vm_compute. discriminate.
Defined.

Example iso_week_of_scenario :
  getISOWeekInfo 3600000 (Some 1766305812345) = (Some 2025, Some 51).
Proof. vm_compute. reflexivity. Qed.

(** X27 at the week of the specification, which starts on Monday 6
    January 2025, day 20094. *)
Lemma week_dates_consecutive_scenario :
  let weekStart := date_of_day 20094 in
  weekDates 0 weekStart = map (fun i => date_of_day (20094 + Z.of_nat i)) (seq 0 7) /\
  nextWeek 0 weekStart = date_of_day (20094 + 7) /\
  prevWeek 0 weekStart = date_of_day (20094 - 7) /\
  prevWeek 0 (nextWeek 0 weekStart) = weekStart /\
  nextWeek 0 (prevWeek 0 weekStart) = weekStart.
Proof.
  apply (week_dates_consecutive 0 ltac:(vm_compute; reflexivity) 20094).
  - vm_compute. discriminate.
  - vm_compute. discriminate.
Defined.

Example week_dates_of_scenario :
  date_of_day 20094 = "2025-01-06" /\ weekDates 0 "2025-01-06" = Scenario.week.
Proof. split; vm_compute; reflexivity. Qed.

End CalendarCases.
